(** * DataUARTHandler: the mmWave data-port pipeline

    A shallow embedding of [HalsDataHandlerClass.cpp]:

    - [sortIncomingData]  : the TLV state machine of the Sorter thread;
    - [readIncomingData] and [isMagicWord] : the Reader thread with its
      8-byte sliding window;
    - [syncedBufferSwap] and the three-thread hand-shake on [countSync].

    Bytes are [Byte.byte]; the unsigned machine integers of the source are
    [Z] with their wrap-around written out; [float] is IEEE-754 binary32,
    computed with the Standard Library's [SpecFloat] at precision 24 and
    maximal exponent 128.  Bounds-checked accesses ([vector::at]) that fail
    and undefined behaviour are explicit results of the model. *)

From Stdlib Require Import ZArith List Bool Lia String.
From Stdlib Require Import Init.Byte.
From Stdlib Require Import Floats.SpecFloat.
Import ListNotations.
Local Open Scope Z_scope.

(* ================================================================== *)
(** ** Faults and the error monad *)

(** The ways in which the C++ code leaves defined behaviour. *)
Inductive ub_reason : Set :=
| MemcpyPastEnd      (* memcpy reads behind the last element of the vector *)
| IndexPastEnd       (* operator[] with an index >= size() *)
| FloatToIntRange    (* double -> int conversion of a value int cannot hold *)
| SignedOverflow.    (* int arithmetic leaving [-2^31, 2^31) *)

Inductive fault : Set :=
| OutOfRange                   (* std::out_of_range thrown by vector::at *)
| Undefined (why : ub_reason).

Inductive result (A : Type) : Type :=
| Ok (a : A)
| Fault (f : fault).
Arguments Ok {A} a.
Arguments Fault {A} f.

Definition bind {A B : Type} (r : result A) (k : A -> result B) : result B :=
  match r with
  | Ok a => k a
  | Fault f => Fault f
  end.

Notation "x <- e ;; k" := (bind e (fun x => k))
  (at level 61, e at next level, right associativity).

(* ================================================================== *)
(** ** Bytes and machine integers *)

Definition byte_val (b : byte) : Z := Z.of_N (Byte.to_N b).

(** Little-endian value of a run of bytes (what memcpy into an unsigned
    integer yields on the little-endian targets of the driver). *)
Fixpoint le_value (bs : list byte) : Z :=
  match bs with
  | [] => 0
  | b :: rest => byte_val b + 256 * le_value rest
  end.

Definition vsize (buf : list byte) : Z := Z.of_nat (List.length buf).

(** [memcpy(&field, &currentBufp->at(pos), n)]: [at] throws when [pos] is
    not an index of the vector; the copy itself is unchecked. *)
Definition memcpy_at (n : nat) (buf : list byte) (pos : Z) : result Z :=
  if pos <? vsize buf then
    if pos + Z.of_nat n <=? vsize buf
    then Ok (le_value (firstn n (skipn (Z.to_nat pos) buf)))
    else Fault (Undefined MemcpyPastEnd)
  else Fault OutOfRange.

(** [unsigned int] addition. *)
Definition u32_add (a b : Z) : Z := (a + b) mod 2 ^ 32.

(** The bit pattern of a 16-bit field read as [int16_t]. *)
Definition int16 (v : Z) : Z := if v <? 32768 then v else v - 65536.

(* ================================================================== *)
(** ** binary32 arithmetic *)

Definition f32 : Set := spec_float.
Definition prec32 : Z := 24.
Definition emax32 : Z := 128.

Definition f32_of_Z (z : Z) : f32 := binary_normalize prec32 emax32 z 0 false.
Definition f32_add : f32 -> f32 -> f32 := SFadd prec32 emax32.
Definition f32_sub : f32 -> f32 -> f32 := SFsub prec32 emax32.
Definition f32_mul : f32 -> f32 -> f32 := SFmul prec32 emax32.
Definition f32_div : f32 -> f32 -> f32 := SFdiv prec32 emax32.
Definition f32_neg : f32 -> f32 := SFopp.
Definition f32_abs : f32 -> f32 := SFabs.
Definition f32_lt : f32 -> f32 -> bool := SFltb.
Definition f32_gt (a b : f32) : bool := SFltb b a.
Definition f32_eq : f32 -> f32 -> bool := SFeqb.
Definition f32_ne (a b : f32) : bool := negb (SFeqb a b).

(* ================================================================== *)
(** ** Data of the Sorter *)

(** Modelled from the spec: the states of [SorterState], declared in
    DataHandlerClass.h (section 4.2 lists them). *)
Inductive SorterState : Set :=
| READ_HEADER
| CHECK_TLV_TYPE
| READ_OBJ_STRUCT
| READ_LOG_MAG_RANGE
| READ_NOISE
| READ_AZIMUTH
| READ_DOPPLER
| READ_STATS
| SWAP_BUFFERS.

Definition SorterState_eq_dec (a b : SorterState) : {a = b} + {a <> b}.
Proof. decide equality. Defined.

(** Modelled from the spec: the numbering of [MmwDemo_Output_TLV_Types],
    declared in mmWave.h (section 4.2, CHECK_TLV_TYPE).  The value of the
    last enumerator, [MMWDEMO_OUTPUT_MSG_MAX], is not given anywhere and is
    a parameter of the Sorter. *)
Definition MMWDEMO_OUTPUT_MSG_NULL : Z := 0.
Definition MMWDEMO_OUTPUT_MSG_DETECTED_POINTS : Z := 1.
Definition MMWDEMO_OUTPUT_MSG_RANGE_PROFILE : Z := 2.
Definition MMWDEMO_OUTPUT_MSG_NOISE_PROFILE : Z := 3.
Definition MMWDEMO_OUTPUT_MSG_AZIMUTH_STATIC_HEAT_MAP : Z := 4.
Definition MMWDEMO_OUTPUT_MSG_RANGE_DOPPLER_HEAT_MAP : Z := 5.
Definition MMWDEMO_OUTPUT_MSG_STATS : Z := 6.

(** Modelled from the spec: [MmwDemo_output_message_header] without its
    magic word (section 3, FrameHeader). *)
Record FrameHeader : Set := mkHeader {
  version : Z;
  totalPacketLen : Z;
  platform : Z;
  frameNumber : Z;
  timeCpuCycles : Z;
  numDetectedObj : Z;
  numTLVs : Z;
  subFrameNumber : Z
}.

(** Modelled from the spec: [MmwDemo_DetectedObj], six signed 16-bit words
    (section 3, DetectedObjectsPayload). *)
Record DetectedObj : Set := mkObj {
  rangeIdx : Z;
  dopplerIdx : Z;
  peakVal : Z;
  obj_x : Z;
  obj_y : Z;
  obj_z : Z
}.

(** Modelled from the spec: [RadarPoint] of RadarPoint.h (section 3). *)
Record RadarPoint : Set := mkPoint {
  pt_x : f32;
  pt_y : f32;
  pt_z : f32;
  pt_intensity : f32;
  pt_range : f32;
  pt_doppler : f32
}.

Definition zero_point : RadarPoint :=
  let z := S754_zero false in mkPoint z z z z z z.

(** The fields of [pcl::PointCloud<RadarPoint>] the Sorter writes. *)
Record PointCloud : Set := mkCloud {
  frame_id : string;
  height : Z;
  width : Z;
  is_dense : bool;
  points : list RadarPoint
}.

(** The members of the handler the Sorter reads. *)
Record RadarConfig : Set := mkConfig {
  numRangeBins : Z;
  numDopplerBins : Z;
  rangeIdxToMeters : f32;
  dopplerResolutionToMps : f32;
  maxAllowedElevationAngleDeg : Z;
  maxAllowedAzimuthAngleDeg : Z
}.

(** Locals of [sortIncomingData] together with [mmwData] and [RScan]
    ([offset] is written once and never read; it is left out). *)
Record Sorter : Set := mkSorter {
  tlvType : Z;
  tlvLen : Z;
  headerSize : Z;
  currentDatap : Z;
  sorterState : SorterState;
  loop_i : Z;
  tlvCount : Z;
  maxElevationAngleRatioSquared : f32;
  maxAzimuthAngleRatio : f32;
  header : FrameHeader;
  numObjOut : Z;
  xyzQFormat : Z;
  objOut : DetectedObj;
  RScan : PointCloud
}.

Definition initial_sorter : Sorter :=
  mkSorter MMWDEMO_OUTPUT_MSG_NULL 0 0 0 READ_HEADER 0 0
           (S754_zero false) (S754_zero false)
           (mkHeader 0 0 0 0 0 0 0 0) 0 0 (mkObj 0 0 0 0 0 0)
           (mkCloud EmptyString 0 0 false []).

Definition set_state (s : Sorter) (st : SorterState) : Sorter :=
  mkSorter (tlvType s) (tlvLen s) (headerSize s) (currentDatap s) st
           (loop_i s) (tlvCount s) (maxElevationAngleRatioSquared s)
           (maxAzimuthAngleRatio s) (header s) (numObjOut s) (xyzQFormat s)
           (objOut s) (RScan s).

Definition set_cursor (s : Sorter) (c : Z) : Sorter :=
  mkSorter (tlvType s) (tlvLen s) (headerSize s) c (sorterState s)
           (loop_i s) (tlvCount s) (maxElevationAngleRatioSquared s)
           (maxAzimuthAngleRatio s) (header s) (numObjOut s) (xyzQFormat s)
           (objOut s) (RScan s).

Definition set_loop_i (s : Sorter) (i : Z) : Sorter :=
  mkSorter (tlvType s) (tlvLen s) (headerSize s) (currentDatap s)
           (sorterState s) i (tlvCount s) (maxElevationAngleRatioSquared s)
           (maxAzimuthAngleRatio s) (header s) (numObjOut s) (xyzQFormat s)
           (objOut s) (RScan s).

Definition set_tlvCount (s : Sorter) (c : Z) : Sorter :=
  mkSorter (tlvType s) (tlvLen s) (headerSize s) (currentDatap s)
           (sorterState s) (loop_i s) c (maxElevationAngleRatioSquared s)
           (maxAzimuthAngleRatio s) (header s) (numObjOut s) (xyzQFormat s)
           (objOut s) (RScan s).

Definition set_tlv (s : Sorter) (ty len : Z) : Sorter :=
  mkSorter ty len (headerSize s) (currentDatap s)
           (sorterState s) (loop_i s) (tlvCount s)
           (maxElevationAngleRatioSquared s)
           (maxAzimuthAngleRatio s) (header s) (numObjOut s) (xyzQFormat s)
           (objOut s) (RScan s).

Definition set_header (s : Sorter) (hs : Z) (h : FrameHeader) : Sorter :=
  mkSorter (tlvType s) (tlvLen s) hs (currentDatap s)
           (sorterState s) (loop_i s) (tlvCount s)
           (maxElevationAngleRatioSquared s)
           (maxAzimuthAngleRatio s) h (numObjOut s) (xyzQFormat s)
           (objOut s) (RScan s).

Definition set_obj_header (s : Sorter) (n q : Z) : Sorter :=
  mkSorter (tlvType s) (tlvLen s) (headerSize s) (currentDatap s)
           (sorterState s) (loop_i s) (tlvCount s)
           (maxElevationAngleRatioSquared s)
           (maxAzimuthAngleRatio s) (header s) n q
           (objOut s) (RScan s).

Definition set_ratios (s : Sorter) (e a : f32) : Sorter :=
  mkSorter (tlvType s) (tlvLen s) (headerSize s) (currentDatap s)
           (sorterState s) (loop_i s) (tlvCount s) e a
           (header s) (numObjOut s) (xyzQFormat s)
           (objOut s) (RScan s).

Definition set_numObjOut (s : Sorter) (n : Z) : Sorter :=
  set_obj_header s n (xyzQFormat s).

Definition set_objOut (s : Sorter) (o : DetectedObj) : Sorter :=
  mkSorter (tlvType s) (tlvLen s) (headerSize s) (currentDatap s)
           (sorterState s) (loop_i s) (tlvCount s)
           (maxElevationAngleRatioSquared s)
           (maxAzimuthAngleRatio s) (header s) (numObjOut s) (xyzQFormat s)
           o (RScan s).

Definition set_RScan (s : Sorter) (c : PointCloud) : Sorter :=
  mkSorter (tlvType s) (tlvLen s) (headerSize s) (currentDatap s)
           (sorterState s) (loop_i s) (tlvCount s)
           (maxElevationAngleRatioSquared s)
           (maxAzimuthAngleRatio s) (header s) (numObjOut s) (xyzQFormat s)
           (objOut s) c.

(** [points.resize(n)]: truncate, or extend with value-initialised points. *)
Definition resize_points (n : Z) (pts : list RadarPoint) : list RadarPoint :=
  firstn (Z.to_nat n) pts ++ repeat zero_point (Z.to_nat n - List.length pts).

(** [points[i] = p] for an index inside the vector. *)
Fixpoint store_point (i : nat) (p : RadarPoint) (pts : list RadarPoint)
  : list RadarPoint :=
  match pts, i with
  | [], _ => []
  | _ :: rest, O => p :: rest
  | q :: rest, S j => q :: store_point j p rest
  end.

(* ================================================================== *)
(** ** READ_HEADER *)

Definition sdk_major (v : Z) : Z := Z.land (Z.shiftr v 24) 255.
Definition sdk_minor (v : Z) : Z := Z.land (Z.shiftr v 16) 255.
Definition platform_low16 (p : Z) : Z := Z.land p 65535.

(** Lines 348-360: the header size the Sorter expects. *)
Definition expected_headerSize (v p : Z) : Z :=
  if (sdk_major v <? 1) || (sdk_minor v <? 1) then 28
  else if platform_low16 p =? 5187 (* 0x1443 *) then 28
  else 32.

Definition read_header (buf : list byte) (s : Sorter) : result Sorter :=
  if vsize buf <? 12 then Ok (set_state s SWAP_BUFFERS)
  else
    let c0 := currentDatap s in
    v <- memcpy_at 4 buf c0 ;;
    let c1 := u32_add c0 4 in
    len <- memcpy_at 4 buf c1 ;;
    let c2 := u32_add c1 4 in
    plat <- memcpy_at 4 buf c2 ;;
    let c3 := u32_add c2 4 in
    let hs := expected_headerSize v plat in
    let h0 := header s in
    if vsize buf <? hs then
      Ok (set_state
            (set_cursor
               (set_header s hs
                  (mkHeader v len plat (frameNumber h0) (timeCpuCycles h0)
                            (numDetectedObj h0) (numTLVs h0)
                            (subFrameNumber h0)))
               c3)
            SWAP_BUFFERS)
    else
      fn <- memcpy_at 4 buf c3 ;;
      let c4 := u32_add c3 4 in
      cyc <- memcpy_at 4 buf c4 ;;
      let c5 := u32_add c4 4 in
      ndet <- memcpy_at 4 buf c5 ;;
      let c6 := u32_add c5 4 in
      ntlv <- memcpy_at 4 buf c6 ;;
      let c7 := u32_add c6 4 in
      sub_c <- (if negb (platform_low16 plat =? 5187)
                then sub <- memcpy_at 4 buf c7 ;; Ok (sub, u32_add c7 4)
                else Ok (subFrameNumber h0, c7)) ;;
      let h := mkHeader v len plat fn cyc ndet ntlv (fst sub_c) in
      let s' := set_cursor (set_header s hs h) (snd sub_c) in
      if len =? vsize buf - 4
      then Ok (set_state s' CHECK_TLV_TYPE)
      else Ok (set_state s' SWAP_BUFFERS).

(* ================================================================== *)
(** ** CHECK_TLV_TYPE and the payloads that are skipped *)

Section TlvDispatch.

(** The enumerator that closes [MmwDemo_Output_TLV_Types]. *)
Variable MMWDEMO_OUTPUT_MSG_MAX : Z.

(** Lines 694-736: the [switch] on the TLV type. *)
Definition dispatch_tlv (ty : Z) (current : SorterState) : SorterState :=
  if ty =? MMWDEMO_OUTPUT_MSG_NULL then current
  else if ty =? MMWDEMO_OUTPUT_MSG_DETECTED_POINTS then READ_OBJ_STRUCT
  else if ty =? MMWDEMO_OUTPUT_MSG_RANGE_PROFILE then READ_LOG_MAG_RANGE
  else if ty =? MMWDEMO_OUTPUT_MSG_NOISE_PROFILE then READ_NOISE
  else if ty =? MMWDEMO_OUTPUT_MSG_AZIMUTH_STATIC_HEAT_MAP then READ_AZIMUTH
  else if ty =? MMWDEMO_OUTPUT_MSG_RANGE_DOPPLER_HEAT_MAP then READ_DOPPLER
  else if ty =? MMWDEMO_OUTPUT_MSG_STATS then READ_STATS
  else if ty =? MMWDEMO_OUTPUT_MSG_MAX then READ_HEADER
  else current.

Definition check_tlv_type (buf : list byte) (s : Sorter) : result Sorter :=
  let count := tlvCount s in
  if count =? 2 ^ 31 - 1 then Fault (Undefined SignedOverflow)
  else
    let s1 := set_tlvCount s (count + 1) in
    if numTLVs (header s) <=? count then Ok (set_state s1 SWAP_BUFFERS)
    else
      let c0 := currentDatap s in
      ty <- memcpy_at 4 buf c0 ;;
      let c1 := u32_add c0 4 in
      len <- memcpy_at 4 buf c1 ;;
      let c2 := u32_add c1 4 in
      let s2 := set_cursor (set_tlv s1 ty len) c2 in
      Ok (set_state s2 (dispatch_tlv ty (sorterState s2))).

End TlvDispatch.

(** READ_LOG_MAG_RANGE, READ_NOISE, READ_AZIMUTH, READ_DOPPLER and
    READ_STATS share one body: [i = 0; while (i++ < tlvLen - 1) {}] and
    [currentDatap += tlvLen].  The comparison is unsigned, so with
    [tlvLen = 0] or [tlvLen >= 2^31] the [int] counter overflows before the
    loop ends; otherwise the loop leaves [i = tlvLen]. *)
Definition skip_payload (s : Sorter) : result Sorter :=
  let len := tlvLen s in
  if (1 <=? len) && (len <=? 2 ^ 31 - 1) then
    Ok (set_state
          (set_cursor (set_loop_i s len) (u32_add (currentDatap s) len))
          CHECK_TLV_TYPE)
  else Fault (Undefined SignedOverflow).

(* ================================================================== *)
(** ** READ_OBJ_STRUCT *)

(** Lines 445-469: the six 16-bit words of one detected object. *)
Definition read_object (buf : list byte) (c0 : Z) : result (DetectedObj * Z) :=
  r <- memcpy_at 2 buf c0 ;;
  let c1 := u32_add c0 2 in
  d <- memcpy_at 2 buf c1 ;;
  let c2 := u32_add c1 2 in
  p <- memcpy_at 2 buf c2 ;;
  let c3 := u32_add c2 2 in
  x <- memcpy_at 2 buf c3 ;;
  let c4 := u32_add c3 2 in
  y <- memcpy_at 2 buf c4 ;;
  let c5 := u32_add c4 2 in
  z <- memcpy_at 2 buf c5 ;;
  let c6 := u32_add c5 2 in
  Ok (mkObj (int16 r) (int16 d) (int16 p) (int16 x) (int16 y) (int16 z), c6).

(** [int xyzQFormat = pow(2, mmwData.xyzQFormat)]: the power is computed
    in [double] and converted to [int]. *)
Definition pow2_int (q : Z) : result Z :=
  if q <=? 30 then Ok (2 ^ q) else Fault (Undefined FloatToIntRange).

(** Lines 493-498, one pass of the loop over [data[0..2]]. *)
Definition q_to_meters (range_idx scale : Z) (d : f32) : f32 :=
  let d1 := if f32_gt d (f32_of_Z 32767) then f32_sub d (f32_of_Z 65536)
            else d in
  f32_div (f32_add (f32_of_Z range_idx) (f32_mul d1 (f32_of_Z 65536)))
          (f32_of_Z scale).

(** Lines 548-555: the condition under which a point is kept. *)
Definition keep_point (elev_sq az_ratio : f32) (p : RadarPoint) : bool :=
  (f32_eq elev_sq (f32_of_Z (-1))
   || f32_lt (f32_div (f32_mul (pt_z p) (pt_z p))
                      (f32_add (f32_mul (pt_x p) (pt_x p))
                               (f32_mul (pt_y p) (pt_y p))))
             elev_sq)
  && (f32_eq az_ratio (f32_of_Z (-1))
      || f32_lt (f32_abs (f32_div (pt_y p) (pt_x p))) az_ratio)
  && f32_ne (pt_x p) (f32_of_Z 0).

Section ObjStruct.

Variable cfg : RadarConfig.
(** [tan_deg d] is the [float] that [tan(d * M_PI / 180.0)] is stored as. *)
Variable tan_deg : Z -> f32.
(** [ten_log10 v] is the [float] that [10 * log10(v)] is stored as. *)
Variable ten_log10 : f32 -> f32.

Definition elevation_enabled : bool :=
  (0 <=? maxAllowedElevationAngleDeg cfg)
  && (maxAllowedElevationAngleDeg cfg <? 90).

Definition azimuth_enabled : bool :=
  (0 <=? maxAllowedAzimuthAngleDeg cfg)
  && (maxAllowedAzimuthAngleDeg cfg <? 90).

(** Lines 421-437. *)
Definition elevation_ratio_squared : f32 :=
  if elevation_enabled
  then let t := tan_deg (maxAllowedElevationAngleDeg cfg) in f32_mul t t
  else f32_of_Z (-1).

Definition azimuth_ratio : f32 :=
  if azimuth_enabled
  then tan_deg (maxAllowedAzimuthAngleDeg cfg)
  else f32_of_Z (-1).

(** Lines 471-498 and 537-542: from the raw record to the point. *)
Definition convert_object (q : Z) (o : DetectedObj) : result RadarPoint :=
  scale <- pow2_int q ;;
  let data4 := f32_mul (f32_of_Z (rangeIdx o)) (rangeIdxToMeters cfg) in
  let d5 := f32_of_Z (dopplerIdx o) in
  let d5' := if f32_gt d5 (f32_of_Z (Z.quot (numDopplerBins cfg) 2 - 1))
             then f32_sub d5 (f32_of_Z (numDopplerBins cfg))
             else d5 in
  let data5 := f32_mul d5' (dopplerResolutionToMps cfg) in
  let data3 := ten_log10 (f32_add (f32_of_Z (peakVal o)) (f32_of_Z 1)) in
  let data0 := q_to_meters (rangeIdx o) scale (f32_of_Z (obj_x o)) in
  let data1 := q_to_meters (rangeIdx o) scale (f32_of_Z (obj_y o)) in
  let data2 := q_to_meters (rangeIdx o) scale (f32_of_Z (obj_z o)) in
  Ok (mkPoint data1 (f32_neg data0) data2 data3 data4 data5).

(** One pass of [while (i < mmwData.numObjOut)]. *)
Definition object_pass (buf : list byte) (s : Sorter) : result Sorter :=
  oc <- read_object buf (currentDatap s) ;;
  p <- convert_object (xyzQFormat s) (fst oc) ;;
  let cloud := RScan s in
  let pts := store_point (Z.to_nat (loop_i s)) p (points cloud) in
  let s1 :=
    set_RScan (set_cursor (set_objOut s (fst oc)) (snd oc))
              (mkCloud (frame_id cloud) (height cloud) (width cloud)
                       (is_dense cloud) pts) in
  if keep_point (maxElevationAngleRatioSquared s) (maxAzimuthAngleRatio s) p
  then Ok (set_loop_i s1 (loop_i s1 + 1))
  else Ok (set_numObjOut s1 (numObjOut s1 - 1)).

(** The loop itself; every pass brings [i] and [numObjOut] one closer, so
    [numObjOut - i] passes are enough ([object_loop_invariant] below). *)
Fixpoint object_loop (passes : nat) (buf : list byte) (s : Sorter)
  : result Sorter :=
  match passes with
  | O => Ok s
  | S n =>
      if loop_i s <? numObjOut s
      then s' <- object_pass buf s ;; object_loop n buf s'
      else Ok s
  end.

Definition read_obj_struct (buf : list byte) (s : Sorter)
  : result (Sorter * PointCloud) :=
  let c0 := currentDatap s in
  n <- memcpy_at 2 buf c0 ;;
  let c1 := u32_add c0 2 in
  q <- memcpy_at 2 buf c1 ;;
  let c2 := u32_add c1 2 in
  let cloud0 := mkCloud "base_radar_link" 1 n true
                        (resize_points (n * 1) (points (RScan s))) in
  let s1 :=
    set_ratios
      (set_RScan (set_cursor (set_obj_header (set_loop_i s 0) n q) c2)
                 cloud0)
      elevation_ratio_squared azimuth_ratio in
  s2 <- object_loop (Z.to_nat n) buf s1 ;;
  let w := numObjOut s2 in
  let cloud := mkCloud (frame_id (RScan s2)) (height (RScan s2)) w
                       (is_dense (RScan s2))
                       (resize_points (w * height (RScan s2))
                                      (points (RScan s2))) in
  (* ROS_INFO reads RScan->points[0] before the cloud is published *)
  match points cloud with
  | [] => Fault (Undefined IndexPastEnd)
  | _ :: _ => Ok (set_state (set_RScan s2 cloud) CHECK_TLV_TYPE, cloud)
  end.

(* ================================================================ *)
(** ** The state machine *)

Variable MMWDEMO_OUTPUT_MSG_MAX : Z.

(** One pass of [switch (sorterState)] for the states that parse; what is
    published in the pass comes with the new locals. *)
Definition sortIncomingData_pass (buf : list byte) (s : Sorter)
  : result (Sorter * list PointCloud) :=
  match sorterState s with
  | READ_HEADER => s' <- read_header buf s ;; Ok (s', [])
  | CHECK_TLV_TYPE =>
      s' <- check_tlv_type MMWDEMO_OUTPUT_MSG_MAX buf s ;; Ok (s', [])
  | READ_OBJ_STRUCT =>
      sc <- read_obj_struct buf s ;; Ok (fst sc, [snd sc])
  | READ_LOG_MAG_RANGE | READ_NOISE | READ_AZIMUTH | READ_DOPPLER
  | READ_STATS => s' <- skip_payload s ;; Ok (s', [])
  | SWAP_BUFFERS => Ok (s, [])
  end.

(** SWAP_BUFFERS once the Swap thread has handed over the next buffer. *)
Definition resume_after_swap (s : Sorter) : Sorter :=
  set_state (set_tlvCount (set_cursor s 0) 0) READ_HEADER.

Inductive run_status : Set :=
| AtSwap              (* the Sorter asked for the next buffer *)
| Crashed (f : fault) (* the thread left defined behaviour or threw *)
| Unfinished.         (* more passes are needed *)

(** The passes over one drain buffer, up to SWAP_BUFFERS. *)
Fixpoint sortIncomingData (passes : nat) (buf : list byte) (s : Sorter)
  : list PointCloud * run_status * Sorter :=
  match sorterState s with
  | SWAP_BUFFERS => ([], AtSwap, s)
  | _ =>
      match passes with
      | O => ([], Unfinished, s)
      | S n =>
          match sortIncomingData_pass buf s with
          | Fault f => ([], Crashed f, s)
          | Ok (s', out) =>
              let '(rest, st, s'') := sortIncomingData n buf s' in
              (out ++ rest, st, s'')
          end
      end
  end.

(** The Sorter over the buffers it is handed, one after the other. *)
Fixpoint sort_frames (passes : nat) (frames : list (list byte)) (s : Sorter)
  : list PointCloud * run_status :=
  match frames with
  | [] => ([], AtSwap)
  | buf :: rest =>
      let '(out, st, s') := sortIncomingData passes buf s in
      match st with
      | AtSwap =>
          let '(out', st') := sort_frames passes rest (resume_after_swap s') in
          (out ++ out', st')
      | _ => (out, st)
      end
  end.

End ObjStruct.

(* ================================================================== *)
(** ** Building frames *)

Definition byte_of_Z (z : Z) : byte :=
  match Byte.of_N (Z.to_N (z mod 256)) with
  | Some b => b
  | None => x00
  end.

(** [n] bytes of [v], least significant first. *)
Fixpoint le_bytes (n : nat) (v : Z) : list byte :=
  match n with
  | O => []
  | S m => byte_of_Z v :: le_bytes m (v / 256)
  end.

Definition u32le : Z -> list byte := le_bytes 4.
Definition u16le : Z -> list byte := le_bytes 2.

(** A header as it lies in the drain buffer; [with_sub] appends the
    [subFrameNumber] word. *)
Definition header_bytes (h : FrameHeader) (with_sub : bool) : list byte :=
  u32le (version h) ++ u32le (totalPacketLen h) ++ u32le (platform h)
  ++ u32le (frameNumber h) ++ u32le (timeCpuCycles h)
  ++ u32le (numDetectedObj h) ++ u32le (numTLVs h)
  ++ (if with_sub then u32le (subFrameNumber h) else []).

Definition tlv_bytes (ty : Z) (payload : list byte) : list byte :=
  u32le ty ++ u32le (vsize payload) ++ payload.

Definition object_bytes (o : DetectedObj) : list byte :=
  u16le (rangeIdx o) ++ u16le (dopplerIdx o) ++ u16le (peakVal o)
  ++ u16le (obj_x o) ++ u16le (obj_y o) ++ u16le (obj_z o).

Definition objects_payload (q : Z) (objs : list DetectedObj) : list byte :=
  u16le (Z.of_nat (List.length objs)) ++ u16le q
  ++ flat_map object_bytes objs.

(* ================================================================== *)
(** ** The Reader: [isMagicWord] and [readIncomingData] *)

Definition zero_window : list byte := repeat x00 8.

(** What the Reader hands to the Swap thread at a frame boundary: the
    fill buffer and the number of times it incremented [countSync]. *)
Record FrameReady : Set := mkReady {
  frame_bytes : list byte;
  sync_increments : Z
}.

(** Locals of [readIncomingData] and the buffer [nextBufp] points to. *)
Record ReaderLocals : Set := mkReader {
  last8Bytes : list byte;
  nextBuf : list byte;
  firstPacketReady : Z
}.

Definition initial_reader : ReaderLocals := mkReader zero_window [] 0.

Section ReaderModel.

(** [magicWord], the eight bytes declared in DataHandlerClass.h. *)
Variable magicWord : list byte.

(** Lines 245-253: [j], the number of positions that agree. *)
Definition matching_positions (window : list byte) : Z :=
  fold_left
    (fun j i =>
       if Byte.eqb (nth i window x00) (nth i magicWord x00)
       then j + 1 else j)
    (seq 0 8) 0.

Definition isMagicWord (window : list byte) : Z :=
  if matching_positions window =? 8 then 1 else 0.

(** Lines 165-172 and 182-189: the window moves down by one and
    [read(&last8Bytes[7], 1)] stores the byte that arrived; when the read
    times out nothing is stored and position 7 keeps its byte. *)
Definition advance (window : list byte) (arrived : option byte)
  : list byte :=
  let at_ i := nth i window x00 in
  [at_ 1%nat; at_ 2%nat; at_ 3%nat; at_ 4%nat; at_ 5%nat; at_ 6%nat;
   at_ 7%nat;
   match arrived with Some b => b | None => at_ 7%nat end].

(** Lines 162-174, [while (!isMagicWord(last8Bytes))]: the locals and the
    reads that are left once the magic word has been seen; [None] when the
    reads end first. *)
Fixpoint resync (r : ReaderLocals) (reads : list (option byte))
  : option (ReaderLocals * list (option byte)) :=
  if isMagicWord (last8Bytes r) =? 0 then
    match reads with
    | [] => None
    | ev :: rest =>
        resync (mkReader (advance (last8Bytes r) ev) (nextBuf r)
                         (firstPacketReady r))
               rest
    end
  else Some (r, reads).

(** Lines 179-232, the main loop; after the hand-over the (new) fill
    buffer is cleared and the window zeroed. *)
Fixpoint fill_loop (reads : list (option byte)) (r : ReaderLocals)
  : list FrameReady * ReaderLocals :=
  match reads with
  | [] => ([], r)
  | ev :: rest =>
      let w := advance (last8Bytes r) ev in
      let buf := nextBuf r ++ [nth 7 w x00] in
      if isMagicWord w =? 0 then
        fill_loop rest (mkReader w buf (firstPacketReady r))
      else
        let n := if firstPacketReady r =? 0 then 2 else 1 in
        let '(frames, r') := fill_loop rest (mkReader zero_window [] 1) in
        (mkReady buf n :: frames, r')
  end.

Definition readIncomingData (reads : list (option byte))
  : list FrameReady * option ReaderLocals :=
  match resync initial_reader reads with
  | None => ([], None)
  | Some (r, rest) =>
      let '(frames, r') := fill_loop rest r in
      (frames, Some r')
  end.

End ReaderModel.

(** The pipeline when the hand-shake works as intended: the buffers the
    Reader completes reach the Sorter one by one, in order. *)
Definition pipeline (magicWord : list byte) (cfg : RadarConfig)
    (tan_deg : Z -> f32) (ten_log10 : f32 -> f32) (msg_max : Z)
    (passes : nat) (reads : list (option byte))
  : list PointCloud * run_status :=
  sort_frames cfg tan_deg ten_log10 msg_max passes
              (map frame_bytes (fst (readIncomingData magicWord reads)))
              initial_sorter.

(* ================================================================== *)
(** ** The three threads and their hand-shake *)

(** Modelled from the spec: [COUNT_SYNC_MAX] of DataHandlerClass.h
    (section 4.3: the Swap thread waits until [countSync == 2]). *)
Definition COUNT_SYNC_MAX : Z := 2.

Inductive thread : Set := TReader | TSorter | TSwap.

(** Program points of [readIncomingData] (source lines in comments). *)
Inductive reader_pc : Set :=
| R_resync        (* 162-174 *)
| R_lock_next     (* 177   pthread_mutex_lock(&nextBufp_mutex) *)
| R_fill          (* 179-196, as long as no magic word is seen *)
| R_lock_count    (* 201   pthread_mutex_lock(&countSync_mutex) *)
| R_unlock_next   (* 202   pthread_mutex_unlock(&nextBufp_mutex) *)
| R_incr          (* 205   countSync++ *)
| R_first         (* 208-212 *)
| R_signal        (* 215-218 *)
| R_wait          (* 221   entering pthread_cond_wait(&read_go_cv, ..) *)
| R_blocked       (*       inside it, countSync_mutex released *)
| R_woken         (*       leaving it, countSync_mutex to be taken again *)
| R_unlock_count  (* 224 *)
| R_relock_next   (* 225 *)
| R_clear.        (* 227-228 *)

(** Program points of [sortIncomingData]. *)
Inductive sorter_pc : Set :=
| S0_lock         (* 314 *)
| S0_wait         (* 315   entering pthread_cond_wait(&sort_go_cv, ..) *)
| S0_blocked
| S0_woken
| S0_unlock       (* 316 *)
| S0_lock_cur     (* 318 *)
| S_run           (* 320-740, every state but SWAP_BUFFERS *)
| S_lock_count    (* 743 *)
| S_unlock_cur    (* 744 *)
| S_incr          (* 746 *)
| S_signal        (* 748-751 *)
| S_wait          (* 753 *)
| S_blocked
| S_woken
| S_unlock_count  (* 755 *)
| S_lock_cur      (* 756 *)
| S_reset.        (* 758-761 *)

(** Program points of [syncedBufferSwap]. *)
Inductive swap_pc : Set :=
| W_lock          (* 267 *)
| W_test          (* 269   while (countSync < COUNT_SYNC_MAX) *)
| W_wait          (* 271   entering pthread_cond_wait(&countSync_max_cv, ..) *)
| W_blocked
| W_woken
| W_lock_cur      (* 273 *)
| W_lock_next     (* 274 *)
| W_exchange      (* 276-280 *)
| W_unlock_cur    (* 282 *)
| W_unlock_next   (* 283 *)
| W_reset         (* 285   countSync = 0 *)
| W_signal_sort   (* 287 *)
| W_signal_read   (* 288 *)
| W_unlock.       (* 292 *)

(** The shared members of the handler and where each thread stands.
    [currentBufp] and [nextBufp] hold the index of the ping-pong buffer
    they point to. *)
Record World : Set := mkWorld {
  countSync : Z;
  first_packet : Z;                      (* firstPacketReady of the Reader *)
  countSync_mutex : option thread;
  nextBufp_mutex : option thread;
  currentBufp_mutex : option thread;
  currentBufp : Z;
  nextBufp : Z;
  rpc : reader_pc;
  spc : sorter_pc;
  wpc : swap_pc
}.

(** The constructor and [start()]: [currentBufp = &pingPongBuffers[0]],
    [nextBufp = &pingPongBuffers[1]], [countSync = 0], fresh mutexes. *)
Definition initial_world : World :=
  mkWorld 0 0 None None None 0 1 R_resync S0_lock W_lock.

Definition at_reader (w : World) (pc : reader_pc) : World :=
  mkWorld (countSync w) (first_packet w) (countSync_mutex w)
          (nextBufp_mutex w) (currentBufp_mutex w) (currentBufp w)
          (nextBufp w) pc (spc w) (wpc w).

Definition at_sorter (w : World) (pc : sorter_pc) : World :=
  mkWorld (countSync w) (first_packet w) (countSync_mutex w)
          (nextBufp_mutex w) (currentBufp_mutex w) (currentBufp w)
          (nextBufp w) (rpc w) pc (wpc w).

Definition at_swap (w : World) (pc : swap_pc) : World :=
  mkWorld (countSync w) (first_packet w) (countSync_mutex w)
          (nextBufp_mutex w) (currentBufp_mutex w) (currentBufp w)
          (nextBufp w) (rpc w) (spc w) pc.

Definition with_countSync (w : World) (n : Z) : World :=
  mkWorld n (first_packet w) (countSync_mutex w)
          (nextBufp_mutex w) (currentBufp_mutex w) (currentBufp w)
          (nextBufp w) (rpc w) (spc w) (wpc w).

Definition with_first_packet (w : World) (n : Z) : World :=
  mkWorld (countSync w) n (countSync_mutex w)
          (nextBufp_mutex w) (currentBufp_mutex w) (currentBufp w)
          (nextBufp w) (rpc w) (spc w) (wpc w).

Definition with_count_owner (w : World) (o : option thread) : World :=
  mkWorld (countSync w) (first_packet w) o
          (nextBufp_mutex w) (currentBufp_mutex w) (currentBufp w)
          (nextBufp w) (rpc w) (spc w) (wpc w).

Definition with_next_owner (w : World) (o : option thread) : World :=
  mkWorld (countSync w) (first_packet w) (countSync_mutex w)
          o (currentBufp_mutex w) (currentBufp w)
          (nextBufp w) (rpc w) (spc w) (wpc w).

Definition with_current_owner (w : World) (o : option thread) : World :=
  mkWorld (countSync w) (first_packet w) (countSync_mutex w)
          (nextBufp_mutex w) o (currentBufp w)
          (nextBufp w) (rpc w) (spc w) (wpc w).

Definition with_buffers (w : World) (cur next : Z) : World :=
  mkWorld (countSync w) (first_packet w) (countSync_mutex w)
          (nextBufp_mutex w) (currentBufp_mutex w) cur next
          (rpc w) (spc w) (wpc w).

Definition thread_eqb (a b : thread) : bool :=
  match a, b with
  | TReader, TReader | TSorter, TSorter | TSwap, TSwap => true
  | _, _ => false
  end.

(** [pthread_mutex_lock]: the caller goes on only when the mutex is free. *)
Definition lock (owner : option thread) (t : thread) : option (option thread) :=
  match owner with
  | None => Some (Some t)
  | Some _ => None
  end.

(** [pthread_mutex_unlock] by the thread that holds the mutex. *)
Definition unlock (owner : option thread) (t : thread)
  : option (option thread) :=
  match owner with
  | Some t' => if thread_eqb t t' then Some None else None
  | None => None
  end.

(** [pthread_cond_signal]: the thread waiting on the condition, if there
    is one, leaves its wait; otherwise the signal is lost. *)
Definition signal_countSync_max (w : World) : World :=
  match wpc w with
  | W_blocked => at_swap w W_woken
  | _ => w
  end.

Definition signal_read_go (w : World) : World :=
  match rpc w with
  | R_blocked => at_reader w R_woken
  | _ => w
  end.

Definition signal_sort_go (w : World) : World :=
  match spc w with
  | S0_blocked => at_sorter w S0_woken
  | S_blocked => at_sorter w S_woken
  | _ => w
  end.

Definition option_map_world {A : Type} (o : option A) (f : A -> World)
  : option World :=
  match o with
  | Some a => Some (f a)
  | None => None
  end.

Section Scheduling.

(** POSIX lets [pthread_cond_wait] return without a signal; with
    [spurious = false] a wait ends only when the condition is signalled. *)
Variable spurious : bool.

(** One step of the Reader; [seen] tells whether the byte just read
    completed a magic word. *)
Definition readIncomingData_step (seen : bool) (w : World) : option World :=
  match rpc w with
  | R_resync => Some (if seen then at_reader w R_lock_next else w)
  | R_lock_next =>
      option_map_world (lock (nextBufp_mutex w) TReader)
        (fun o => at_reader (with_next_owner w o) R_fill)
  | R_fill => Some (if seen then at_reader w R_lock_count else w)
  | R_lock_count =>
      option_map_world (lock (countSync_mutex w) TReader)
        (fun o => at_reader (with_count_owner w o) R_unlock_next)
  | R_unlock_next =>
      option_map_world (unlock (nextBufp_mutex w) TReader)
        (fun o => at_reader (with_next_owner w o) R_incr)
  | R_incr => Some (at_reader (with_countSync w (countSync w + 1)) R_first)
  | R_first =>
      Some (at_reader
              (if first_packet w =? 0
               then with_first_packet (with_countSync w (countSync w + 1)) 1
               else w)
              R_signal)
  | R_signal =>
      Some (at_reader
              (if countSync w =? COUNT_SYNC_MAX
               then signal_countSync_max w else w)
              R_wait)
  | R_wait =>
      option_map_world (unlock (countSync_mutex w) TReader)
        (fun o => at_reader (with_count_owner w o) R_blocked)
  | R_blocked => if spurious then Some (at_reader w R_woken) else None
  | R_woken =>
      option_map_world (lock (countSync_mutex w) TReader)
        (fun o => at_reader (with_count_owner w o) R_unlock_count)
  | R_unlock_count =>
      option_map_world (unlock (countSync_mutex w) TReader)
        (fun o => at_reader (with_count_owner w o) R_relock_next)
  | R_relock_next =>
      option_map_world (lock (nextBufp_mutex w) TReader)
        (fun o => at_reader (with_next_owner w o) R_clear)
  | R_clear => Some (at_reader w R_fill)
  end.

(** One step of the Sorter; [done] tells whether the state machine has
    reached SWAP_BUFFERS. *)
Definition sortIncomingData_step (done : bool) (w : World) : option World :=
  match spc w with
  | S0_lock =>
      option_map_world (lock (countSync_mutex w) TSorter)
        (fun o => at_sorter (with_count_owner w o) S0_wait)
  | S0_wait =>
      option_map_world (unlock (countSync_mutex w) TSorter)
        (fun o => at_sorter (with_count_owner w o) S0_blocked)
  | S0_blocked => if spurious then Some (at_sorter w S0_woken) else None
  | S0_woken =>
      option_map_world (lock (countSync_mutex w) TSorter)
        (fun o => at_sorter (with_count_owner w o) S0_unlock)
  | S0_unlock =>
      option_map_world (unlock (countSync_mutex w) TSorter)
        (fun o => at_sorter (with_count_owner w o) S0_lock_cur)
  | S0_lock_cur =>
      option_map_world (lock (currentBufp_mutex w) TSorter)
        (fun o => at_sorter (with_current_owner w o) S_run)
  | S_run => Some (if done then at_sorter w S_lock_count else w)
  | S_lock_count =>
      option_map_world (lock (countSync_mutex w) TSorter)
        (fun o => at_sorter (with_count_owner w o) S_unlock_cur)
  | S_unlock_cur =>
      option_map_world (unlock (currentBufp_mutex w) TSorter)
        (fun o => at_sorter (with_current_owner w o) S_incr)
  | S_incr => Some (at_sorter (with_countSync w (countSync w + 1)) S_signal)
  | S_signal =>
      Some (at_sorter
              (if countSync w =? COUNT_SYNC_MAX
               then signal_countSync_max w else w)
              S_wait)
  | S_wait =>
      option_map_world (unlock (countSync_mutex w) TSorter)
        (fun o => at_sorter (with_count_owner w o) S_blocked)
  | S_blocked => if spurious then Some (at_sorter w S_woken) else None
  | S_woken =>
      option_map_world (lock (countSync_mutex w) TSorter)
        (fun o => at_sorter (with_count_owner w o) S_unlock_count)
  | S_unlock_count =>
      option_map_world (unlock (countSync_mutex w) TSorter)
        (fun o => at_sorter (with_count_owner w o) S_lock_cur)
  | S_lock_cur =>
      option_map_world (lock (currentBufp_mutex w) TSorter)
        (fun o => at_sorter (with_current_owner w o) S_reset)
  | S_reset => Some (at_sorter w S_run)
  end.

(** One step of the Swap thread. *)
Definition syncedBufferSwap_step (w : World) : option World :=
  match wpc w with
  | W_lock =>
      option_map_world (lock (countSync_mutex w) TSwap)
        (fun o => at_swap (with_count_owner w o) W_test)
  | W_test =>
      Some (at_swap w (if countSync w <? COUNT_SYNC_MAX
                       then W_wait else W_unlock))
  | W_wait =>
      option_map_world (unlock (countSync_mutex w) TSwap)
        (fun o => at_swap (with_count_owner w o) W_blocked)
  | W_blocked => if spurious then Some (at_swap w W_woken) else None
  | W_woken =>
      option_map_world (lock (countSync_mutex w) TSwap)
        (fun o => at_swap (with_count_owner w o) W_lock_cur)
  | W_lock_cur =>
      option_map_world (lock (currentBufp_mutex w) TSwap)
        (fun o => at_swap (with_current_owner w o) W_lock_next)
  | W_lock_next =>
      option_map_world (lock (nextBufp_mutex w) TSwap)
        (fun o => at_swap (with_next_owner w o) W_exchange)
  | W_exchange =>
      Some (at_swap (with_buffers w (nextBufp w) (currentBufp w))
                    W_unlock_cur)
  | W_unlock_cur =>
      option_map_world (unlock (currentBufp_mutex w) TSwap)
        (fun o => at_swap (with_current_owner w o) W_unlock_next)
  | W_unlock_next =>
      option_map_world (unlock (nextBufp_mutex w) TSwap)
        (fun o => at_swap (with_next_owner w o) W_reset)
  | W_reset => Some (at_swap (with_countSync w 0) W_signal_sort)
  | W_signal_sort => Some (at_swap (signal_sort_go w) W_signal_read)
  | W_signal_read => Some (at_swap (signal_read_go w) W_test)
  | W_unlock =>
      option_map_world (unlock (countSync_mutex w) TSwap)
        (fun o => at_swap (with_count_owner w o) W_lock)
  end.

(** A step of the program: the scheduler picks a thread, the data picks
    the branch; [None] when the thread cannot move. *)
Definition thread_step (t : thread) (branch : bool) (w : World)
  : option World :=
  match t with
  | TReader => readIncomingData_step branch w
  | TSorter => sortIncomingData_step branch w
  | TSwap => syncedBufferSwap_step w
  end.

Inductive reachable : World -> Prop :=
| reach_start : reachable initial_world
| reach_step (w w' : World) (t : thread) (branch : bool) :
    reachable w -> thread_step t branch w = Some w' -> reachable w'.

(** Running a schedule from a world; a pick that cannot move ends it. *)
Fixpoint run_schedule (sched : list (thread * bool)) (w : World)
  : option World :=
  match sched with
  | [] => Some w
  | (t, b) :: rest =>
      match thread_step t b w with
      | Some w' => run_schedule rest w'
      | None => None
      end
  end.

End Scheduling.

(* ================================================================== *)
(** ** Exploring the hand-shake *)

Definition thread_eq_dec (a b : thread) : {a = b} + {a <> b}.
Proof. decide equality. Defined.

Definition reader_pc_eq_dec (a b : reader_pc) : {a = b} + {a <> b}.
Proof. decide equality. Defined.

Definition sorter_pc_eq_dec (a b : sorter_pc) : {a = b} + {a <> b}.
Proof. decide equality. Defined.

Definition swap_pc_eq_dec (a b : swap_pc) : {a = b} + {a <> b}.
Proof. decide equality. Defined.

Definition owner_eq_dec (a b : option thread) : {a = b} + {a <> b}.
Proof. decide equality. apply thread_eq_dec. Defined.

Definition World_eq_dec (a b : World) : {a = b} + {a <> b}.
Proof.
  decide equality;
    auto using Z.eq_dec, owner_eq_dec, reader_pc_eq_dec, sorter_pc_eq_dec,
      swap_pc_eq_dec.
Defined.

Definition world_mem (w : World) (l : list World) : bool :=
  existsb (fun v => if World_eq_dec w v then true else false) l.

(** Every pick the scheduler and the data can make. *)
Definition all_moves : list (thread * bool) :=
  [(TReader, true); (TReader, false); (TSorter, true); (TSorter, false);
   (TSwap, true); (TSwap, false)].

(** The worlds one step away when waits end only on a signal. *)
Definition successors (w : World) : list World :=
  flat_map
    (fun m =>
       match thread_step false (fst m) (snd m) w with
       | Some w' => [w']
       | None => []
       end)
    all_moves.

Fixpoint add_new (ws seen : list World) : list World * list World :=
  match ws with
  | [] => ([], seen)
  | w :: rest =>
      if world_mem w seen then add_new rest seen
      else let '(fresh, seen') := add_new rest (w :: seen) in
           (w :: fresh, seen')
  end.

(** Breadth-first exploration, [rounds] layers deep. *)
Fixpoint explore (rounds : nat) (frontier seen : list World) : list World :=
  match rounds with
  | O => seen
  | S n =>
      match frontier with
      | [] => seen
      | _ =>
          let '(fresh, seen') := add_new (flat_map successors frontier) seen in
          explore n fresh seen'
      end
  end.

(** The worlds found from the initial one; [signalled_worlds_closed] below
    shows that no step leads out of them. *)
Definition signalled_worlds : list World :=
  Eval vm_compute in explore 200 [initial_world] [initial_world].

Definition count_in_range (w : World) : bool :=
  (0 <=? countSync w) && (countSync w <=? COUNT_SYNC_MAX).

Definition workers_cannot_move (w : World) : bool :=
  match thread_step false TReader true w, thread_step false TReader false w,
        thread_step false TSorter true w, thread_step false TSorter false w
  with
  | None, None, None, None => true
  | _, _, _, _ => false
  end.

Definition sort_go_waiter (w : World) : bool :=
  match spc w with
  | S0_blocked | S_blocked => true
  | _ => false
  end.

Definition read_go_waiter (w : World) : bool :=
  match rpc w with
  | R_blocked => true
  | _ => false
  end.

(** The Swap thread on its own for [n] steps, no other thread being able
    to move before any of them. *)
Fixpoint swap_alone (n : nat) (w : World) : option World :=
  match n with
  | O => Some w
  | S m =>
      if workers_cannot_move w then
        match thread_step false TSwap true w with
        | Some w' => swap_alone m w'
        | None => None
        end
      else None
  end.

(** What follows an exchange: the two unlocks and the reset, after which
    [countSync] is 0 and the pointers have changed places; then the signal
    on [sort_go_cv] and the one on [read_go_cv], after each of which nobody
    is left waiting on that condition. *)
Definition exchange_then_reset_and_signals (w : World) : bool :=
  match swap_alone 4 w with
  | Some w4 =>
      (countSync w4 =? 0)
      && (currentBufp w4 =? nextBufp w) && (nextBufp w4 =? currentBufp w)
      && (if swap_pc_eq_dec (wpc w4) W_signal_sort then true else false)
      && match swap_alone 1 w4 with
         | Some w5 =>
             negb (sort_go_waiter w5)
             && (if swap_pc_eq_dec (wpc w5) W_signal_read then true else false)
             && match swap_alone 1 w5 with
                | Some w6 =>
                    negb (read_go_waiter w6) && (countSync w6 =? 0)
                    && (if swap_pc_eq_dec (wpc w6) W_test then true else false)
                | None => false
                end
         | None => false
         end
  | None => false
  end.

(** The claim on one world. *)
Definition handshake_ok (w : World) : bool :=
  count_in_range w
  && (if swap_pc_eq_dec (wpc w) W_exchange
      then (countSync w =? COUNT_SYNC_MAX) && exchange_then_reset_and_signals w
      else true).

(** The Swap thread from its first statement to the exchange, with the
    wait on [countSync_max_cv] returning unsignalled. *)
Definition early_exchange_schedule : list (thread * bool) :=
  repeat (TSwap, true) 7.

(** The Reader over two frame boundaries, with its wait on [read_go_cv]
    returning unsignalled, up to its second increment. *)
Definition double_count_schedule : list (thread * bool) :=
  repeat (TReader, true) 18.

(** The first exchange when every wait ends on its signal: the Swap thread
    goes to sleep, the Reader finds its first frame boundary, counts twice,
    signals and sleeps, the Swap thread takes the two buffer locks. *)
Definition first_exchange_schedule : list (thread * bool) :=
  repeat (TSwap, true) 3 ++ repeat (TReader, true) 9
  ++ repeat (TSwap, true) 3.

(* ================================================================== *)
(** ** What the specification asks of the coordinate conversion *)

(** Section 4.2 step 5 in the specification's words:
    [coordinate_meters = signed16(rawQ) / 2^xyzQFormat]. *)
Definition spec_q_to_meters (raw q : Z) : f32 :=
  f32_div (f32_of_Z (int16 raw)) (f32_of_Z (2 ^ q)).

(** The header words as they lie at the start of a drain buffer. *)
Definition frame_version (buf : list byte) : Z :=
  le_value (firstn 4 buf).
Definition frame_totalPacketLen (buf : list byte) : Z :=
  le_value (firstn 4 (skipn 4 buf)).
Definition frame_platform (buf : list byte) : Z :=
  le_value (firstn 4 (skipn 8 buf)).
Definition frame_headerSize (buf : list byte) : Z :=
  expected_headerSize (frame_version buf) (frame_platform buf).

(** The header bytes READ_HEADER copies when nothing stops it: the
    seven words, and [subFrameNumber] unless the platform is 0x1443. *)
Definition header_bytes_read (buf : list byte) : Z :=
  if platform_low16 (frame_platform buf) =? 5187 then 28 else 32.

Fixpoint bytes_eqb (a b : list byte) : bool :=
  match a, b with
  | [], [] => true
  | x :: a', y :: b' => Byte.eqb x y && bytes_eqb a' b'
  | _, _ => false
  end.

(** [magic_word_first mw garbage]: in [garbage ++ mw] the magic word does
    not start at any position inside [garbage], so the one that follows
    the garbage is the first of the stream. *)
Definition magic_word_first (mw garbage : list byte) : bool :=
  forallb
    (fun k => negb (bytes_eqb (firstn 8 (skipn k (garbage ++ mw))) mw))
    (seq 0 (List.length garbage)).

(* ================================================================== *)
(** ** Concrete instances used in the examples *)

(** The magic word of the TI demo firmware: 0x0102 0x0304 0x0506 0x0708,
    each 16-bit word least significant byte first. *)
Definition ti_magicWord : list byte := [x02; x01; x04; x03; x06; x05; x08; x07].

(** A coarse stand-in for [tan] on whole degrees; exact at 0 and 45. *)
Definition demo_tan (d : Z) : f32 :=
  if d <=? 0 then f32_of_Z 0
  else if d <? 45 then f32_div (f32_of_Z 1) (f32_of_Z 2)
  else if d =? 45 then f32_of_Z 1
  else f32_of_Z 2.

(** A stand-in for [10 * log10]; exact at 1 and 100. *)
Definition demo_ten_log10 (v : f32) : f32 :=
  if f32_eq v (f32_of_Z 100) then f32_of_Z 20 else f32_of_Z 0.

(** rangeIdxToMeters = 0.05, sixteen Doppler bins, no angle limit. *)
Definition demo_cfg : RadarConfig :=
  mkConfig 256 16 (f32_div (f32_of_Z 1) (f32_of_Z 20)) (f32_of_Z 1) 90 90.

(** The same radar with both angle limits at 45 degrees. *)
Definition demo_cfg_45 : RadarConfig :=
  mkConfig 256 16 (f32_div (f32_of_Z 1) (f32_of_Z 20)) (f32_of_Z 1) 45 45.

Definition demo_msg_max : Z := 7.

(** SDK 1.1 on an xWR1443 (28-byte header) and on an xWR1642 (32 bytes);
    SDK 1.0 on an xWR1642. *)
Definition version_1_1 : Z := 16842752.  (* 0x01010000 *)
Definition version_1_0 : Z := 16777216.  (* 0x01000000 *)
Definition platform_1443 : Z := 660547.  (* 0x000A1443 *)
Definition platform_1642 : Z := 661058.  (* 0x000A1642 *)

(** A drain buffer: header, TLVs and the eight bytes of the next magic
    word the Reader leaves at the end; [totalPacketLen] is chosen so that
    the length check passes. *)
Definition drain_buffer (ver plat ndet ntlv : Z) (with_sub : bool)
    (tlvs : list byte) : list byte :=
  let hlen := if with_sub then 32 else 28 in
  header_bytes
    (mkHeader ver (hlen + vsize tlvs + 8 - 4) plat 1 0 ndet ntlv 0) with_sub
  ++ tlvs ++ ti_magicWord.

(** Scenario 2 of the specification: one object, xyzQFormat = 8. *)
Definition one_object : DetectedObj := mkObj 10 0 99 0 256 0.

Definition single_point_frame : list byte :=
  drain_buffer version_1_1 platform_1443 1 1 false
               (tlv_bytes 1 (objects_payload 8 [one_object])).

(** The same TLV under a header that announces no detected object. *)
Definition undeclared_point_frame : list byte :=
  drain_buffer version_1_1 platform_1443 0 1 false
               (tlv_bytes 1 (objects_payload 8 [one_object])).

(** A detected-objects TLV without objects. *)
Definition no_object_frame : list byte :=
  drain_buffer version_1_1 platform_1443 0 1 false
               (tlv_bytes 1 (objects_payload 8 [])).

(** One object that lies at the origin, which the filter drops. *)
Definition origin_object_frame : list byte :=
  drain_buffer version_1_1 platform_1443 1 1 false
               (tlv_bytes 1 (objects_payload 8 [mkObj 0 0 99 0 0 0])).

(** A header that announces one TLV, with nothing behind it but the
    length the header states. *)
Definition missing_tlv_frame : list byte :=
  header_bytes (mkHeader version_1_1 24 platform_1443 1 0 0 1 0) false.

(** A detected-objects TLV that announces two objects and carries one. *)
Definition truncated_objects_frame : list byte :=
  let tlv := u32le 1 ++ u32le 28 ++ u16le 2 ++ u16le 8
             ++ object_bytes one_object in
  header_bytes
    (mkHeader version_1_1 (28 + vsize tlv - 4) platform_1443 1 0 2 1 0) false
  ++ tlv.

(** A range-profile TLV whose length word points far behind the buffer,
    with a second TLV announced. *)
Definition oversized_tlv_frame : list byte :=
  let tlv := u32le 2 ++ u32le 1000 ++ u32le 0 in
  header_bytes
    (mkHeader version_1_1 (28 + vsize tlv - 4) platform_1443 1 0 0 2 0) false
  ++ tlv.

(** A TLV of a type the [switch] does not name. *)
Definition unknown_tlv_frame : list byte :=
  drain_buffer version_1_1 platform_1443 0 1 false (tlv_bytes 8 []).

(** SDK 1.0 on an xWR1642: 28 header bytes, then the TLV of scenario 2. *)
Definition old_sdk_frame : list byte :=
  drain_buffer version_1_0 platform_1642 1 1 false
               (tlv_bytes 1 (objects_payload 8 [one_object])).

(** Twelve bytes whose second word is the buffer size minus four. *)
Definition short_frame : list byte :=
  u32le version_1_1 ++ u32le 8 ++ u32le platform_1443.

(** Scenario 5: the frame of scenario 2 with a length word that is one
    too large. *)
Definition wrong_length_frame : list byte :=
  header_bytes (mkHeader version_1_1 (vsize single_point_frame - 4 + 1)
                         platform_1443 1 0 1 1 0) false
  ++ tlv_bytes 1 (objects_payload 8 [one_object]) ++ ti_magicWord.

(** The Sorter of the examples on one drain buffer, from its first pass. *)
Definition demo_run (passes : nat) (buf : list byte)
  : list PointCloud * run_status * Sorter :=
  sortIncomingData demo_cfg demo_tan demo_ten_log10 demo_msg_max passes buf
           initial_sorter.

Definition demo_clouds (passes : nat) (buf : list byte) : list PointCloud :=
  fst (fst (demo_run passes buf)).

Definition demo_status (passes : nat) (buf : list byte) : run_status :=
  snd (fst (demo_run passes buf)).

Definition demo_state (passes : nat) (buf : list byte) : Sorter :=
  snd (demo_run passes buf).

(* ================================================================== *)
(** ** Predicates the properties are stated with *)

(** The TLV types the specification names: 0 to 6. *)
Definition named_tlv_type (ty : Z) : bool := (0 <=? ty) && (ty <=? 6).

Definition reaches_swap (st : run_status) : bool :=
  match st with
  | AtSwap => true
  | _ => false
  end.

(** The filter in the words of the specification (section 4.2 step 7):
    [x] is not zero; with the elevation limit enabled,
    [z^2 / (x^2 + y^2) < tan(maxElev)^2]; with the azimuth limit enabled,
    [|y / x| < tan(maxAz)]; all in single precision. *)
Definition point_passes_filter (cfg : RadarConfig) (tan_deg : Z -> f32)
    (p : RadarPoint) : Prop :=
  f32_ne (pt_x p) (f32_of_Z 0) = true
  /\ (elevation_enabled cfg = true ->
      f32_lt (f32_div (f32_mul (pt_z p) (pt_z p))
                      (f32_add (f32_mul (pt_x p) (pt_x p))
                               (f32_mul (pt_y p) (pt_y p))))
             (f32_mul (tan_deg (maxAllowedElevationAngleDeg cfg))
                      (tan_deg (maxAllowedElevationAngleDeg cfg)))
      = true)
  /\ (azimuth_enabled cfg = true ->
      f32_lt (f32_abs (f32_div (pt_y p) (pt_x p)))
             (tan_deg (maxAllowedAzimuthAngleDeg cfg))
      = true).

(** What holds of the Sorter's locals at the head of the loop over the
    detected objects: the ratios are the ones computed before the loop,
    the cloud is one row high, [i] and [numObjOut] are indices of it, and
    the points below [i] have been kept. *)
Definition loop_invariant (e a : f32) (s : Sorter) : Prop :=
  maxElevationAngleRatioSquared s = e
  /\ maxAzimuthAngleRatio s = a
  /\ height (RScan s) = 1
  /\ 0 <= loop_i s <= numObjOut s
  /\ numObjOut s <= Z.of_nat (List.length (points (RScan s)))
  /\ Forall (fun p => keep_point e a p = true)
            (firstn (Z.to_nat (loop_i s)) (points (RScan s))).

(** The window after the Reader has consumed [consumed] without a
    time-out, starting from the zeroed window: the last eight bytes of the
    zeros followed by what was consumed. *)
Definition window_of (consumed : list byte) : list byte :=
  skipn (List.length consumed) (zero_window ++ consumed).

(** [ends_with suffix l]: the list [l] ends with [suffix]. *)
Definition ends_with (suffix l : list byte) : Prop :=
  exists front, l = front ++ suffix.

(** The window and the fill buffer go together: the window is what the
    last eight pushes onto the (cleared) buffer have left in it. *)
Definition window_tracks_buffer (r : ReaderLocals) : Prop :=
  last8Bytes r = window_of (nextBuf r).

(* ================================================================== *)
(** ** The two buffers and their locks *)

(** The program points at which a thread works on a buffer: the Reader
    between its locks and unlocks of [nextBufp_mutex] (lines 177-202 and
    225-228), the Sorter between those of [currentBufp_mutex] (lines 318,
    743-761), the Swap thread from its locks to its unlocks (lines
    273-283). *)
Definition reader_uses_buffer (pc : reader_pc) : bool :=
  match pc with
  | R_fill | R_lock_count | R_unlock_next | R_clear => true
  | _ => false
  end.

Definition sorter_uses_buffer (pc : sorter_pc) : bool :=
  match pc with
  | S_run | S_lock_count | S_unlock_cur | S_reset => true
  | _ => false
  end.

Definition swap_holds_current (pc : swap_pc) : bool :=
  match pc with
  | W_lock_next | W_exchange | W_unlock_cur => true
  | _ => false
  end.

Definition swap_holds_next (pc : swap_pc) : bool :=
  match pc with
  | W_exchange | W_unlock_cur | W_unlock_next => true
  | _ => false
  end.

Definition lock_holder (worker swap : bool) (t : thread) : option thread :=
  if worker then Some t else if swap then Some TSwap else None.

(** The owner of each buffer mutex is told by the program points, and the
    worker and the Swap thread are never both at points that need it. *)
Definition buffer_locks_agree (w : World) : Prop :=
  nextBufp_mutex w
  = lock_holder (reader_uses_buffer (rpc w)) (swap_holds_next (wpc w)) TReader
  /\ reader_uses_buffer (rpc w) && swap_holds_next (wpc w) = false
  /\ currentBufp_mutex w
     = lock_holder (sorter_uses_buffer (spc w)) (swap_holds_current (wpc w))
                   TSorter
  /\ sorter_uses_buffer (spc w) && swap_holds_current (wpc w) = false.

(** The two pointers name the two buffers, one each. *)
Definition pointers_distinct (w : World) : Prop :=
  (currentBufp w = 0 /\ nextBufp w = 1) \/ (currentBufp w = 1 /\ nextBufp w = 0).

Definition buffers_invariant (w : World) : Prop :=
  buffer_locks_agree w /\ pointers_distinct w.

(** [countSync] has reached [COUNT_SYNC_MAX] while the Swap thread is
    outside its inner loop (lines 267, 269 and 292). *)
Definition stalled (w : World) : bool :=
  (COUNT_SYNC_MAX <=? countSync w)
  && match wpc w with
     | W_lock | W_test | W_unlock => true
     | _ => false
     end.

(** The Reader completes its first frame and counts twice before the Swap
    thread has taken its first step. *)
Definition stalled_schedule : list (thread * bool) := repeat (TReader, true) 7.

Definition stalled_world : World :=
  mkWorld 2 1 (Some TReader) None None 0 1 R_signal S0_lock W_lock.

(** From [stalled_world]: the Reader goes to sleep on [read_go_cv], the
    Swap thread goes once around its outer loop, the Sorter goes to sleep
    on [sort_go_cv]. *)
Definition stalled_later_schedule : list (thread * bool) :=
  [(TReader, true); (TReader, true); (TSwap, true); (TSwap, true);
   (TSwap, true); (TSorter, true); (TSorter, true)].

Definition stalled_later_world : World :=
  mkWorld 2 1 None None None 0 1 R_blocked S0_blocked W_lock.

(* ================================================================== *)
(** ** All three threads blocked *)

(** No thread can take a step, waits ending only on their signal. *)
Definition nobody_can_move (w : World) : bool :=
  match successors w with
  | [] => true
  | _ :: _ => false
  end.

(** The first exchange with the Sorter not yet in its first wait (line
    315): the Swap thread signals [sort_go_cv] to nobody and goes back to
    sleep, the Reader counts its second frame and sleeps, and only then
    the Sorter reaches its wait. *)
Definition missed_signal_schedule : list (thread * bool) :=
  first_exchange_schedule ++ repeat (TSwap, true) 8
  ++ repeat (TReader, true) 11 ++ repeat (TSorter, true) 2.

Definition missed_signal_world : World :=
  mkWorld 1 1 None None None 1 0 R_blocked S0_blocked W_blocked.

(* ================================================================== *)
(** ** Frames the Sorter parses to their end *)

(** The cursor stands at [c], inside the buffer or at its end, and [rest]
    is what lies in front of it. *)
Definition cursor_at (buf : list byte) (c : Z) (rest : list byte) : Prop :=
  0 <= c <= vsize buf /\ skipn (Z.to_nat c) buf = rest.

Definition u32_range (v : Z) : bool := (0 <=? v) && (v <? 2 ^ 32).

Definition int16_range (v : Z) : bool := (-32768 <=? v) && (v <? 32768).

(** The header words are values of [uint32_t]. *)
Definition header_in_range (h : FrameHeader) : bool :=
  u32_range (version h) && u32_range (totalPacketLen h)
  && u32_range (platform h) && u32_range (frameNumber h)
  && u32_range (timeCpuCycles h) && u32_range (numDetectedObj h)
  && u32_range (numTLVs h) && u32_range (subFrameNumber h).

(** Line 384: the Sorter reads [subFrameNumber] unless the platform is
    0x1443. *)
Definition has_subFrameNumber (h : FrameHeader) : bool :=
  negb (platform_low16 (platform h) =? 5187).

(** [mmwData.header] after READ_HEADER; without the word in the buffer
    [subFrameNumber] keeps the value it had. *)
Definition decoded_header (h previous : FrameHeader) : FrameHeader :=
  mkHeader (version h) (totalPacketLen h) (platform h) (frameNumber h)
           (timeCpuCycles h) (numDetectedObj h) (numTLVs h)
           (if has_subFrameNumber h then subFrameNumber h
            else subFrameNumber previous).

(** The six words of a record are values of [int16_t]. *)
Definition obj_in_range (o : DetectedObj) : bool :=
  int16_range (rangeIdx o) && int16_range (dopplerIdx o)
  && int16_range (peakVal o) && int16_range (obj_x o)
  && int16_range (obj_y o) && int16_range (obj_z o).

(** The records converted one by one with [convert_object], and of the
    points those that [keep_point] keeps, in the order of the records. *)
Definition kept_points (cfg : RadarConfig) (ten_log10 : f32 -> f32)
    (e a : f32) (q : Z) (objs : list DetectedObj) : list RadarPoint :=
  flat_map
    (fun o =>
       match convert_object cfg ten_log10 q o with
       | Ok p => if keep_point e a p then [p] else []
       | Fault _ => []
       end)
    objs.

(** The cloud as lines 414-418 and 570-571 leave it around the points
    that were kept. *)
Definition published_cloud (pts : list RadarPoint) : PointCloud :=
  mkCloud "base_radar_link" 1 (Z.of_nat (List.length pts)) true pts.

(** The TLVs of a frame the driver steps through: one of the five types
    whose payload it skips, or detected objects. *)
Inductive Tlv : Set :=
| SkippedTlv (ty : Z) (payload : list byte)
| DetectedTlv (q : Z) (objs : list DetectedObj).

Definition tlv_encode (t : Tlv) : list byte :=
  match t with
  | SkippedTlv ty payload => tlv_bytes ty payload
  | DetectedTlv q objs =>
      tlv_bytes MMWDEMO_OUTPUT_MSG_DETECTED_POINTS (objects_payload q objs)
  end.

(** A drain buffer: the header, with [subFrameNumber] where the Sorter
    reads one, the TLVs, and what follows them (padding, and the magic
    word of the next frame, which the Reader leaves at the end). *)
Definition frame_of (h : FrameHeader) (tlvs : list Tlv) (trailer : list byte)
  : list byte :=
  header_bytes h (has_subFrameNumber h) ++ flat_map tlv_encode tlvs ++ trailer.

(** The locals as lines 305-307 and 758-761 leave them. *)
Definition at_frame_start (s : Sorter) : Prop :=
  sorterState s = READ_HEADER /\ currentDatap s = 0 /\ tlvCount s = 0.

Section WellFormedFrames.

Variable cfg : RadarConfig.
Variable tan_deg : Z -> f32.
Variable ten_log10 : f32 -> f32.

Definition expected_points (q : Z) (objs : list DetectedObj)
  : list RadarPoint :=
  kept_points cfg ten_log10 (elevation_ratio_squared cfg tan_deg)
              (azimuth_ratio cfg tan_deg) q objs.

(** A skipped payload has one of the types 2 to 6 and between 1 and
    2^31 - 1 bytes; a detected-objects payload has a Q format of at most
    30, fewer than 65536 records, and at least one point that is kept. *)
Definition tlv_well_formed (t : Tlv) : bool :=
  match t with
  | SkippedTlv ty payload =>
      (MMWDEMO_OUTPUT_MSG_RANGE_PROFILE <=? ty)
      && (ty <=? MMWDEMO_OUTPUT_MSG_STATS)
      && (1 <=? vsize payload) && (vsize payload <=? 2 ^ 31 - 1)
  | DetectedTlv q objs =>
      (0 <=? q) && (q <=? 30)
      && (Z.of_nat (List.length objs) <? 65536)
      && forallb obj_in_range objs
      && match expected_points q objs with
         | [] => false
         | _ :: _ => true
         end
  end.

(** The header announces the TLVs that follow it, and its length word is
    the one line 391 asks for. *)
Definition frame_well_formed (h : FrameHeader) (tlvs : list Tlv)
    (trailer : list byte) : bool :=
  header_in_range h
  && (numTLVs h =? Z.of_nat (List.length tlvs))
  && (totalPacketLen h =? vsize (frame_of h tlvs trailer) - 4)
  && (vsize (frame_of h tlvs trailer) <? 2 ^ 32)
  && forallb tlv_well_formed tlvs.

Definition tlv_clouds (t : Tlv) : list PointCloud :=
  match t with
  | SkippedTlv _ _ => []
  | DetectedTlv q objs => [published_cloud (expected_points q objs)]
  end.

End WellFormedFrames.

(** A range profile of three bytes, then two detected objects of which
    the second lies at the origin and is dropped; SDK 1.1 on an xWR1642. *)
Definition mixed_tlvs : list Tlv :=
  [SkippedTlv MMWDEMO_OUTPUT_MSG_RANGE_PROFILE [x01; x02; x03];
   DetectedTlv 8 [one_object; mkObj 0 0 99 0 0 0]].

Definition mixed_header : FrameHeader :=
  mkHeader version_1_1 83 platform_1642 1 0 2 2 7.

(** A statistics TLV in front of one detected object; SDK 1.1 on an
    xWR1443. *)
Definition stats_tlvs : list Tlv :=
  [SkippedTlv MMWDEMO_OUTPUT_MSG_STATS [x00; x00; x00; x00];
   DetectedTlv 8 [one_object]].

Definition stats_header : FrameHeader :=
  mkHeader version_1_1 68 platform_1443 2 0 1 2 0.

(* ================================================================== *)
(** ** How long the Sorter stays on one buffer *)

(** A bound on the passes the state machine still makes over the drain
    buffer: twice the bytes in front of the cursor, and one or two more. *)
Definition passes_left (buf : list byte) (s : Sorter) : nat :=
  (2 * Z.to_nat (vsize buf - currentDatap s)
   + match sorterState s with
     | SWAP_BUFFERS => 0
     | CHECK_TLV_TYPE => 1
     | _ => 2
     end)%nat.

(** The cursor has not left the buffer, except that a skipped payload may
    have carried it behind the end on the way to CHECK_TLV_TYPE. *)
Definition cursor_in_buffer (buf : list byte) (s : Sorter) : Prop :=
  0 <= currentDatap s
  /\ (sorterState s = CHECK_TLV_TYPE \/ sorterState s = SWAP_BUFFERS
      \/ currentDatap s <= vsize buf).

(* ================================================================== *)
(** ** From the serial port to the clouds *)

(** [body] does not let the magic word be seen early: in
    [magicWord ++ body ++ magicWord] the magic word starts at the first
    position, at the position behind [body], and nowhere in between. *)
Definition magic_word_only_at_ends (mw body : list byte) : bool :=
  magic_word_first mw (tl mw ++ body).

(** The byte stream of a run: garbage, the first magic word, and the
    frames, each followed by the magic word of the next. *)
Definition stream_of (mw garbage : list byte) (bodies : list (list byte))
  : list byte :=
  garbage ++ mw ++ flat_map (fun body => body ++ mw) bodies.

(** A frame of each platform, without padding. *)
Definition two_frames : list (FrameHeader * list Tlv * list byte) :=
  [(mixed_header, mixed_tlvs, []); (stats_header, stats_tlvs, [])].

(* ================================================================== *)
(** ** Angle limits that are switched off *)

(** A limit the tests of lines 421 and 430 do not accept. *)
Definition limit_off (deg : Z) : bool := (deg <? 0) || (90 <=? deg).

(* ================================================================== *)
(** * Properties *)

(** ** Basic facts about buffers and the run loop *)

Lemma memcpy_at_ok (n : nat) (buf : list byte) (pos : Z) :
  0 <= pos -> (0 < n)%nat -> pos + Z.of_nat n <= vsize buf ->
  memcpy_at n buf pos = Ok (le_value (firstn n (skipn (Z.to_nat pos) buf))).
Proof.
  intros Hpos Hn Hfit. unfold memcpy_at.
  destruct (pos <? vsize buf) eqn:Hlt.
  - destruct (pos + Z.of_nat n <=? vsize buf) eqn:Hle; [reflexivity | lia].
  - apply Z.ltb_ge in Hlt. lia.
Qed.

Lemma memcpy_at_out_of_range (n : nat) (buf : list byte) (pos : Z) :
  vsize buf <= pos -> memcpy_at n buf pos = Fault OutOfRange.
Proof.
  intros H. unfold memcpy_at.
  destruct (pos <? vsize buf) eqn:Hlt; [lia | reflexivity].
Qed.

Lemma expected_headerSize_cases (v p : Z) :
  expected_headerSize v p = 28 \/ expected_headerSize v p = 32.
Proof.
  unfold expected_headerSize.
  destruct ((sdk_major v <? 1) || (sdk_minor v <? 1)); auto.
  destruct (platform_low16 p =? 5187); auto.
Qed.

Section SorterFacts.

Variable cfg : RadarConfig.
Variable tan_deg : Z -> f32.
Variable ten_log10 : f32 -> f32.
Variable msg_max : Z.

Local Abbreviation run := (sortIncomingData cfg tan_deg ten_log10 msg_max).
Local Abbreviation step := (sortIncomingData_pass cfg tan_deg ten_log10 msg_max).

Lemma sortIncomingData_at_swap (n : nat) (buf : list byte) (s : Sorter) :
  sorterState s = SWAP_BUFFERS -> run n buf s = ([], AtSwap, s).
Proof.
  intros H. destruct n; simpl; rewrite H; reflexivity.
Qed.

Lemma sortIncomingData_next (n : nat) (buf : list byte) (s s' : Sorter)
      (out : list PointCloud) :
  sorterState s <> SWAP_BUFFERS ->
  step buf s = Ok (s', out) ->
  run (S n) buf s =
  (let '(rest, st, s'') := run n buf s' in (out ++ rest, st, s'')).
Proof.
  intros Hs Hstep. simpl. rewrite Hstep.
  destruct (sorterState s); try reflexivity. congruence.
Qed.

Lemma sortIncomingData_fault (n : nat) (buf : list byte) (s : Sorter) (f : fault) :
  sorterState s <> SWAP_BUFFERS ->
  step buf s = Fault f ->
  run (S n) buf s = ([], Crashed f, s).
Proof.
  intros Hs Hstep. simpl. rewrite Hstep.
  destruct (sorterState s); try reflexivity. congruence.
Qed.

End SorterFacts.

(* ================================================================== *)
(** ** READ_HEADER *)

Lemma read_header_short (buf : list byte) (s : Sorter) :
  vsize buf < 12 -> read_header buf s = Ok (set_state s SWAP_BUFFERS).
Proof.
  intros H. unfold read_header.
  destruct (vsize buf <? 12) eqn:E; [reflexivity | lia].
Qed.

(** The first three words of a buffer of twelve bytes or more, read from
    position 0. *)
Lemma read_header_first_words (buf : list byte) :
  12 <= vsize buf ->
  memcpy_at 4 buf 0 = Ok (frame_version buf)
  /\ memcpy_at 4 buf 4 = Ok (frame_totalPacketLen buf)
  /\ memcpy_at 4 buf 8 = Ok (frame_platform buf).
Proof.
  intros H. repeat split; apply memcpy_at_ok; simpl; lia.
Qed.

(** C2, the claim as it is worded fails: a buffer of twelve bytes whose
    totalPacketLen word is the buffer size minus four is sent to
    SWAP_BUFFERS, not to CHECK_TLV_TYPE, by the test against headerSize. *)
Lemma short_frame_with_matching_length_is_dropped :
  exists s,
    read_header short_frame initial_sorter = Ok s
    /\ totalPacketLen (header s) = vsize short_frame - 4
    /\ sorterState s = SWAP_BUFFERS
    /\ sorterState s <> CHECK_TLV_TYPE.
Proof.
  eexists. split.
  - vm_compute. reflexivity.
  - split; [reflexivity | split; [reflexivity | discriminate]].
Qed.

(** C2 (amended): for a drain buffer that holds the header bytes
    READ_HEADER copies (at least headerSize bytes, and the subFrameNumber
    word unless the platform is 0x1443), READ_HEADER goes to SWAP_BUFFERS
    when totalPacketLen differs from the buffer size minus 4, and then the
    frame yields no cloud; when the two agree it goes to CHECK_TLV_TYPE. *)
Theorem read_header_length_check
    (cfg : RadarConfig) (tan_deg : Z -> f32) (ten_log10 : f32 -> f32)
    (msg_max : Z) (buf : list byte) (s : Sorter) :
  sorterState s = READ_HEADER ->
  currentDatap s = 0 ->
  frame_headerSize buf <= vsize buf ->
  header_bytes_read buf <= vsize buf ->
  exists s',
    read_header buf s = Ok s'
    /\ totalPacketLen (header s') = frame_totalPacketLen buf
    /\ sorterState s' =
       (if frame_totalPacketLen buf =? vsize buf - 4
        then CHECK_TLV_TYPE else SWAP_BUFFERS)
    /\ (frame_totalPacketLen buf <> vsize buf - 4 ->
        forall passes,
          sortIncomingData cfg tan_deg ten_log10 msg_max (S (S passes)) buf s
          = ([], AtSwap, s')).
Proof.
  intros Hstate Hcur Hsize Hread.
  assert (H28 : 28 <= vsize buf).
  { unfold frame_headerSize in Hsize.
    destruct (expected_headerSize_cases (frame_version buf) (frame_platform buf));
      lia. }
  destruct (read_header_first_words buf) as (Hv & Hl & Hp); [lia |].
  assert (Hstep : exists s',
             read_header buf s = Ok s'
             /\ totalPacketLen (header s') = frame_totalPacketLen buf
             /\ sorterState s' =
                (if frame_totalPacketLen buf =? vsize buf - 4
                 then CHECK_TLV_TYPE else SWAP_BUFFERS)).
  { unfold read_header. rewrite Hcur.
    destruct (vsize buf <? 12) eqn:E12; [lia |].
    rewrite Hv. cbn [bind].
    change (u32_add 0 4) with 4. rewrite Hl. cbn [bind].
    change (u32_add 4 4) with 8. rewrite Hp. cbn [bind].
    change (u32_add 8 4) with 12.
    fold (frame_headerSize buf).
    destruct (vsize buf <? frame_headerSize buf) eqn:Ehs; [lia |].
    rewrite (memcpy_at_ok 4 buf 12) by (simpl; lia). cbn [bind].
    change (u32_add 12 4) with 16.
    rewrite (memcpy_at_ok 4 buf 16) by (simpl; lia). cbn [bind].
    change (u32_add 16 4) with 20.
    rewrite (memcpy_at_ok 4 buf 20) by (simpl; lia). cbn [bind].
    change (u32_add 20 4) with 24.
    rewrite (memcpy_at_ok 4 buf 24) by (simpl; lia). cbn [bind].
    change (u32_add 24 4) with 28.
    unfold header_bytes_read in Hread.
    destruct (platform_low16 (frame_platform buf) =? 5187) eqn:Eplat;
      cbn [negb bind].
    - destruct (frame_totalPacketLen buf =? vsize buf - 4);
        eexists; (split; [reflexivity | split; reflexivity]).
    - rewrite (memcpy_at_ok 4 buf 28) by (simpl; lia). cbn [bind].
      destruct (frame_totalPacketLen buf =? vsize buf - 4);
        eexists; (split; [reflexivity | split; reflexivity]). }
  destruct Hstep as (s' & Hrh & Hlen & Hst).
  exists s'. repeat split; try assumption.
  intros Hne passes.
  assert (Hswap : sorterState s' = SWAP_BUFFERS).
  { rewrite Hst. destruct (frame_totalPacketLen buf =? vsize buf - 4) eqn:E;
      [apply Z.eqb_eq in E; contradiction | reflexivity]. }
  rewrite (sortIncomingData_next cfg tan_deg ten_log10 msg_max (S passes) buf s s' []).
  - rewrite (sortIncomingData_at_swap cfg tan_deg ten_log10 msg_max (S passes) buf s' Hswap).
    reflexivity.
  - rewrite Hstate. discriminate.
  - unfold sortIncomingData_pass. rewrite Hstate, Hrh. reflexivity.
Qed.

(** The length check on the frame of scenario 2, whose length word is
    right, and on the frame of scenario 5, whose length word is not. *)
Lemma read_header_length_check_witness :
  (exists s',
      read_header single_point_frame initial_sorter = Ok s'
      /\ totalPacketLen (header s') = frame_totalPacketLen single_point_frame
      /\ sorterState s' =
         (if frame_totalPacketLen single_point_frame
             =? vsize single_point_frame - 4
          then CHECK_TLV_TYPE else SWAP_BUFFERS)
      /\ (frame_totalPacketLen single_point_frame
          <> vsize single_point_frame - 4 ->
          forall passes,
            sortIncomingData demo_cfg demo_tan demo_ten_log10 demo_msg_max
                     (S (S passes)) single_point_frame initial_sorter
            = ([], AtSwap, s')))
  /\ (exists s',
         read_header wrong_length_frame initial_sorter = Ok s'
         /\ totalPacketLen (header s') = frame_totalPacketLen wrong_length_frame
         /\ sorterState s' =
            (if frame_totalPacketLen wrong_length_frame
                =? vsize wrong_length_frame - 4
             then CHECK_TLV_TYPE else SWAP_BUFFERS)
         /\ (frame_totalPacketLen wrong_length_frame
             <> vsize wrong_length_frame - 4 ->
             forall passes,
               sortIncomingData demo_cfg demo_tan demo_ten_log10 demo_msg_max
                        (S (S passes)) wrong_length_frame initial_sorter
               = ([], AtSwap, s'))).
Proof.
  split.
  - apply (read_header_length_check demo_cfg demo_tan demo_ten_log10
             demo_msg_max single_point_frame initial_sorter).
    + reflexivity.
    + reflexivity.
    + vm_compute. discriminate.
    + vm_compute. discriminate.
  - apply (read_header_length_check demo_cfg demo_tan demo_ten_log10
             demo_msg_max wrong_length_frame initial_sorter).
    + reflexivity.
    + reflexivity.
    + vm_compute. discriminate.
    + vm_compute. discriminate.
Defined.

(** Frames too short for a header are dropped whatever their second word
    says. *)
Lemma read_header_short_frames
    (cfg : RadarConfig) (tan_deg : Z -> f32) (ten_log10 : f32 -> f32)
    (msg_max : Z) (buf : list byte) (s : Sorter) (passes : nat) :
  sorterState s = READ_HEADER ->
  currentDatap s = 0 ->
  vsize buf < frame_headerSize buf ->
  exists s',
    sortIncomingData cfg tan_deg ten_log10 msg_max (S (S passes)) buf s
    = ([], AtSwap, s')
    /\ sorterState s' = SWAP_BUFFERS.
Proof.
  intros Hstate Hcur Hsize.
  assert (Hrh : exists s', read_header buf s = Ok s'
                           /\ sorterState s' = SWAP_BUFFERS).
  { destruct (Z_lt_ge_dec (vsize buf) 12) as [Hlt | Hge].
    - rewrite read_header_short by assumption. eexists; split; reflexivity.
    - destruct (read_header_first_words buf) as (Hv & Hl & Hp); [lia |].
      unfold read_header. rewrite Hcur.
      destruct (vsize buf <? 12) eqn:E12; [lia |].
      rewrite Hv. cbn [bind].
      change (u32_add 0 4) with 4. rewrite Hl. cbn [bind].
      change (u32_add 4 4) with 8. rewrite Hp. cbn [bind].
      fold (frame_headerSize buf).
      destruct (vsize buf <? frame_headerSize buf) eqn:Ehs; [| lia].
      eexists; split; reflexivity. }
  destruct Hrh as (s' & Hrh & Hswap). exists s'. split; [| assumption].
  rewrite (sortIncomingData_next cfg tan_deg ten_log10 msg_max (S passes) buf s s' []).
  - rewrite (sortIncomingData_at_swap cfg tan_deg ten_log10 msg_max (S passes) buf s' Hswap).
    reflexivity.
  - rewrite Hstate. discriminate.
  - unfold sortIncomingData_pass. rewrite Hstate, Hrh. reflexivity.
Qed.

(** A buffer of twelve bytes. *)
Lemma read_header_short_frames_witness :
  exists s',
    sortIncomingData demo_cfg demo_tan demo_ten_log10 demo_msg_max 2
                     short_frame initial_sorter
    = ([], AtSwap, s')
    /\ sorterState s' = SWAP_BUFFERS.
Proof.
  apply (read_header_short_frames demo_cfg demo_tan demo_ten_log10
           demo_msg_max short_frame initial_sorter 0).
  - reflexivity.
  - reflexivity.
  - vm_compute. reflexivity.
Defined.

(** C3: on SDK 1.0 with an xWR1642 the Sorter settles on a header of 28
    bytes and still copies the word behind them into subFrameNumber, so it
    consumes 32 bytes; the claim has it consume 28 and leave the word
    alone.  The detected-objects TLV that follows is then misread and the
    frame yields no cloud, while the same TLV behind a 28-byte header that
    is read as such yields one. *)
Theorem subframe_word_read_behind_28_byte_header :
  exists s,
    read_header old_sdk_frame initial_sorter = Ok s
    /\ sdk_minor (version (header s)) = 0
    /\ platform_low16 (platform (header s)) = 5698
    /\ headerSize s = 28
    /\ currentDatap s = 32
    /\ subFrameNumber (header s) = le_value (firstn 4 (skipn 28 old_sdk_frame))
    /\ subFrameNumber (header s) = 1
    /\ demo_clouds 10 old_sdk_frame = []
    /\ List.length (demo_clouds 10 single_point_frame) = 1%nat.
Proof.
  eexists. split.
  - vm_compute. reflexivity.
  - repeat split; vm_compute; reflexivity.
Qed.

(* ================================================================== *)
(** ** CHECK_TLV_TYPE *)

Lemma dispatch_tlv_unnamed (msg_max ty : Z) (current : SorterState) :
  named_tlv_type ty = false ->
  dispatch_tlv msg_max ty current
  = if ty =? msg_max then READ_HEADER else current.
Proof.
  unfold named_tlv_type, dispatch_tlv,
    MMWDEMO_OUTPUT_MSG_NULL, MMWDEMO_OUTPUT_MSG_DETECTED_POINTS,
    MMWDEMO_OUTPUT_MSG_RANGE_PROFILE, MMWDEMO_OUTPUT_MSG_NOISE_PROFILE,
    MMWDEMO_OUTPUT_MSG_AZIMUTH_STATIC_HEAT_MAP,
    MMWDEMO_OUTPUT_MSG_RANGE_DOPPLER_HEAT_MAP, MMWDEMO_OUTPUT_MSG_STATS.
  intros H.
  assert (Hty : ty < 0 \/ 6 < ty).
  { destruct (0 <=? ty) eqn:E0; destruct (ty <=? 6) eqn:E6;
      simpl in H; try discriminate; lia. }
  repeat match goal with
         | |- context [ty =? ?k] =>
             lazymatch k with
             | msg_max => fail
             | _ => destruct (ty =? k) eqn:?; [lia |]
             end
         end.
  reflexivity.
Qed.

(** C4, the claim as it is worded fails: with MMWDEMO_OUTPUT_MSG_MAX = 7, a
    TLV of type 8 leaves the Sorter in CHECK_TLV_TYPE; and whatever value
    the enumerator has, one of the types 8 and 9 does so. *)
Lemma unknown_tlv_type_stays_in_check :
  exists s',
    sorterState (demo_state 1 unknown_tlv_frame) = CHECK_TLV_TYPE
    /\ check_tlv_type demo_msg_max unknown_tlv_frame
                      (demo_state 1 unknown_tlv_frame) = Ok s'
    /\ tlvType s' = 8
    /\ named_tlv_type (tlvType s') = false
    /\ sorterState s' = CHECK_TLV_TYPE
    /\ sorterState s' <> READ_HEADER
    /\ (forall msg_max,
           exists ty,
             named_tlv_type ty = false
             /\ dispatch_tlv msg_max ty CHECK_TLV_TYPE = CHECK_TLV_TYPE).
Proof.
  eexists. split; [reflexivity | split].
  - vm_compute. reflexivity.
  - repeat split; try reflexivity; try discriminate.
    intros msg_max. destruct (Z.eq_dec msg_max 8) as [-> | Hne].
    + exists 9. split; reflexivity.
    + exists 8. split; [reflexivity |].
      rewrite dispatch_tlv_unnamed by reflexivity.
      destruct (8 =? msg_max) eqn:E; [apply Z.eqb_eq in E; congruence |].
      reflexivity.
Qed.

(** C4 (amended): for a TLV whose type is none of 0 to 6, CHECK_TLV_TYPE
    goes to READ_HEADER when the type is MMWDEMO_OUTPUT_MSG_MAX and stays
    in CHECK_TLV_TYPE for every other value (the default case). *)
Theorem check_tlv_type_unnamed
    (msg_max : Z) (buf : list byte) (s : Sorter) (ty len : Z) :
  sorterState s = CHECK_TLV_TYPE ->
  tlvCount s < numTLVs (header s) ->
  tlvCount s <> 2 ^ 31 - 1 ->
  memcpy_at 4 buf (currentDatap s) = Ok ty ->
  memcpy_at 4 buf (u32_add (currentDatap s) 4) = Ok len ->
  named_tlv_type ty = false ->
  exists s',
    check_tlv_type msg_max buf s = Ok s'
    /\ tlvType s' = ty
    /\ sorterState s' =
       (if ty =? msg_max then READ_HEADER else CHECK_TLV_TYPE).
Proof.
  intros Hstate Hcount Hmax Hty Hlen Hunnamed.
  unfold check_tlv_type.
  destruct (tlvCount s =? 2 ^ 31 - 1) eqn:E; [apply Z.eqb_eq in E; contradiction |].
  destruct (numTLVs (header s) <=? tlvCount s) eqn:E'; [apply Z.leb_le in E'; lia |].
  rewrite Hty. cbn [bind]. rewrite Hlen. cbn [bind].
  eexists. split; [reflexivity | split; [reflexivity |]].
  cbn [sorterState set_state set_cursor set_tlv set_tlvCount].
  rewrite Hstate. apply dispatch_tlv_unnamed. assumption.
Qed.

(** The dispatch on the TLV of type 8 of [unknown_tlv_frame], once with 7
    and once with 8 as MMWDEMO_OUTPUT_MSG_MAX. *)
Lemma check_tlv_type_unnamed_witness :
  (exists s',
      check_tlv_type 7 unknown_tlv_frame (demo_state 1 unknown_tlv_frame)
      = Ok s'
      /\ tlvType s' = 8
      /\ sorterState s' = (if 8 =? 7 then READ_HEADER else CHECK_TLV_TYPE))
  /\ (exists s',
         check_tlv_type 8 unknown_tlv_frame (demo_state 1 unknown_tlv_frame)
         = Ok s'
         /\ tlvType s' = 8
         /\ sorterState s' = (if 8 =? 8 then READ_HEADER else CHECK_TLV_TYPE)).
Proof.
  split.
  - apply (check_tlv_type_unnamed 7 unknown_tlv_frame
             (demo_state 1 unknown_tlv_frame) 8 0).
    + reflexivity.
    + vm_compute. reflexivity.
    + vm_compute. discriminate.
    + vm_compute. reflexivity.
    + vm_compute. reflexivity.
    + reflexivity.
  - apply (check_tlv_type_unnamed 8 unknown_tlv_frame
             (demo_state 1 unknown_tlv_frame) 8 0).
    + reflexivity.
    + vm_compute. reflexivity.
    + vm_compute. discriminate.
    + vm_compute. reflexivity.
    + vm_compute. reflexivity.
    + reflexivity.
Defined.

(* ================================================================== *)
(** ** READ_OBJ_STRUCT: the loop over the detected objects *)

Lemma store_point_length (i : nat) (p : RadarPoint) (pts : list RadarPoint) :
  List.length (store_point i p pts) = List.length pts.
Proof.
  revert i. induction pts as [| q rest IH]; intros [| j]; simpl; auto.
Qed.

Lemma store_point_below (i : nat) (p : RadarPoint) (pts : list RadarPoint) :
  firstn i (store_point i p pts) = firstn i pts.
Proof.
  revert i. induction pts as [| q rest IH]; intros [| j]; simpl; auto.
  f_equal. apply IH.
Qed.

Lemma store_point_at (i : nat) (p : RadarPoint) (pts : list RadarPoint) :
  (i < List.length pts)%nat ->
  firstn (S i) (store_point i p pts) = firstn i pts ++ [p].
Proof.
  revert i. induction pts as [| q rest IH]; intros [| j] H; simpl in *;
    try lia; auto.
  f_equal. apply IH. lia.
Qed.

Lemma resize_points_shrink (n : Z) (pts : list RadarPoint) :
  n <= Z.of_nat (List.length pts) ->
  resize_points n pts = firstn (Z.to_nat n) pts.
Proof.
  intros H. unfold resize_points.
  replace (Z.to_nat n - List.length pts)%nat with 0%nat by lia.
  simpl. apply app_nil_r.
Qed.

Lemma resize_points_length (n : Z) (pts : list RadarPoint) :
  List.length (resize_points n pts) = Z.to_nat n.
Proof.
  unfold resize_points. rewrite length_app, repeat_length, length_firstn. lia.
Qed.

Section ObjectLoop.

Variable cfg : RadarConfig.
Variable tan_deg : Z -> f32.
Variable ten_log10 : f32 -> f32.

Local Abbreviation pass := (object_pass cfg ten_log10).
Local Abbreviation loop := (object_loop cfg ten_log10).

(** One pass keeps the invariant and brings [i] and [numObjOut] one
    closer. *)
Lemma object_pass_invariant (e a : f32) (buf : list byte) (s s' : Sorter) :
  loop_invariant e a s ->
  loop_i s < numObjOut s ->
  pass buf s = Ok s' ->
  loop_invariant e a s'
  /\ numObjOut s' - loop_i s' = numObjOut s - loop_i s - 1
  /\ numObjOut s' <= numObjOut s.
Proof.
  intros (He & Ha & Hh & Hi & Hn & Hkept) Hlt Hpass.
  unfold object_pass in Hpass.
  destruct (read_object buf (currentDatap s)) as [[o c] | f];
    cbn [bind fst snd] in Hpass; [| discriminate].
  destruct (convert_object cfg ten_log10 (xyzQFormat s) o) as [p | f];
    cbn [bind] in Hpass; [| discriminate].
  rewrite He, Ha in Hpass.
  assert (Hidx : (Z.to_nat (loop_i s) < List.length (points (RScan s)))%nat)
    by lia.
  destruct (keep_point e a p) eqn:Hkeep;
    injection Hpass as <-;
    unfold loop_invariant;
    cbn [maxElevationAngleRatioSquared maxAzimuthAngleRatio loop_i numObjOut
         RScan points height set_loop_i set_numObjOut set_obj_header set_RScan
         set_cursor set_objOut xyzQFormat];
    rewrite ?store_point_length.
  - repeat split; try assumption; try lia.
    replace (Z.to_nat (loop_i s + 1)) with (S (Z.to_nat (loop_i s))) by lia.
    rewrite store_point_at by assumption.
    apply Forall_app. split; [assumption | constructor; [assumption | constructor]].
  - repeat split; try assumption; try lia.
    rewrite store_point_below. assumption.
Qed.

(** The loop keeps the invariant, and with as many passes as [numObjOut]
    and [i] are apart it ends with the two equal: the test
    [i < numObjOut] has failed. *)
Lemma object_loop_invariant (e a : f32) (passes : nat) (buf : list byte) :
  forall s s',
    loop_invariant e a s ->
    loop passes buf s = Ok s' ->
    loop_invariant e a s'
    /\ numObjOut s' <= numObjOut s
    /\ (numObjOut s - loop_i s <= Z.of_nat passes ->
        loop_i s' = numObjOut s').
Proof.
  induction passes as [| n IH]; intros s s' Hinv Hloop; simpl in Hloop.
  - injection Hloop as <-.
    split; [assumption | split; [lia |]].
    intros Hfuel. destruct Hinv as (_ & _ & _ & Hi & _). lia.
  - destruct (loop_i s <? numObjOut s) eqn:Hlt.
    + apply Z.ltb_lt in Hlt.
      destruct (pass buf s) as [s1 | f] eqn:Hpass; cbn [bind] in Hloop;
        [| discriminate].
      destruct (object_pass_invariant e a buf s s1 Hinv Hlt Hpass)
        as (Hinv1 & Hgap & Hle).
      destruct (IH s1 s' Hinv1 Hloop) as (Hinv' & Hle' & Hexit).
      split; [assumption | split; [lia |]].
      intros Hfuel. apply Hexit. lia.
    + apply Z.ltb_ge in Hlt. injection Hloop as <-.
      split; [assumption | split; [lia |]].
      intros Hfuel. destruct Hinv as (_ & _ & _ & Hi & _). lia.
Qed.

End ObjectLoop.

(* ================================================================== *)
(** ** READ_OBJ_STRUCT: the published cloud *)

Lemma byte_val_nonneg (b : byte) : 0 <= byte_val b.
Proof. unfold byte_val. apply N2Z.is_nonneg. Qed.

Lemma le_value_nonneg (bs : list byte) : 0 <= le_value bs.
Proof.
  induction bs as [| b rest IH]; cbn [le_value]; [lia |].
  pose proof (byte_val_nonneg b). lia.
Qed.

Lemma memcpy_at_nonneg (n : nat) (buf : list byte) (pos v : Z) :
  memcpy_at n buf pos = Ok v -> 0 <= v.
Proof.
  unfold memcpy_at. intros H.
  destruct (pos <? vsize buf); [| discriminate].
  destruct (pos + Z.of_nat n <=? vsize buf); [| discriminate].
  injection H as <-. apply le_value_nonneg.
Qed.

(** Rounding keeps the sign it is given, so a rounded non-negative value is
    never equal to a negative number. *)
Lemma binary_round_aux_positive_sign
      (prec emax mx ex : Z) (lx : location) (m : positive) (e : Z) :
  SFeqb (binary_round_aux prec emax false mx ex lx) (S754_finite true m e)
  = false.
Proof.
  unfold binary_round_aux.
  destruct (shr_fexp prec emax mx ex lx) as [mrs' e'].
  destruct (shr_fexp prec emax _ e' loc_Exact) as [mrs'' e''].
  destruct (shr_m mrs'') as [| m0 | m0]; try reflexivity.
  destruct (e'' <=? emax - prec); reflexivity.
Qed.

(** A square in single precision is never [-1]: a limit that is enabled is
    never taken for a disabled one. *)
Lemma f32_mul_self_not_minus_one (t : f32) :
  f32_eq (f32_mul t t) (f32_of_Z (-1)) = false.
Proof.
  change (f32_of_Z (-1)) with (S754_finite true 8388608 (-23)).
  unfold f32_eq, f32_mul.
  destruct t as [s | s | | s m e]; simpl.
  - destruct s; reflexivity.
  - destruct s; reflexivity.
  - reflexivity.
  - replace (xorb s s) with false by (destruct s; reflexivity).
    apply binary_round_aux_positive_sign.
Qed.

Section PublishedCloud.

Variable cfg : RadarConfig.
Variable tan_deg : Z -> f32.
Variable ten_log10 : f32 -> f32.
Variable msg_max : Z.

(** The tangent of an angle of 0 to 89 degrees is not [-1]. *)
Hypothesis tan_deg_not_minus_one :
  forall d, 0 <= d < 90 -> f32_eq (tan_deg d) (f32_of_Z (-1)) = false.

Local Abbreviation elev := (elevation_ratio_squared cfg tan_deg).
Local Abbreviation az := (azimuth_ratio cfg tan_deg).

(** What READ_OBJ_STRUCT publishes: the points that were kept, at most as
    many as the TLV announces, and at least one. *)
Lemma read_obj_struct_cloud (buf : list byte) (s s' : Sorter) (c : PointCloud) :
  read_obj_struct cfg tan_deg ten_log10 buf s = Ok (s', c) ->
  exists n,
    memcpy_at 2 buf (currentDatap s) = Ok n
    /\ Forall (fun p => keep_point elev az p = true) (points c)
    /\ Z.of_nat (List.length (points c)) <= n
    /\ width c = Z.of_nat (List.length (points c))
    /\ points c <> [].
Proof.
  unfold read_obj_struct. intros H.
  destruct (memcpy_at 2 buf (currentDatap s)) as [n | f] eqn:Hn;
    cbn [bind] in H; [| discriminate].
  destruct (memcpy_at 2 buf (u32_add (currentDatap s) 2)) as [q | f] eqn:Hq;
    cbn [bind] in H; [| discriminate].
  pose proof (memcpy_at_nonneg _ _ _ _ Hn) as Hn0.
  match type of H with
  | context [object_loop _ _ _ _ ?st] => set (s1 := st) in *
  end.
  assert (Hinv : loop_invariant elev az s1).
  { unfold loop_invariant, s1.
    cbn [maxElevationAngleRatioSquared maxAzimuthAngleRatio loop_i numObjOut
         RScan points height set_ratios set_RScan set_cursor set_obj_header
         set_loop_i].
    rewrite resize_points_length.
    repeat split; try reflexivity; try lia.
    simpl. constructor. }
  destruct (object_loop cfg ten_log10 (Z.to_nat n) buf s1) as [s2 | f] eqn:Hloop;
    cbn [bind] in H; [| discriminate].
  destruct (object_loop_invariant cfg ten_log10 elev az _ _ _ _ Hinv Hloop)
    as ((_ & _ & Hh & Hi & Hlen & Hkept) & Hle & Hexit).
  assert (Hn1 : numObjOut s1 = n) by reflexivity.
  assert (Hi1 : loop_i s1 = 0) by reflexivity.
  assert (Hend : loop_i s2 = numObjOut s2) by (apply Hexit; lia).
  rewrite Hh, Z.mul_1_r, resize_points_shrink in H by assumption.
  exists n. split; [reflexivity |].
  destruct (firstn (Z.to_nat (numObjOut s2)) (points (RScan s2)))
    as [| p0 rest] eqn:Hpts; cbn [points] in H; [discriminate |].
  injection H as _ <-. cbn [points width].
  assert (Hcount : List.length (p0 :: rest) = Z.to_nat (numObjOut s2)).
  { rewrite <- Hpts, length_firstn. lia. }
  repeat split.
  - rewrite <- Hpts, <- Hend. assumption.
  - rewrite Hcount. lia.
  - rewrite Hcount. lia.
  - discriminate.
Qed.

Lemma keep_point_passes_filter (p : RadarPoint) :
  keep_point elev az p = true -> point_passes_filter cfg tan_deg p.
Proof.
  unfold keep_point, point_passes_filter. intros H.
  apply andb_prop in H. destruct H as [H Hx].
  apply andb_prop in H. destruct H as [He Ha].
  split; [assumption | split].
  - intros Hen. unfold elevation_ratio_squared in He. rewrite Hen in He.
    rewrite f32_mul_self_not_minus_one in He. exact He.
  - intros Hen. unfold azimuth_ratio in Ha. rewrite Hen in Ha.
    rewrite tan_deg_not_minus_one in Ha; [exact Ha |].
    unfold azimuth_enabled in Hen. apply andb_prop in Hen. lia.
Qed.

(** Every cloud a pass publishes comes out of READ_OBJ_STRUCT. *)
Lemma sortIncomingData_pass_publishes (buf : list byte) (s s' : Sorter)
      (out : list PointCloud) (c : PointCloud) :
  sortIncomingData_pass cfg tan_deg ten_log10 msg_max buf s = Ok (s', out) ->
  In c out ->
  read_obj_struct cfg tan_deg ten_log10 buf s = Ok (s', c).
Proof.
  unfold sortIncomingData_pass. intros H Hin.
  destruct (sorterState s);
    try solve [ match type of H with
                | bind ?r _ = _ => destruct r; cbn [bind] in H
                end; [injection H as <- <-; destruct Hin | discriminate] ].
  - destruct (read_obj_struct cfg tan_deg ten_log10 buf s) as [[s0 c0] | f];
      cbn [bind fst snd] in H; [| discriminate].
    injection H as <- <-. destruct Hin as [<- | []]. reflexivity.
  - injection H as <- <-. destruct Hin.
Qed.

Lemma sortIncomingData_publishes (passes : nat) (buf : list byte) :
  forall s c,
    In c (fst (fst (sortIncomingData cfg tan_deg ten_log10 msg_max passes buf s))) ->
    exists s1 s2, read_obj_struct cfg tan_deg ten_log10 buf s1 = Ok (s2, c).
Proof.
  induction passes as [| n IH]; intros s c Hin.
  - simpl in Hin. destruct (sorterState s); destruct Hin.
  - destruct (SorterState_eq_dec (sorterState s) SWAP_BUFFERS) as [Hs | Hs].
    + rewrite sortIncomingData_at_swap in Hin by assumption. destruct Hin.
    + destruct (sortIncomingData_pass cfg tan_deg ten_log10 msg_max buf s)
        as [[s' out] | f] eqn:Hstep.
      * rewrite (sortIncomingData_next _ _ _ _ n buf s s' out Hs Hstep) in Hin.
        destruct (sortIncomingData cfg tan_deg ten_log10 msg_max n buf s')
          as [[rest st] s''] eqn:Hrest.
        cbn [fst] in Hin. apply in_app_or in Hin. destruct Hin as [Hin | Hin].
        -- exists s, s'. eapply sortIncomingData_pass_publishes; eassumption.
        -- apply (IH s' c). rewrite Hrest. exact Hin.
      * rewrite (sortIncomingData_fault _ _ _ _ n buf s f Hs Hstep) in Hin.
        destruct Hin.
Qed.

Lemma sort_frames_publishes (passes : nat) (frames : list (list byte)) :
  forall s c,
    In c (fst (sort_frames cfg tan_deg ten_log10 msg_max passes frames s)) ->
    exists buf s1 s2,
      read_obj_struct cfg tan_deg ten_log10 buf s1 = Ok (s2, c).
Proof.
  induction frames as [| buf rest IH]; intros s c Hin; simpl in Hin.
  - destruct Hin.
  - destruct (sortIncomingData cfg tan_deg ten_log10 msg_max passes buf s)
      as [[out st] s'] eqn:Hrun.
    assert (Hout : In c out -> exists buf s1 s2,
                 read_obj_struct cfg tan_deg ten_log10 buf s1 = Ok (s2, c)).
    { intros Hc. exists buf.
      apply (sortIncomingData_publishes passes buf s c). rewrite Hrun. exact Hc. }
    destruct st; try (apply Hout; exact Hin).
    destruct (sort_frames cfg tan_deg ten_log10 msg_max passes rest
                          (resume_after_swap s')) as [out' st'] eqn:Hrest.
    cbn [fst] in Hin. apply in_app_or in Hin. destruct Hin as [Hin | Hin].
    + apply Hout; exact Hin.
    + apply (IH (resume_after_swap s') c). rewrite Hrest. exact Hin.
Qed.

(** C5: every point of every cloud the Sorter publishes, over any sequence
    of drain buffers and from any state of its locals, has a non-zero [x];
    with the elevation limit enabled it satisfies
    [z^2 / (x^2 + y^2) < tan(maxElev)^2], and with the azimuth limit
    enabled [|y / x| < tan(maxAz)]. *)
Theorem published_points_pass_filter
    (passes : nat) (frames : list (list byte)) (s : Sorter)
    (c : PointCloud) (p : RadarPoint) :
  In c (fst (sort_frames cfg tan_deg ten_log10 msg_max passes frames s)) ->
  In p (points c) ->
  point_passes_filter cfg tan_deg p.
Proof.
  intros Hc Hp.
  destruct (sort_frames_publishes passes frames s c Hc) as (buf & s1 & s2 & Hpub).
  destruct (read_obj_struct_cloud buf s1 s2 c Hpub) as (n & _ & Hkept & _).
  apply keep_point_passes_filter.
  rewrite Forall_forall in Hkept. apply Hkept. exact Hp.
Qed.

End PublishedCloud.

Lemma demo_tan_not_minus_one (d : Z) :
  0 <= d < 90 -> f32_eq (demo_tan d) (f32_of_Z (-1)) = false.
Proof.
  intros _. unfold demo_tan.
  destruct (d <=? 0); [reflexivity |].
  destruct (d <? 45); [reflexivity |].
  destruct (d =? 45); reflexivity.
Qed.

(** The point of scenario 2 as the Sorter publishes it, with both limits at
    45 degrees. *)
Lemma published_points_pass_filter_witness :
  point_passes_filter demo_cfg_45 demo_tan
    (mkPoint (S754_finite false 8388613 (-7))
             (S754_finite true 10485760 (-28))
             (S754_finite false 10485760 (-28))
             (S754_finite false 10485760 (-19))
             (S754_finite false 8388608 (-24))
             (S754_zero false)).
Proof.
  apply (published_points_pass_filter demo_cfg_45 demo_tan demo_ten_log10
           demo_msg_max demo_tan_not_minus_one 10%nat [single_point_frame]
           initial_sorter
           (mkCloud "base_radar_link" 1 1 true
              [mkPoint (S754_finite false 8388613 (-7))
                       (S754_finite true 10485760 (-28))
                       (S754_finite false 10485760 (-28))
                       (S754_finite false 10485760 (-19))
                       (S754_finite false 8388608 (-24))
                       (S754_zero false)])).
  - vm_compute. left. reflexivity.
  - simpl. left. reflexivity.
Defined.

(** C6, the claim as it is worded fails: a frame whose header announces no
    detected object and whose detected-objects TLV carries one yields a
    cloud of one point; numDetectedObj is read and never used. *)
Lemma cloud_larger_than_numDetectedObj :
  exists c s,
    demo_run 10 undeclared_point_frame = ([c], AtSwap, s)
    /\ numDetectedObj (header s) = 0
    /\ List.length (points c) = 1%nat
    /\ numDetectedObj (header s) < Z.of_nat (List.length (points c)).
Proof.
  eexists. eexists. split.
  - vm_compute. reflexivity.
  - repeat split; try reflexivity.
Qed.

(** C6 (amended): every cloud the Sorter publishes was decoded by
    READ_OBJ_STRUCT from a detected-objects TLV and has at most as many
    points as the numObj word of that TLV, the 16 bits at the cursor. *)
Theorem published_cloud_within_tlv_count
    (cfg : RadarConfig) (tan_deg : Z -> f32) (ten_log10 : f32 -> f32)
    (msg_max : Z) (passes : nat) (frames : list (list byte)) (s : Sorter)
    (c : PointCloud) :
  In c (fst (sort_frames cfg tan_deg ten_log10 msg_max passes frames s)) ->
  exists buf s1 s2 n,
    read_obj_struct cfg tan_deg ten_log10 buf s1 = Ok (s2, c)
    /\ memcpy_at 2 buf (currentDatap s1) = Ok n
    /\ Z.of_nat (List.length (points c)) <= n
    /\ width c = Z.of_nat (List.length (points c)).
Proof.
  intros Hc.
  destruct (sort_frames_publishes cfg tan_deg ten_log10 msg_max passes frames
              s c Hc) as (buf & s1 & s2 & Hpub).
  destruct (read_obj_struct_cloud cfg tan_deg ten_log10 buf s1 s2 c Hpub)
    as (n & Hn & _ & Hle & Hw & _).
  exists buf, s1, s2, n. repeat split; assumption.
Qed.

(** The cloud of the frame whose header announces no object. *)
Lemma published_cloud_within_tlv_count_witness :
  exists buf s1 s2 n,
    read_obj_struct demo_cfg demo_tan demo_ten_log10 buf s1
    = Ok (s2, mkCloud "base_radar_link" 1 1 true
                [mkPoint (S754_finite false 8388613 (-7))
                         (S754_finite true 10485760 (-28))
                         (S754_finite false 10485760 (-28))
                         (S754_finite false 10485760 (-19))
                         (S754_finite false 8388608 (-24))
                         (S754_zero false)])
    /\ memcpy_at 2 buf (currentDatap s1) = Ok n
    /\ Z.of_nat 1 <= n
    /\ 1 = Z.of_nat 1.
Proof.
  apply (published_cloud_within_tlv_count demo_cfg demo_tan demo_ten_log10
           demo_msg_max 10%nat [undeclared_point_frame] initial_sorter).
  vm_compute. left. reflexivity.
Defined.

(** C1: for the object of scenario 2 (rangeIdx = 10, y = 256,
    xyzQFormat = 8) the Sorter computes (10 + 256 * 65536) / 2^8, that is
    65536.0390625, as the coordinate that becomes the point's [x]; the
    claimed value is 256 / 2^8 = 1.  The frame of scenario 2 publishes the
    point with that coordinate. *)
Theorem q_format_conversion_adds_range_index :
  exists p,
    convert_object demo_cfg demo_ten_log10 8 one_object = Ok p
    /\ pt_x p = q_to_meters (rangeIdx one_object) (2 ^ 8)
                            (f32_of_Z (obj_y one_object))
    /\ pt_x p = S754_finite false 8388613 (-7)
    /\ spec_q_to_meters (obj_y one_object) 8 = S754_finite false 8388608 (-23)
    /\ f32_eq (pt_x p) (spec_q_to_meters (obj_y one_object) 8) = false
    /\ map (fun c => map pt_x (points c)) (demo_clouds 10 single_point_frame)
       = [[S754_finite false 8388613 (-7)]].
Proof.
  eexists. split.
  - vm_compute. reflexivity.
  - repeat split; vm_compute; reflexivity.
Qed.

(** C7: a frame whose header announces a TLV that is not there, a frame
    whose detected-objects TLV announces two objects and carries one, and a
    frame with a TLV whose length points behind the buffer make the cursor
    run past the end of the drain buffer; [vector::at] throws, and the
    Sorter does not reach SWAP_BUFFERS however many passes it gets. *)
Theorem cursor_overrun_throws :
  (demo_status 10 missing_tlv_frame = Crashed OutOfRange
   /\ sorterState (demo_state 10 missing_tlv_frame) = CHECK_TLV_TYPE
   /\ forall passes,
        reaches_swap (demo_status passes missing_tlv_frame) = false)
  /\ (demo_status 10 truncated_objects_frame = Crashed OutOfRange
      /\ sorterState (demo_state 10 truncated_objects_frame) = READ_OBJ_STRUCT
      /\ forall passes,
           reaches_swap (demo_status passes truncated_objects_frame) = false)
  /\ (demo_status 10 oversized_tlv_frame = Crashed OutOfRange
      /\ sorterState (demo_state 10 oversized_tlv_frame) = CHECK_TLV_TYPE
      /\ currentDatap (demo_state 10 oversized_tlv_frame) = 1036
      /\ forall passes,
           reaches_swap (demo_status passes oversized_tlv_frame) = false).
Proof.
  split; [| split].
  - split; [vm_compute; reflexivity | split; [vm_compute; reflexivity |]].
    intros [| [| n]]; vm_compute; reflexivity.
  - split; [vm_compute; reflexivity | split; [vm_compute; reflexivity |]].
    intros [| [| [| n]]]; vm_compute; reflexivity.
  - split; [vm_compute; reflexivity | split; [vm_compute; reflexivity |]].
    split; [vm_compute; reflexivity |].
    intros [| [| [| [| n]]]]; vm_compute; reflexivity.
Qed.

(** C10: a detected-objects TLV without objects, and one whose only object
    is dropped by the filter, reach the end of READ_OBJ_STRUCT with a cloud
    resized to no point; the read of [points[0]] that precedes the publish
    is then outside the vector. *)
Theorem first_point_read_of_empty_cloud :
  sorterState (demo_state 2 no_object_frame) = READ_OBJ_STRUCT
  /\ memcpy_at 2 no_object_frame (currentDatap (demo_state 2 no_object_frame))
     = Ok 0
  /\ read_obj_struct demo_cfg demo_tan demo_ten_log10 no_object_frame
                     (demo_state 2 no_object_frame)
     = Fault (Undefined IndexPastEnd)
  /\ sorterState (demo_state 2 origin_object_frame) = READ_OBJ_STRUCT
  /\ memcpy_at 2 origin_object_frame
               (currentDatap (demo_state 2 origin_object_frame))
     = Ok 1
  /\ read_obj_struct demo_cfg demo_tan demo_ten_log10 origin_object_frame
                     (demo_state 2 origin_object_frame)
     = Fault (Undefined IndexPastEnd).
Proof.
  repeat split; vm_compute; reflexivity.
Qed.

(* ================================================================== *)
(** ** The Reader: resynchronisation *)

Lemma tl_skipn {A : Type} (n : nat) (l : list A) :
  tl (skipn n l) = skipn (S n) l.
Proof.
  revert l. induction n as [| n IH]; intros [| a l]; try reflexivity.
  apply (IH l).
Qed.

Lemma bytes_eqb_eq (a b : list byte) : bytes_eqb a b = true <-> a = b.
Proof.
  revert b. induction a as [| x a IH]; intros [| y b]; simpl;
    try (split; [discriminate | discriminate]); [tauto |].
  rewrite andb_true_iff, IH. split.
  - intros [Hxy ->]. apply Byte.byte_dec_bl in Hxy. now subst.
  - intros H. injection H as -> ->. split; [now apply Byte.byte_dec_lb | reflexivity].
Qed.

Lemma window_of_length (p : list byte) : List.length (window_of p) = 8%nat.
Proof.
  unfold window_of. rewrite length_skipn, length_app.
  change (List.length zero_window) with 8%nat. lia.
Qed.

(** On a full window a byte that arrives pushes the oldest one out. *)
Lemma advance_full (w : list byte) (b : byte) :
  List.length w = 8%nat -> advance w (Some b) = tl w ++ [b].
Proof.
  intros H.
  repeat (destruct w as [| ? w]; simpl in H; try discriminate).
  reflexivity.
Qed.

Lemma window_of_snoc (p : list byte) (b : byte) :
  advance (window_of p) (Some b) = window_of (p ++ [b]).
Proof.
  rewrite advance_full by apply window_of_length.
  unfold window_of. rewrite tl_skipn, length_app. cbn [List.length].
  replace (List.length p + 1)%nat with (S (List.length p)) by lia.
  rewrite (app_assoc zero_window p [b]).
  rewrite (skipn_app (S (List.length p)) (zero_window ++ p) [b]), length_app.
  change (List.length zero_window) with 8%nat.
  replace (S (List.length p) - (8 + List.length p))%nat with 0%nat by lia.
  reflexivity.
Qed.

(** While fewer than eight bytes have arrived the window still starts
    with a zero. *)
Lemma window_of_short (p : list byte) :
  (List.length p < 8)%nat -> nth 0 (window_of p) x00 = x00.
Proof.
  intros H. unfold window_of. rewrite nth_skipn, Nat.add_0_r.
  rewrite app_nth1 by (change (List.length zero_window) with 8%nat; lia).
  apply nth_repeat.
Qed.

(** From the eighth byte on the window is the last eight bytes. *)
Lemma window_of_firstn (stream : list byte) (k : nat) :
  (8 <= k <= List.length stream)%nat ->
  window_of (firstn k stream) = firstn 8 (skipn (k - 8) stream).
Proof.
  intros H. unfold window_of.
  rewrite length_firstn, Nat.min_l by lia.
  rewrite skipn_app. change (List.length zero_window) with 8%nat.
  rewrite (skipn_all2 zero_window)
    by (change (List.length zero_window) with 8%nat; lia).
  cbn [app]. rewrite skipn_firstn_comm. f_equal. lia.
Qed.

Lemma window_of_whole (garbage mw : list byte) :
  List.length mw = 8%nat -> window_of (garbage ++ mw) = mw.
Proof.
  intros H. unfold window_of.
  rewrite (app_assoc zero_window garbage mw), skipn_app, !length_app.
  change (List.length zero_window) with 8%nat. rewrite H.
  rewrite skipn_all2 by (rewrite length_app;
                         change (List.length zero_window) with 8%nat; lia).
  replace (List.length garbage + 8 - (8 + List.length garbage))%nat
    with 0%nat by lia.
  reflexivity.
Qed.

Section ReaderFacts.

Variable magicWord : list byte.
Hypothesis magicWord_length : List.length magicWord = 8%nat.
(** The window is zeroed before the search starts, so a magic word that
    began with a zero could be completed by fewer than eight bytes. *)
Hypothesis magicWord_head : nth 0 magicWord x00 <> x00.

(** On a full window [isMagicWord] answers whether it is the magic word. *)
Lemma isMagicWord_full (w : list byte) :
  List.length w = 8%nat ->
  isMagicWord magicWord w = if bytes_eqb w magicWord then 1 else 0.
Proof.
  intros Hw. pose proof magicWord_length as Hm.
  destruct magicWord as [| m0 [| m1 [| m2 [| m3 [| m4 [| m5 [| m6 [| m7 [| ? ?]]]]]]]]];
    try discriminate.
  destruct w as [| w0 [| w1 [| w2 [| w3 [| w4 [| w5 [| w6 [| w7 [| ? ?]]]]]]]]];
    try discriminate.
  unfold isMagicWord, matching_positions.
  cbn [seq fold_left nth bytes_eqb].
  destruct (Byte.eqb w0 m0), (Byte.eqb w1 m1), (Byte.eqb w2 m2),
    (Byte.eqb w3 m3), (Byte.eqb w4 m4), (Byte.eqb w5 m5),
    (Byte.eqb w6 m6), (Byte.eqb w7 m7); reflexivity.
Qed.

(** Before the last byte of the first magic word has arrived the window
    does not hold the magic word. *)
Lemma no_magic_word_before_end (garbage : list byte) (k : nat) :
  magic_word_first magicWord garbage = true ->
  (k < List.length (garbage ++ magicWord))%nat ->
  isMagicWord magicWord (window_of (firstn k (garbage ++ magicWord))) = 0.
Proof.
  intros Hfirst Hk.
  rewrite isMagicWord_full by apply window_of_length.
  destruct (bytes_eqb _ magicWord) eqn:E; [exfalso | reflexivity].
  apply bytes_eqb_eq in E.
  rewrite length_app, magicWord_length in Hk.
  destruct (Nat.lt_ge_cases k 8) as [Hlt | Hge].
  - apply magicWord_head. rewrite <- E. apply window_of_short.
    rewrite length_firstn. lia.
  - rewrite window_of_firstn in E
      by (rewrite length_app, magicWord_length; lia).
    unfold magic_word_first in Hfirst.
    rewrite forallb_forall in Hfirst.
    specialize (Hfirst (k - 8)%nat).
    rewrite E in Hfirst.
    assert (Hself : bytes_eqb magicWord magicWord = true)
      by (apply bytes_eqb_eq; reflexivity).
    rewrite Hself in Hfirst. simpl in Hfirst.
    assert (Hin : In (k - 8)%nat (seq 0 (List.length garbage)))
      by (apply in_seq; lia).
    specialize (Hfirst Hin). discriminate.
Qed.

(** As long as the window does not hold the magic word the search goes
    on, byte by byte, and the fill buffer stays as it is. *)
Lemma resync_consumes (bytes : list byte) :
  forall (consumed buf : list byte) (first : Z) (rest : list (option byte)),
    (forall k, (k < List.length bytes)%nat ->
               isMagicWord magicWord (window_of (consumed ++ firstn k bytes)) = 0) ->
    resync magicWord (mkReader (window_of consumed) buf first)
           (map Some bytes ++ rest)
    = resync magicWord (mkReader (window_of (consumed ++ bytes)) buf first)
             rest.
Proof.
  induction bytes as [| b bytes IH]; intros consumed buf first rest Hno.
  - rewrite app_nil_r. reflexivity.
  - pose proof (Hno 0%nat ltac:(simpl; lia)) as H0.
    simpl firstn in H0. rewrite app_nil_r in H0.
    cbn [map app resync last8Bytes nextBuf firstPacketReady].
    rewrite H0. cbn [Z.eqb].
    rewrite window_of_snoc.
    rewrite (IH (consumed ++ [b]) buf first rest).
    + rewrite <- app_assoc. reflexivity.
    + intros k Hk. rewrite <- app_assoc.
      apply (Hno (S k)). simpl. lia.
Qed.

Lemma resync_at_magic_word (buf : list byte) (first : Z)
      (rest : list (option byte)) :
  resync magicWord (mkReader magicWord buf first) rest
  = Some (mkReader magicWord buf first, rest).
Proof.
  assert (H : isMagicWord magicWord magicWord = 1).
  { rewrite isMagicWord_full by exact magicWord_length.
    replace (bytes_eqb magicWord magicWord) with true; [reflexivity |].
    symmetry. apply bytes_eqb_eq. reflexivity. }
  destruct rest; cbn [resync last8Bytes]; rewrite H; reflexivity.
Qed.

(** The initial search ends exactly behind the first magic word, with an
    empty fill buffer. *)
Lemma resync_first_magic_word (garbage : list byte)
      (rest : list (option byte)) :
  magic_word_first magicWord garbage = true ->
  resync magicWord initial_reader (map Some (garbage ++ magicWord) ++ rest)
  = Some (mkReader magicWord [] 0, rest).
Proof.
  intros Hfirst.
  change initial_reader with (mkReader (window_of []) [] 0).
  rewrite resync_consumes.
  - cbn [app]. rewrite window_of_whole by exact magicWord_length.
    apply resync_at_magic_word.
  - intros k Hk. cbn [app]. apply no_magic_word_before_end; assumption.
Qed.

(** C8: garbage in front of the first magic word is consumed together
    with the magic word by the initial search, which leaves the fill
    buffer empty; from there on the Reader, and with it the Sorter, does
    what it does on the stream that starts with the magic word. *)
Theorem garbage_before_first_magic_word
    (cfg : RadarConfig) (tan_deg : Z -> f32) (ten_log10 : f32 -> f32)
    (msg_max : Z) (passes : nat)
    (garbage : list byte) (rest : list (option byte)) :
  magic_word_first magicWord garbage = true ->
  resync magicWord initial_reader (map Some (garbage ++ magicWord) ++ rest)
  = Some (mkReader magicWord [] 0, rest)
  /\ readIncomingData magicWord (map Some (garbage ++ magicWord) ++ rest)
     = readIncomingData magicWord (map Some magicWord ++ rest)
  /\ pipeline magicWord cfg tan_deg ten_log10 msg_max passes
              (map Some (garbage ++ magicWord) ++ rest)
     = pipeline magicWord cfg tan_deg ten_log10 msg_max passes
                (map Some magicWord ++ rest).
Proof.
  intros Hfirst.
  pose proof (resync_first_magic_word garbage rest Hfirst) as Hg.
  pose proof (resync_first_magic_word [] rest eq_refl) as H0.
  cbn [app] in H0.
  assert (Hread : readIncomingData magicWord
                    (map Some (garbage ++ magicWord) ++ rest)
                  = readIncomingData magicWord (map Some magicWord ++ rest)).
  { unfold readIncomingData. rewrite Hg, H0. reflexivity. }
  split; [exact Hg | split; [exact Hread |]].
  unfold pipeline. rewrite Hread. reflexivity.
Qed.

End ReaderFacts.

(** A stream with four bytes of garbage, the last three of them the start
    of a magic word, in front of the magic word and two frames. *)
Lemma garbage_before_first_magic_word_witness :
  resync ti_magicWord initial_reader
         (map Some ([xff; x02; x01; x04] ++ ti_magicWord)
          ++ map Some (single_point_frame ++ single_point_frame))
  = Some (mkReader ti_magicWord [] 0,
          map Some (single_point_frame ++ single_point_frame))
  /\ readIncomingData ti_magicWord
       (map Some ([xff; x02; x01; x04] ++ ti_magicWord)
        ++ map Some (single_point_frame ++ single_point_frame))
     = readIncomingData ti_magicWord
         (map Some ti_magicWord
          ++ map Some (single_point_frame ++ single_point_frame))
  /\ pipeline ti_magicWord demo_cfg demo_tan demo_ten_log10 demo_msg_max 10
       (map Some ([xff; x02; x01; x04] ++ ti_magicWord)
        ++ map Some (single_point_frame ++ single_point_frame))
     = pipeline ti_magicWord demo_cfg demo_tan demo_ten_log10 demo_msg_max 10
         (map Some ti_magicWord
          ++ map Some (single_point_frame ++ single_point_frame)).
Proof.
  apply (garbage_before_first_magic_word ti_magicWord).
  - reflexivity.
  - simpl. discriminate.
  - vm_compute. reflexivity.
Defined.

(* ================================================================== *)
(** ** The hand-shake on [countSync] *)

Lemma world_mem_In (w : World) (l : list World) :
  world_mem w l = true -> In w l.
Proof.
  unfold world_mem. rewrite existsb_exists.
  intros (v & Hin & Heq). destruct (World_eq_dec w v); [now subst | discriminate].
Qed.

Lemma run_schedule_reachable (spurious : bool) (sched : list (thread * bool)) :
  forall w w',
    reachable spurious w ->
    run_schedule spurious sched w = Some w' ->
    reachable spurious w'.
Proof.
  induction sched as [| [t b] rest IH]; intros w w' Hw Hrun; simpl in Hrun.
  - injection Hrun as <-. exact Hw.
  - destruct (thread_step spurious t b w) as [w1 |] eqn:Hstep; [| discriminate].
    apply (IH w1 w'); [| exact Hrun].
    exact (reach_step spurious w w1 t b Hw Hstep).
Qed.

(** No step leads out of the worlds that the exploration found. *)
Lemma signalled_worlds_closed :
  forallb
    (fun w => forallb (fun v => world_mem v signalled_worlds) (successors w))
    signalled_worlds
  = true.
Proof. vm_compute. reflexivity. Qed.

Lemma step_in_successors (t : thread) (b : bool) (w w' : World) :
  thread_step false t b w = Some w' -> In w' (successors w).
Proof.
  intros Hstep. unfold successors. apply in_flat_map.
  exists (t, b). split.
  - destruct t, b; simpl; tauto.
  - cbn [fst snd]. rewrite Hstep. left. reflexivity.
Qed.

(** When waits end only on a signal, the exploration has found every world
    the three threads can reach. *)
Lemma reachable_signalled (w : World) :
  reachable false w -> In w signalled_worlds.
Proof.
  induction 1 as [| w w' t b Hreach IH Hstep].
  - apply world_mem_In. vm_compute. reflexivity.
  - pose proof signalled_worlds_closed as Hclosed.
    rewrite forallb_forall in Hclosed.
    specialize (Hclosed w IH). rewrite forallb_forall in Hclosed.
    apply world_mem_In, Hclosed.
    exact (step_in_successors t b w w' Hstep).
Qed.

Lemma signalled_worlds_ok : forallb handshake_ok signalled_worlds = true.
Proof. vm_compute. reflexivity. Qed.

(** With waits that end only on their signal the hand-shake is as the
    specification describes it: [countSync] stays within 0 and 2, the Swap
    thread exchanges the pointers only at [countSync = 2], and the exchange
    is followed, without any other thread moving in between, by the reset
    of [countSync] and the two signals. *)
Theorem handshake_when_waits_end_on_signal (w : World) :
  reachable false w ->
  0 <= countSync w <= COUNT_SYNC_MAX
  /\ (wpc w = W_exchange ->
      countSync w = COUNT_SYNC_MAX
      /\ exchange_then_reset_and_signals w = true).
Proof.
  intros Hreach. apply reachable_signalled in Hreach.
  pose proof signalled_worlds_ok as Hok.
  rewrite forallb_forall in Hok. specialize (Hok w Hreach).
  unfold handshake_ok, count_in_range in Hok.
  apply andb_prop in Hok. destruct Hok as [Hrange Hex].
  apply andb_prop in Hrange. destruct Hrange as [Hlo Hhi].
  split; [lia |].
  intros Hpc. rewrite Hpc in Hex.
  destruct (swap_pc_eq_dec W_exchange W_exchange) as [_ | Hne];
    [| contradiction].
  apply andb_prop in Hex. destruct Hex as [Hmax Hthen].
  split; [lia | exact Hthen].
Qed.

(** The first exchange of a run in which every wait ends on its signal. *)
Lemma handshake_when_waits_end_on_signal_witness :
  0 <= 2 <= COUNT_SYNC_MAX
  /\ (W_exchange = W_exchange ->
      2 = COUNT_SYNC_MAX
      /\ exchange_then_reset_and_signals
           (mkWorld 2 1 (Some TSwap) (Some TSwap) (Some TSwap) 0 1
                    R_blocked S0_lock W_exchange)
         = true).
Proof.
  apply (handshake_when_waits_end_on_signal
           (mkWorld 2 1 (Some TSwap) (Some TSwap) (Some TSwap) 0 1
                    R_blocked S0_lock W_exchange)).
  apply (run_schedule_reachable false first_exchange_schedule initial_world).
  - apply reach_start.
  - vm_compute. reflexivity.
Defined.

(** C9: [pthread_cond_wait] may return without a signal, and the Swap
    thread exchanges the pointers after every return of its wait without
    looking at [countSync] again.  Seven steps of the Swap thread lead from
    the start to an exchange at [countSync = 0]; in the same way the Reader,
    leaving its wait on [read_go_cv] unsignalled, counts a second frame
    boundary and brings [countSync] to 3. *)
Theorem spurious_wakeup_breaks_handshake :
  exists w1 w2,
    run_schedule true early_exchange_schedule initial_world = Some w1
    /\ reachable true w1
    /\ wpc w1 = W_exchange
    /\ countSync w1 = 0
    /\ run_schedule true double_count_schedule initial_world = Some w2
    /\ reachable true w2
    /\ countSync w2 = 3.
Proof.
  assert (H1 : run_schedule true early_exchange_schedule initial_world
               = Some (mkWorld 0 0 (Some TSwap) (Some TSwap) (Some TSwap) 0 1
                               R_resync S0_lock W_exchange))
    by (vm_compute; reflexivity).
  assert (H2 : run_schedule true double_count_schedule initial_world
               = Some (mkWorld 3 1 (Some TReader) None None 0 1
                               R_first S0_lock W_lock))
    by (vm_compute; reflexivity).
  eexists. eexists.
  split; [exact H1 |].
  split; [exact (run_schedule_reachable true _ _ _ (reach_start true) H1) |].
  split; [reflexivity |].
  split; [reflexivity |].
  split; [exact H2 |].
  split; [exact (run_schedule_reachable true _ _ _ (reach_start true) H2) |].
  reflexivity.
Qed.

(* ================================================================== *)
(** ** The Reader: what the window and the fill buffer hold *)

(** [isMagicWord] (lines 241-261) answers 1 exactly when the window and
    [magicWord] agree at each of the eight positions, and 0 otherwise. *)
Theorem isMagicWord_all_eight_agree (magicWord window : list byte) :
  (isMagicWord magicWord window = 1
   <-> forall i, (i < 8)%nat -> nth i window x00 = nth i magicWord x00)
  /\ (isMagicWord magicWord window = 0 \/ isMagicWord magicWord window = 1).
Proof.
  unfold isMagicWord, matching_positions. cbn [seq fold_left].
  destruct (Byte.eqb (nth 0 window x00) (nth 0 magicWord x00)) eqn:E0,
    (Byte.eqb (nth 1 window x00) (nth 1 magicWord x00)) eqn:E1,
    (Byte.eqb (nth 2 window x00) (nth 2 magicWord x00)) eqn:E2,
    (Byte.eqb (nth 3 window x00) (nth 3 magicWord x00)) eqn:E3,
    (Byte.eqb (nth 4 window x00) (nth 4 magicWord x00)) eqn:E4,
    (Byte.eqb (nth 5 window x00) (nth 5 magicWord x00)) eqn:E5,
    (Byte.eqb (nth 6 window x00) (nth 6 magicWord x00)) eqn:E6,
    (Byte.eqb (nth 7 window x00) (nth 7 magicWord x00)) eqn:E7;
    cbn; (split; [split | auto]); intros H; try discriminate;
    try (exfalso;
         match goal with
         | E : Byte.eqb _ _ = false |- _ =>
             apply Byte.eqb_false in E; apply E; apply H; lia
         end).
  - intros i Hi.
    do 8 (destruct i as [| i]; [now apply Byte.byte_dec_bl |]). lia.
  - reflexivity.
Qed.

(** Whatever the read delivers, a full window loses its oldest byte and
    gains one at position 7. *)
Lemma advance_pushes (w : list byte) (ev : option byte) :
  List.length w = 8%nat ->
  advance w ev = tl w ++ [nth 7 (advance w ev) x00].
Proof.
  intros H.
  repeat (destruct w as [| ? w]; simpl in H; try discriminate).
  destruct ev; reflexivity.
Qed.

Lemma window_of_push (p : list byte) (b : byte) :
  window_of (p ++ [b]) = tl (window_of p) ++ [b].
Proof.
  rewrite <- window_of_snoc. apply advance_full, window_of_length.
Qed.

(** A window that equals a magic word with a non-zero first byte is made
    of the last eight bytes of what was consumed. *)
Lemma window_of_magic_word (mw buf : list byte) :
  List.length mw = 8%nat -> nth 0 mw x00 <> x00 ->
  window_of buf = mw -> ends_with mw buf.
Proof.
  intros Hlen Hhead Hw.
  destruct (Nat.lt_ge_cases (List.length buf) 8) as [Hlt | Hge].
  - exfalso. apply Hhead. rewrite <- Hw. now apply window_of_short.
  - pose proof (window_of_firstn buf (List.length buf) ltac:(lia)) as H.
    rewrite firstn_all, Hw in H.
    exists (firstn (List.length buf - 8) buf).
    rewrite <- (firstn_skipn (List.length buf - 8) buf) at 1.
    f_equal. rewrite H. symmetry. apply firstn_all2.
    rewrite length_skipn. lia.
Qed.

Section MainLoop.

Variable magicWord : list byte.

(** The search for the first magic word (lines 162-174) consumes a prefix
    of the reads and touches neither the fill buffer nor
    [firstPacketReady]. *)
Lemma resync_splits (reads : list (option byte)) :
  forall r r' rest,
    resync magicWord r reads = Some (r', rest) ->
    exists consumed,
      reads = consumed ++ rest
      /\ nextBuf r' = nextBuf r
      /\ firstPacketReady r' = firstPacketReady r
      /\ isMagicWord magicWord (last8Bytes r') <> 0.
Proof.
  induction reads as [| ev reads IH]; intros r r' rest H; cbn [resync] in H;
    destruct (isMagicWord magicWord (last8Bytes r) =? 0) eqn:E;
    try discriminate.
  - injection H as <- <-. exists []. apply Z.eqb_neq in E. auto.
  - apply IH in H. destruct H as (consumed & -> & Hb & Hf & Hm).
    exists (ev :: consumed). auto.
  - injection H as <- <-. exists []. apply Z.eqb_neq in E. auto.
Qed.





Lemma fill_loop_later_increments (reads : list (option byte)) :
  forall r,
    firstPacketReady r <> 0 ->
    Forall (fun f => sync_increments f = 1)
           (fst (fill_loop magicWord reads r)).
Proof.
  induction reads as [| ev reads IH]; intros r Hr; cbn [fill_loop].
  - constructor.
  - destruct (isMagicWord magicWord (advance (last8Bytes r) ev) =? 0).
    + apply IH. exact Hr.
    + specialize (IH (mkReader zero_window [] 1) ltac:(discriminate)).
      destruct (fill_loop magicWord reads (mkReader zero_window [] 1))
        as [frames r'].
      cbn [fst] in *. constructor; [| exact IH].
      cbn. destruct (firstPacketReady r =? 0) eqn:E; [| reflexivity].
      apply Z.eqb_eq in E. contradiction.
Qed.

Lemma fill_loop_first_increment (reads : list (option byte)) :
  forall r,
    firstPacketReady r = 0 ->
    match fst (fill_loop magicWord reads r) with
    | [] => True
    | f :: later =>
        sync_increments f = 2
        /\ Forall (fun g => sync_increments g = 1) later
    end.
Proof.
  induction reads as [| ev reads IH]; intros r Hr; cbn [fill_loop].
  - exact I.
  - destruct (isMagicWord magicWord (advance (last8Bytes r) ev) =? 0).
    + apply IH. exact Hr.
    + pose proof (fill_loop_later_increments reads (mkReader zero_window [] 1)
                    ltac:(discriminate)) as Hlater.
      destruct (fill_loop magicWord reads (mkReader zero_window [] 1))
        as [frames r'].
      cbn [fst] in *. split; [| exact Hlater].
      cbn. rewrite Hr. reflexivity.
Qed.

(** [firstPacketReady] (lines 132, 208-212): at the first frame boundary
    of a run the Reader increments [countSync] twice, at every later one
    once. *)
Theorem first_boundary_counts_twice (reads : list (option byte)) :
  match fst (readIncomingData magicWord reads) with
  | [] => True
  | f :: later =>
      sync_increments f = 2
      /\ Forall (fun g => sync_increments g = 1) later
  end.
Proof.
  unfold readIncomingData.
  destruct (resync magicWord initial_reader reads) as [[r0 rest] |] eqn:Hres;
    [| exact I].
  destruct (resync_splits _ _ _ _ Hres) as (_ & _ & _ & Hfirst & _).
  pose proof (fill_loop_first_increment rest r0 Hfirst) as H.
  destruct (fill_loop magicWord rest r0) as [frames r1]. exact H.
Qed.

Hypothesis magicWord_length : List.length magicWord = 8%nat.
Hypothesis magicWord_head : nth 0 magicWord x00 <> x00.

Lemma fill_loop_tracked (reads : list (option byte)) :
  forall r,
    window_tracks_buffer r ->
    Forall (fun f => ends_with magicWord (frame_bytes f))
           (fst (fill_loop magicWord reads r)).
Proof.
  induction reads as [| ev reads IH]; intros r Hr; cbn [fill_loop].
  - constructor.
  - unfold window_tracks_buffer in Hr.
    assert (Hw : advance (last8Bytes r) ev
                 = window_of (nextBuf r
                              ++ [nth 7 (advance (last8Bytes r) ev) x00])).
    { rewrite window_of_push, <- Hr. apply advance_pushes.
      rewrite Hr. apply window_of_length. }
    destruct (isMagicWord magicWord (advance (last8Bytes r) ev) =? 0) eqn:E.
    + apply IH. exact Hw.
    + specialize (IH (mkReader zero_window [] 1) eq_refl).
      destruct (fill_loop magicWord reads (mkReader zero_window [] 1))
        as [frames r'].
      cbn [fst] in *. constructor; [| exact IH].
      cbn [frame_bytes].
      apply (window_of_magic_word magicWord); try assumption.
      transitivity (advance (last8Bytes r) ev); [symmetry; exact Hw |].
      apply Z.eqb_neq in E.
      rewrite (isMagicWord_full magicWord magicWord_length magicWord_head) in E
        by reflexivity.
      destruct (bytes_eqb (advance (last8Bytes r) ev) magicWord) eqn:Eb;
        [now apply bytes_eqb_eq | contradiction].
Qed.

Lemma fill_loop_later_frames (reads : list (option byte)) :
  forall r,
    Forall (fun f => ends_with magicWord (frame_bytes f))
           (tl (fst (fill_loop magicWord reads r))).
Proof.
  induction reads as [| ev reads IH]; intros r; cbn [fill_loop].
  - constructor.
  - destruct (isMagicWord magicWord (advance (last8Bytes r) ev) =? 0).
    + apply IH.
    + pose proof (fill_loop_tracked reads (mkReader zero_window [] 1) eq_refl)
        as H.
      destruct (fill_loop magicWord reads (mkReader zero_window [] 1))
        as [frames r']. exact H.
Qed.

(** The window is zeroed together with the fill buffer (lines 227-228), so
    from the second hand-over on a buffer is handed over only when its own
    last eight bytes are the magic word: it holds at least eight bytes and
    ends with the magic word, time-outs or not.  (The first buffer is filled
    while the window still holds the magic word of the search.) *)
Theorem later_frames_end_with_magic_word (reads : list (option byte)) :
  Forall (fun f => ends_with magicWord (frame_bytes f)
                   /\ (8 <= List.length (frame_bytes f))%nat)
         (tl (fst (readIncomingData magicWord reads))).
Proof.
  assert (H : Forall (fun f => ends_with magicWord (frame_bytes f))
                     (tl (fst (readIncomingData magicWord reads)))).
  { unfold readIncomingData.
    destruct (resync magicWord initial_reader reads) as [[r0 rest] |];
      [| constructor].
    pose proof (fill_loop_later_frames rest r0) as H.
    destruct (fill_loop magicWord rest r0) as [frames r1]. exact H. }
  eapply Forall_impl; [| exact H].
  intros f (front & Hf). split; [exists front; exact Hf |].
  rewrite Hf, length_app, magicWord_length. lia.
Qed.

End MainLoop.



(** The TI magic word and a stream of three frames. *)
Lemma later_frames_end_with_magic_word_witness :
  Forall (fun f => ends_with ti_magicWord (frame_bytes f)
                   /\ (8 <= List.length (frame_bytes f))%nat)
         (tl (fst (readIncomingData ti_magicWord
                     (map Some (ti_magicWord ++ single_point_frame
                                ++ no_object_frame ++ short_frame
                                ++ ti_magicWord))))).
Proof.
  apply (later_frames_end_with_magic_word ti_magicWord).
  - reflexivity.
  - discriminate.
Defined.

(* ================================================================== *)
(** ** The two buffers and their locks *)

Lemma signal_keeps_pointers (w : World) :
  (currentBufp (signal_countSync_max w) = currentBufp w
   /\ nextBufp (signal_countSync_max w) = nextBufp w)
  /\ (currentBufp (signal_read_go w) = currentBufp w
      /\ nextBufp (signal_read_go w) = nextBufp w)
  /\ (currentBufp (signal_sort_go w) = currentBufp w
      /\ nextBufp (signal_sort_go w) = nextBufp w).
Proof.
  unfold signal_countSync_max, signal_read_go, signal_sort_go.
  destruct (wpc w), (rpc w), (spc w); cbn; auto.
Qed.

(** The cases of a step: its tests, and its locks and unlocks, which go
    through only on a free mutex or on one the thread holds. *)
Ltac step_cases H :=
  repeat match type of H with
    | context [if ?c then _ else _] => destruct c; cbn in H
    | context [lock ?o _] => destruct o; cbn in H
    | context [unlock ?o _] => destruct o as [[] |]; cbn in H
    end;
  try discriminate; injection H as <-; cbn.

Lemma pointers_distinct_step (sp : bool) (t : thread) (b : bool) (w w' : World) :
  pointers_distinct w -> thread_step sp t b w = Some w' ->
  pointers_distinct w'.
Proof.
  unfold pointers_distinct. intros Hp Hstep.
  destruct (signal_keeps_pointers w) as ((Ha & Hb) & (Hc & Hd) & (He & Hf)).
  destruct t; cbn in Hstep;
    [ unfold readIncomingData_step in Hstep; destruct (rpc w)
    | unfold sortIncomingData_step in Hstep; destruct (spc w)
    | unfold syncedBufferSwap_step in Hstep; destruct (wpc w) ];
    cbn in Hstep; step_cases Hstep;
    rewrite ?Ha, ?Hb, ?Hc, ?Hd, ?He, ?Hf; tauto.
Qed.

Lemma buffer_locks_step (sp : bool) (t : thread) (b : bool) (w w' : World) :
  buffer_locks_agree w -> thread_step sp t b w = Some w' ->
  buffer_locks_agree w'.
Proof.
  destruct w as [cs fp mc mn mcur cb nb r s p].
  unfold buffer_locks_agree. cbn.
  intros (Hn & Hxn & Hc & Hxc) Hstep. subst mn mcur.
  destruct t.
  - destruct r, p; cbn in Hxn; try discriminate; cbn in Hstep;
      step_cases Hstep; auto.
  - destruct s, p; cbn in Hxc; try discriminate; cbn in Hstep;
      step_cases Hstep; auto.
  - destruct p; cbn in Hstep;
      try (destruct r, s; cbn in Hxn, Hxc; try discriminate; cbn in Hstep);
      step_cases Hstep; auto.
Qed.

Lemma buffers_invariant_step (sp : bool) (t : thread) (b : bool) (w w' : World) :
  buffers_invariant w -> thread_step sp t b w = Some w' ->
  buffers_invariant w'.
Proof.
  intros (Hl & Hp) Hstep. split.
  - exact (buffer_locks_step sp t b w w' Hl Hstep).
  - exact (pointers_distinct_step sp t b w w' Hp Hstep).
Qed.

Lemma reachable_buffers_invariant (sp : bool) (w : World) :
  reachable sp w -> buffers_invariant w.
Proof.
  induction 1 as [| w w' t b Hreach IH Hstep].
  - unfold buffers_invariant, buffer_locks_agree, pointers_distinct. cbn. tauto.
  - exact (buffers_invariant_step sp t b w w' IH Hstep).
Qed.



(** The buffer mutexes do their work in every schedule, spurious wake-ups
    included: while the Reader pushes onto or clears the fill buffer it
    holds [nextBufp_mutex], while the Sorter parses the drain buffer it
    holds [currentBufp_mutex], and when the Swap thread exchanges the
    pointers it holds both and neither worker is at a point where it uses
    its buffer. *)
Theorem exchange_holds_both_buffer_locks (sp : bool) (w : World) :
  reachable sp w ->
  (reader_uses_buffer (rpc w) = true -> nextBufp_mutex w = Some TReader)
  /\ (sorter_uses_buffer (spc w) = true -> currentBufp_mutex w = Some TSorter)
  /\ (wpc w = W_exchange ->
      nextBufp_mutex w = Some TSwap /\ currentBufp_mutex w = Some TSwap
      /\ reader_uses_buffer (rpc w) = false
      /\ sorter_uses_buffer (spc w) = false).
Proof.
  intros H.
  destruct (reachable_buffers_invariant sp w H) as ((Hn & Hxn & Hc & Hxc) & _).
  split; [| split].
  - intros Hr. rewrite Hn, Hr. reflexivity.
  - intros Hs. rewrite Hc, Hs. reflexivity.
  - intros Hpc. rewrite Hpc in *. cbn in *.
    rewrite andb_true_r in Hxn, Hxc. rewrite Hn, Hc, Hxn, Hxc. auto.
Qed.

(** The exchange a spurious wake-up of the Swap thread leads to: also
    there the Swap thread holds both buffer locks. *)
Lemma exchange_holds_both_buffer_locks_witness :
  (reader_uses_buffer R_resync = true ->
   Some TSwap = Some TReader)
  /\ (sorter_uses_buffer S0_lock = true -> Some TSwap = Some TSorter)
  /\ (W_exchange = W_exchange ->
      Some TSwap = Some TSwap /\ Some TSwap = Some TSwap
      /\ reader_uses_buffer R_resync = false
      /\ sorter_uses_buffer S0_lock = false).
Proof.
  apply (exchange_holds_both_buffer_locks true
           (mkWorld 0 0 (Some TSwap) (Some TSwap) (Some TSwap) 0 1
                    R_resync S0_lock W_exchange)).
  apply (run_schedule_reachable true early_exchange_schedule initial_world).
  - apply reach_start.
  - vm_compute. reflexivity.
Defined.

(* ================================================================== *)
(** ** A signal on [countSync_max_cv] that nobody waits for *)

Lemma stalled_step (sp : bool) (t : thread) (b : bool) (w w' : World) :
  stalled w = true -> thread_step sp t b w = Some w' ->
  stalled w' = true
  /\ currentBufp w' = currentBufp w /\ nextBufp w' = nextBufp w
  /\ countSync w <= countSync w'.
Proof.
  destruct w as [cs fp mc mn mcur cb nb r s p].
  unfold stalled, COUNT_SYNC_MAX. cbn.
  intros Hst Hstep. apply andb_prop in Hst. destruct Hst as [Hc Hp].
  apply Z.leb_le in Hc.
  destruct t.
  - destruct r, p; try discriminate; cbn in Hstep; step_cases Hstep;
      repeat split; try apply Z.leb_le; lia.
  - destruct s, p; try discriminate; cbn in Hstep; step_cases Hstep;
      repeat split; try apply Z.leb_le; lia.
  - destruct p; try discriminate.
    + cbn in Hstep. step_cases Hstep.
      repeat split; try apply Z.leb_le; lia.
    + cbv beta iota delta [thread_step syncedBufferSwap_step wpc countSync]
        in Hstep.
      replace (cs <? COUNT_SYNC_MAX) with false in Hstep
        by (symmetry; apply Z.ltb_ge; unfold COUNT_SYNC_MAX; lia).
      injection Hstep as <-. cbn.
      repeat split; try apply Z.leb_le; lia.
    + cbn in Hstep. step_cases Hstep.
      repeat split; try apply Z.leb_le; lia.
Qed.

(** The Swap thread exchanges the buffers only inside
    [while (countSync < COUNT_SYNC_MAX)] after a wait (lines 269-290), and
    only it resets [countSync].  Once [countSync] has reached
    [COUNT_SYNC_MAX] while the Swap thread is outside that loop (at line
    267, 269 or 292), the test of line 269 fails for ever: in no schedule,
    with or without spurious wake-ups, is there another exchange;
    [countSync] stays at or above [COUNT_SYNC_MAX] and the two pointers
    keep their values.  The signal of line 217 was given while nobody
    waited for it. *)
Theorem lost_signal_stalls_the_swap
    (sp : bool) (w w' : World) (sched : list (thread * bool)) :
  reachable sp w ->
  stalled w = true ->
  run_schedule sp sched w = Some w' ->
  reachable sp w'
  /\ COUNT_SYNC_MAX <= countSync w'
  /\ wpc w' <> W_exchange
  /\ currentBufp w' = currentBufp w /\ nextBufp w' = nextBufp w.
Proof.
  intros Hreach Hst Hrun.
  assert (H : stalled w' = true
              /\ currentBufp w' = currentBufp w /\ nextBufp w' = nextBufp w).
  { clear Hreach. revert w Hst Hrun.
    induction sched as [| [t b] rest IH]; intros w Hst Hrun; simpl in Hrun.
    - injection Hrun as <-. auto.
    - destruct (thread_step sp t b w) as [w1 |] eqn:Hstep; [| discriminate].
      destruct (stalled_step sp t b w w1 Hst Hstep) as (H1 & Hc & Hn & _).
      destruct (IH w1 H1 Hrun) as (H2 & Hc' & Hn').
      rewrite Hc', Hn', Hc, Hn. auto. }
  destruct H as (H & Hc & Hn).
  split; [exact (run_schedule_reachable sp sched w w' Hreach Hrun) |].
  unfold stalled in H. apply andb_prop in H. destruct H as [Hmax Hp].
  split; [now apply Z.leb_le |].
  split; [| auto].
  intros E. rewrite E in Hp. discriminate.
Qed.

(** The Reader completes its first frame before the Swap thread has
    started ([stalled_schedule]); then the Reader and the Sorter go to
    sleep and the Swap thread goes around its outer loop. *)
Lemma lost_signal_stalls_the_swap_witness :
  reachable false stalled_later_world
  /\ COUNT_SYNC_MAX <= countSync stalled_later_world
  /\ wpc stalled_later_world <> W_exchange
  /\ currentBufp stalled_later_world = currentBufp stalled_world
  /\ nextBufp stalled_later_world = nextBufp stalled_world.
Proof.
  apply (lost_signal_stalls_the_swap false stalled_world stalled_later_world
           stalled_later_schedule).
  - apply (run_schedule_reachable false stalled_schedule initial_world).
    + apply reach_start.
    + vm_compute. reflexivity.
  - vm_compute. reflexivity.
  - vm_compute. reflexivity.
Defined.

(* ================================================================== *)
(** ** All three threads blocked *)

Lemma nobody_can_move_spec (w : World) :
  nobody_can_move w = true <-> forall t b, thread_step false t b w = None.
Proof.
  unfold nobody_can_move. split.
  - intros H t b. destruct (thread_step false t b w) as [w' |] eqn:E;
      [| reflexivity].
    apply step_in_successors in E.
    destruct (successors w); [contradiction | discriminate].
  - intros H. unfold successors, all_moves. cbn [flat_map fst snd].
    now rewrite !H.
Qed.

Lemma missed_signal_world_only :
  forallb
    (fun w => implb (nobody_can_move w)
                    (if World_eq_dec w missed_signal_world then true else false))
    signalled_worlds
  = true.
Proof. vm_compute. reflexivity. Qed.

(** The Sorter's first wait (line 315) has no condition to test: when the
    Swap thread signals [sort_go_cv] for the first exchange before the
    Sorter waits, the Sorter sleeps through it.  With waits that end only
    on their signal this is a state the threads can reach, in it no thread
    can take another step - the Sorter waits for [sort_go_cv], the Reader,
    having counted its second frame, for [read_go_cv], the Swap thread for
    [countSync] to reach 2 - and it is the only reachable state in which
    all three are blocked. *)
Theorem all_blocked_only_after_missed_sort_go :
  run_schedule false missed_signal_schedule initial_world
  = Some missed_signal_world
  /\ reachable false missed_signal_world
  /\ (forall t b, thread_step false t b missed_signal_world = None)
  /\ (forall w,
         reachable false w ->
         (forall t b, thread_step false t b w = None) ->
         w = missed_signal_world).
Proof.
  assert (Hrun : run_schedule false missed_signal_schedule initial_world
                 = Some missed_signal_world) by (vm_compute; reflexivity).
  split; [exact Hrun |].
  split; [exact (run_schedule_reachable false _ _ _ (reach_start false) Hrun) |].
  split.
  - apply nobody_can_move_spec. vm_compute. reflexivity.
  - intros w Hreach Hblocked.
    apply nobody_can_move_spec in Hblocked.
    pose proof missed_signal_world_only as Hall.
    rewrite forallb_forall in Hall.
    specialize (Hall w (reachable_signalled w Hreach)).
    rewrite Hblocked in Hall. cbn [implb] in Hall.
    destruct (World_eq_dec w missed_signal_world) as [E | _];
      [exact E | discriminate].
Qed.

(* ================================================================== *)
(** ** Frames the Sorter parses to their end *)

Lemma byte_val_byte_of_Z (z : Z) : byte_val (byte_of_Z z) = z mod 256.
Proof.
  unfold byte_val, byte_of_Z.
  pose proof (Z.mod_pos_bound z 256 ltac:(lia)) as Hb.
  destruct (Byte.of_N (Z.to_N (z mod 256))) eqn:E.
  - apply Byte.to_of_N in E. rewrite E. apply Z2N.id. lia.
  - apply Byte.of_N_None_iff in E. lia.
Qed.

Lemma le_bytes_length (n : nat) (v : Z) : List.length (le_bytes n v) = n.
Proof. revert v. induction n as [| n IH]; intros v; cbn; [| rewrite IH]; reflexivity. Qed.

Lemma le_value_le_bytes (n : nat) (v : Z) :
  le_value (le_bytes n v) = v mod 256 ^ Z.of_nat n.
Proof.
  revert v. induction n as [| n IH]; intros v; cbn [le_bytes le_value].
  - cbn. now rewrite Z.mod_1_r.
  - rewrite byte_val_byte_of_Z, IH, Nat2Z.inj_succ, Z.pow_succ_r by lia.
    symmetry. apply Z.rem_mul_r; [lia |]. apply Z.pow_pos_nonneg; lia.
Qed.

Lemma le_value_u32le (v : Z) : u32_range v = true -> le_value (u32le v) = v.
Proof.
  unfold u32_range, u32le. intros H. apply andb_prop in H.
  rewrite le_value_le_bytes. apply Z.mod_small.
  change (256 ^ Z.of_nat 4) with (2 ^ 32). lia.
Qed.

Lemma le_value_u16le (v : Z) : 0 <= v < 65536 -> le_value (u16le v) = v.
Proof.
  unfold u16le. intros H. rewrite le_value_le_bytes. apply Z.mod_small.
  change (256 ^ Z.of_nat 2) with 65536. lia.
Qed.

Lemma int16_u16le (v : Z) :
  -32768 <= v < 32768 -> int16 (le_value (u16le v)) = v.
Proof.
  unfold u16le. intros H. rewrite le_value_le_bytes.
  change (256 ^ Z.of_nat 2) with 65536. unfold int16.
  destruct (Z.ltb_spec v 0) as [Hneg | Hpos].
  - replace (v mod 65536) with (v + 65536).
    + destruct (Z.ltb_spec (v + 65536) 32768); lia.
    + apply Z.mod_unique with (-1); lia.
  - rewrite Z.mod_small by lia. destruct (Z.ltb_spec v 32768); lia.
Qed.

Lemma cursor_at_bounds (buf : list byte) (c : Z) (rest : list byte) :
  cursor_at buf c rest -> 0 <= c /\ c + vsize rest = vsize buf.
Proof.
  intros [Hc Hs]. split; [lia |].
  assert (Hl : List.length (skipn (Z.to_nat c) buf) = List.length rest)
    by now rewrite Hs.
  rewrite length_skipn in Hl. unfold vsize in *. lia.
Qed.

Lemma vsize_app (a b : list byte) : vsize (a ++ b) = vsize a + vsize b.
Proof. unfold vsize. rewrite length_app. lia. Qed.

Lemma vsize_nonneg (a : list byte) : 0 <= vsize a.
Proof. unfold vsize. lia. Qed.

(** Stepping over [bs]: the cursor does not wrap around. *)
Lemma cursor_at_advance (buf : list byte) (c : Z) (bs rest : list byte) :
  vsize buf < 2 ^ 32 ->
  cursor_at buf c (bs ++ rest) ->
  u32_add c (vsize bs) = c + vsize bs /\ cursor_at buf (c + vsize bs) rest.
Proof.
  intros Hsize Hcur.
  destruct (cursor_at_bounds _ _ _ Hcur) as [Hc Hb].
  destruct Hcur as [_ Hs]. rewrite vsize_app in Hb.
  pose proof (vsize_nonneg bs). pose proof (vsize_nonneg rest).
  split; [| split].
  - unfold u32_add. apply Z.mod_small. lia.
  - lia.
  - unfold vsize.
    replace (Z.to_nat (c + Z.of_nat (List.length bs)))
      with (List.length bs + Z.to_nat c)%nat by lia.
    rewrite <- skipn_skipn, Hs.
    rewrite skipn_app, skipn_all, Nat.sub_diag. reflexivity.
Qed.

Lemma memcpy_at_cursor (n : nat) (buf : list byte) (c : Z) (bs rest : list byte) :
  (0 < n)%nat -> List.length bs = n -> vsize buf < 2 ^ 32 ->
  cursor_at buf c (bs ++ rest) ->
  memcpy_at n buf c = Ok (le_value bs)
  /\ u32_add c (Z.of_nat n) = c + Z.of_nat n
  /\ cursor_at buf (c + Z.of_nat n) rest.
Proof.
  intros Hn Hlen Hsize Hcur.
  destruct (cursor_at_advance _ _ _ _ Hsize Hcur) as [Hadd Hnext].
  destruct (cursor_at_bounds _ _ _ Hcur) as [Hc Hb].
  rewrite vsize_app in Hb. pose proof (vsize_nonneg rest).
  unfold vsize in Hadd, Hnext, Hb. rewrite Hlen in Hadd, Hnext, Hb.
  split; [| auto].
  rewrite memcpy_at_ok by (unfold vsize; lia). rewrite (proj2 Hcur).
  rewrite <- Hlen, <- (Nat.add_0_r (List.length bs)), firstn_app_2.
  cbn. now rewrite app_nil_r.
Qed.

Lemma memcpy4_cursor (buf : list byte) (c v : Z) (rest : list byte) :
  vsize buf < 2 ^ 32 -> cursor_at buf c (u32le v ++ rest) ->
  memcpy_at 4 buf c = Ok (v mod 2 ^ 32)
  /\ u32_add c 4 = c + 4
  /\ cursor_at buf (c + 4) rest.
Proof.
  intros Hsize Hcur.
  destruct (memcpy_at_cursor 4 buf c (u32le v) rest) as (H1 & H2 & H3);
    auto using le_bytes_length.
  unfold u32le in H1. rewrite le_value_le_bytes in H1. auto.
Qed.

Lemma memcpy2_cursor (buf : list byte) (c v : Z) (rest : list byte) :
  vsize buf < 2 ^ 32 -> cursor_at buf c (u16le v ++ rest) ->
  memcpy_at 2 buf c = Ok (v mod 65536)
  /\ u32_add c 2 = c + 2
  /\ cursor_at buf (c + 2) rest.
Proof.
  intros Hsize Hcur.
  destruct (memcpy_at_cursor 2 buf c (u16le v) rest) as (H1 & H2 & H3);
    auto using le_bytes_length.
  unfold u16le in H1. rewrite le_value_le_bytes in H1. auto.
Qed.

Lemma u32_range_mod (v : Z) : u32_range v = true -> v mod 2 ^ 32 = v.
Proof.
  unfold u32_range. intros H. apply andb_prop in H.
  apply Z.mod_small. lia.
Qed.

Lemma header_bytes_length (h : FrameHeader) (with_sub : bool) :
  vsize (header_bytes h with_sub) = if with_sub then 32 else 28.
Proof.
  unfold vsize, header_bytes, u32le.
  rewrite !length_app, !le_bytes_length. destruct with_sub; reflexivity.
Qed.

Lemma cursor_at_start (buf : list byte) : cursor_at buf 0 buf.
Proof. split; [pose proof (vsize_nonneg buf); lia | reflexivity]. Qed.

Ltac read4 Hcur Hsize :=
  let H1 := fresh "Hread" in
  let H2 := fresh "Hadd" in
  let H3 := fresh "Hcur" in
  destruct (memcpy4_cursor _ _ _ _ Hsize Hcur) as (H1 & H2 & H3);
  rewrite H1, ?H2; cbn [bind]; clear Hcur H1 H2; rename H3 into Hcur.

Lemma read_header_decodes (h : FrameHeader) (rest : list byte) (s : Sorter) :
  header_in_range h = true ->
  vsize (header_bytes h (has_subFrameNumber h) ++ rest) < 2 ^ 32 ->
  currentDatap s = 0 ->
  exists s',
    read_header (header_bytes h (has_subFrameNumber h) ++ rest) s = Ok s'
    /\ header s' = decoded_header h (header s)
    /\ currentDatap s' = (if has_subFrameNumber h then 32 else 28)
    /\ cursor_at (header_bytes h (has_subFrameNumber h) ++ rest)
                 (currentDatap s') rest
    /\ headerSize s' = expected_headerSize (version h) (platform h)
    /\ sorterState s'
       = (if totalPacketLen h
             =? vsize (header_bytes h (has_subFrameNumber h) ++ rest) - 4
          then CHECK_TLV_TYPE else SWAP_BUFFERS)
    /\ tlvCount s' = tlvCount s.
Proof.
  intros Hrange Hsize Hc0.
  unfold header_in_range in Hrange.
  do 7 (apply andb_prop in Hrange; destruct Hrange as [Hrange ?]).
  repeat match goal with
         | H : u32_range _ = true |- _ => apply u32_range_mod in H
         end.
  set (buf := header_bytes h (has_subFrameNumber h) ++ rest) in *.
  assert (Hlen : vsize buf
                 = (if has_subFrameNumber h then 32 else 28) + vsize rest).
  { unfold buf. now rewrite vsize_app, header_bytes_length. }
  assert (Hrest : 0 <= vsize rest) by (unfold vsize; lia).
  pose proof (cursor_at_start buf) as Hcur.
  unfold buf at 2 in Hcur. unfold header_bytes in Hcur.
  rewrite <- !app_assoc in Hcur.
  unfold read_header. rewrite Hc0.
  destruct (Z.ltb_spec (vsize buf) 12) as [Hlt | _];
    [destruct (has_subFrameNumber h); lia |].
  cbv zeta.
  read4 Hcur Hsize. read4 Hcur Hsize. read4 Hcur Hsize.
  rewrite Hrange, H5, H4.
  destruct (Z.ltb_spec (vsize buf) (expected_headerSize (version h) (platform h)))
    as [Hlt | _].
  { exfalso. unfold expected_headerSize, has_subFrameNumber in *.
    destruct (_ || _); [destruct (negb _); lia |].
    destruct (platform_low16 (platform h) =? 5187); cbn [negb] in *; lia. }
  read4 Hcur Hsize. read4 Hcur Hsize. read4 Hcur Hsize. read4 Hcur Hsize.
  rewrite H3, H2, H1, H0.
  unfold has_subFrameNumber in *.
  destruct (negb (platform_low16 (platform h) =? 5187)) eqn:Esub.
  - read4 Hcur Hsize. rewrite H. cbn [fst snd].
    destruct (totalPacketLen h =? vsize buf - 4);
      (eexists; split; [reflexivity |]);
      (split;
       [unfold decoded_header, has_subFrameNumber; rewrite Esub; reflexivity |]);
      (split; [reflexivity |]); (split; [exact Hcur |]);
      (split; [reflexivity |]); split; reflexivity.
  - cbn [bind fst snd].
    destruct (totalPacketLen h =? vsize buf - 4);
      (eexists; split; [reflexivity |]);
      (split;
       [unfold decoded_header, has_subFrameNumber; rewrite Esub; reflexivity |]);
      (split; [reflexivity |]); (split; [exact Hcur |]);
      (split; [reflexivity |]); split; reflexivity.
Qed.

(** READ_HEADER reads back what [header_bytes] wrote: every word of a
    header that lies at the start of the drain buffer, with
    [subFrameNumber] exactly when the platform is not 0x1443, arrives in
    [mmwData.header] unchanged (without that word [subFrameNumber] keeps
    its old value); the cursor ends on the first byte behind the header;
    and the Sorter goes on to CHECK_TLV_TYPE when [totalPacketLen] is the
    buffer size less four, and to SWAP_BUFFERS otherwise. *)
Theorem read_header_round_trip
    (h : FrameHeader) (rest : list byte) (s : Sorter) :
  header_in_range h = true ->
  vsize (header_bytes h (has_subFrameNumber h) ++ rest) < 2 ^ 32 ->
  currentDatap s = 0 ->
  exists s',
    read_header (header_bytes h (has_subFrameNumber h) ++ rest) s = Ok s'
    /\ header s' = decoded_header h (header s)
    /\ currentDatap s' = vsize (header_bytes h (has_subFrameNumber h))
    /\ sorterState s'
       = (if totalPacketLen h
             =? vsize (header_bytes h (has_subFrameNumber h) ++ rest) - 4
          then CHECK_TLV_TYPE else SWAP_BUFFERS).
Proof.
  intros Hrange Hsize Hc.
  destruct (read_header_decodes h rest s Hrange Hsize Hc)
    as (s' & Hread & Hh & Hcur & _ & _ & Hst & _).
  exists s'. split; [exact Hread |]. split; [exact Hh |].
  split; [| exact Hst].
  rewrite header_bytes_length. exact Hcur.
Qed.

(** The header of an xWR1642 frame in front of eight more bytes, whose
    length word does not fit: the header is decoded and the frame
    dropped. *)
Lemma read_header_round_trip_witness :
  exists s',
    read_header (header_bytes mixed_header (has_subFrameNumber mixed_header)
                 ++ ti_magicWord) initial_sorter = Ok s'
    /\ header s' = decoded_header mixed_header (header initial_sorter)
    /\ currentDatap s'
       = vsize (header_bytes mixed_header (has_subFrameNumber mixed_header))
    /\ sorterState s'
       = (if totalPacketLen mixed_header
             =? vsize (header_bytes mixed_header
                         (has_subFrameNumber mixed_header) ++ ti_magicWord) - 4
          then CHECK_TLV_TYPE else SWAP_BUFFERS).
Proof.
  apply (read_header_round_trip mixed_header ti_magicWord initial_sorter).
  - vm_compute. reflexivity.
  - vm_compute. reflexivity.
  - reflexivity.
Defined.

Lemma int16_mod (v : Z) : int16_range v = true -> int16 (v mod 65536) = v.
Proof.
  unfold int16_range. intros H. apply andb_prop in H.
  rewrite <- (int16_u16le v) at 2 by lia.
  unfold u16le. now rewrite le_value_le_bytes.
Qed.

Ltac read2 Hcur Hsize :=
  let H1 := fresh "Hread" in
  let H2 := fresh "Hadd" in
  let H3 := fresh "Hcur" in
  destruct (memcpy2_cursor _ _ _ _ Hsize Hcur) as (H1 & H2 & H3);
  rewrite H1, ?H2; cbn [bind]; clear Hcur H1 H2; rename H3 into Hcur.

(** CHECK_TLV_TYPE in front of a TLV header. *)
Lemma check_tlv_type_reads (msg_max : Z) (buf : list byte) (s : Sorter)
      (ty len : Z) (rest : list byte) :
  vsize buf < 2 ^ 32 ->
  cursor_at buf (currentDatap s) (u32le ty ++ u32le len ++ rest) ->
  tlvCount s < numTLVs (header s) ->
  tlvCount s < 2 ^ 31 - 1 ->
  exists s',
    check_tlv_type msg_max buf s = Ok s'
    /\ tlvType s' = ty mod 2 ^ 32
    /\ tlvLen s' = len mod 2 ^ 32
    /\ cursor_at buf (currentDatap s') rest
    /\ tlvCount s' = tlvCount s + 1
    /\ header s' = header s
    /\ sorterState s' = dispatch_tlv msg_max (ty mod 2 ^ 32) (sorterState s)
    /\ RScan s' = RScan s.
Proof.
  intros Hsize Hcur Hcount Hmax.
  unfold check_tlv_type.
  destruct (Z.eqb_spec (tlvCount s) (2 ^ 31 - 1)) as [E | _]; [lia |].
  destruct (Z.leb_spec (numTLVs (header s)) (tlvCount s)) as [E | _]; [lia |].
  cbv zeta. read4 Hcur Hsize. read4 Hcur Hsize.
  eexists. split; [reflexivity |].
  split; [reflexivity |]. split; [reflexivity |]. split; [exact Hcur |].
  split; [reflexivity |]. split; [reflexivity |]. split; reflexivity.
Qed.

(** CHECK_TLV_TYPE behind the last TLV the header announced. *)
Lemma check_tlv_type_done (msg_max : Z) (buf : list byte) (s : Sorter) :
  numTLVs (header s) <= tlvCount s ->
  tlvCount s < 2 ^ 31 - 1 ->
  check_tlv_type msg_max buf s
  = Ok (set_state (set_tlvCount s (tlvCount s + 1)) SWAP_BUFFERS).
Proof.
  intros Hcount Hmax. unfold check_tlv_type.
  destruct (Z.eqb_spec (tlvCount s) (2 ^ 31 - 1)) as [E | _]; [lia |].
  destruct (Z.leb_spec (numTLVs (header s)) (tlvCount s)) as [_ | E]; [| lia].
  reflexivity.
Qed.

(** A state that skips its payload, in front of that payload. *)
Lemma skip_payload_steps_over (buf : list byte) (s : Sorter)
      (payload rest : list byte) :
  vsize buf < 2 ^ 32 ->
  cursor_at buf (currentDatap s) (payload ++ rest) ->
  tlvLen s = vsize payload ->
  1 <= vsize payload <= 2 ^ 31 - 1 ->
  exists s',
    skip_payload s = Ok s'
    /\ cursor_at buf (currentDatap s') rest
    /\ sorterState s' = CHECK_TLV_TYPE
    /\ tlvCount s' = tlvCount s
    /\ header s' = header s
    /\ RScan s' = RScan s.
Proof.
  intros Hsize Hcur Hlen Hrange. unfold skip_payload. rewrite Hlen.
  destruct (cursor_at_advance _ _ _ _ Hsize Hcur) as [Hadd Hnext].
  destruct (Z.leb_spec 1 (vsize payload)); [| lia].
  destruct (Z.leb_spec (vsize payload) (2 ^ 31 - 1)); [| lia].
  cbn [andb]. rewrite Hadd.
  eexists. split; [reflexivity |]. split; [exact Hnext |].
  repeat split.
Qed.

Lemma read_object_decodes (buf : list byte) (c : Z) (o : DetectedObj)
      (rest : list byte) :
  vsize buf < 2 ^ 32 ->
  cursor_at buf c (object_bytes o ++ rest) ->
  obj_in_range o = true ->
  read_object buf c = Ok (o, c + 12) /\ cursor_at buf (c + 12) rest.
Proof.
  intros Hsize Hcur Hrange.
  unfold obj_in_range in Hrange.
  do 5 (apply andb_prop in Hrange; destruct Hrange as [Hrange ?]).
  repeat match goal with
         | H : int16_range _ = true |- _ => apply int16_mod in H
         end.
  unfold object_bytes in Hcur. rewrite <- !app_assoc in Hcur.
  unfold read_object. cbv zeta.
  read2 Hcur Hsize. read2 Hcur Hsize. read2 Hcur Hsize.
  read2 Hcur Hsize. read2 Hcur Hsize. read2 Hcur Hsize.
  rewrite Hrange, H3, H2, H1, H0, H.
  replace (c + 2 + 2 + 2 + 2 + 2 + 2) with (c + 12) in * by lia.
  split; [| exact Hcur]. destruct o; reflexivity.
Qed.

Section DetectedObjects.

Variable cfg : RadarConfig.
Variable tan_deg : Z -> f32.
Variable ten_log10 : f32 -> f32.

Lemma convert_object_ok (q : Z) (o : DetectedObj) :
  q <= 30 -> exists p, convert_object cfg ten_log10 q o = Ok p.
Proof.
  intros Hq. unfold convert_object, pow2_int.
  destruct (Z.leb_spec q 30); [| lia]. cbn [bind]. eexists. reflexivity.
Qed.

(** The loop over the detected objects, in front of their records: the
    cursor ends behind them, and the points below [numObjOut] are the
    points kept before followed by the kept ones among the new. *)
Lemma object_loop_reads (buf : list byte) :
  vsize buf < 2 ^ 32 ->
  forall (objs : list DetectedObj) (fuel : nat) (s : Sorter)
         (rest : list byte),
    (List.length objs <= fuel)%nat ->
    cursor_at buf (currentDatap s) (flat_map object_bytes objs ++ rest) ->
    forallb obj_in_range objs = true ->
    xyzQFormat s <= 30 ->
    0 <= loop_i s ->
    numObjOut s = loop_i s + Z.of_nat (List.length objs) ->
    numObjOut s <= Z.of_nat (List.length (points (RScan s))) ->
    exists s',
      object_loop cfg ten_log10 fuel buf s = Ok s'
      /\ cursor_at buf (currentDatap s') rest
      /\ firstn (Z.to_nat (numObjOut s')) (points (RScan s'))
         = firstn (Z.to_nat (loop_i s)) (points (RScan s))
           ++ kept_points cfg ten_log10 (maxElevationAngleRatioSquared s)
                          (maxAzimuthAngleRatio s) (xyzQFormat s) objs
      /\ loop_i s <= numObjOut s'
         <= Z.of_nat (List.length (points (RScan s')))
      /\ frame_id (RScan s') = frame_id (RScan s)
      /\ height (RScan s') = height (RScan s)
      /\ is_dense (RScan s') = is_dense (RScan s)
      /\ tlvCount s' = tlvCount s
      /\ header s' = header s
      /\ sorterState s' = sorterState s.
Proof.
  intros Hsize objs.
  induction objs as [| o objs IH]; intros fuel s rest Hfuel Hcur Hin Hq Hi Hn Hpts.
  - exists s. cbn [List.length] in Hn.
    assert (Hstop : object_loop cfg ten_log10 fuel buf s = Ok s).
    { destruct fuel as [| fuel]; [reflexivity |]. cbn [object_loop].
      destruct (Z.ltb_spec (loop_i s) (numObjOut s)); [lia | reflexivity]. }
    split; [exact Hstop |]. split; [exact Hcur |].
    split; [cbn; rewrite app_nil_r; f_equal; lia |].
    split; [lia |]. repeat split.
  - destruct fuel as [| fuel]; [cbn in Hfuel; lia |].
    cbn [List.length] in Hn, Hfuel. cbn [forallb] in Hin.
    apply andb_prop in Hin. destruct Hin as [Ho Hin].
    cbn [flat_map] in Hcur. rewrite <- app_assoc in Hcur.
    destruct (read_object_decodes buf _ o _ Hsize Hcur Ho) as [Hread Hnext].
    destruct (convert_object_ok (xyzQFormat s) o Hq) as [p Hp].
    cbn [object_loop].
    destruct (Z.ltb_spec (loop_i s) (numObjOut s)) as [_ | Hge]; [| lia].
    unfold object_pass. rewrite Hread. cbn [bind fst snd]. rewrite Hp.
    cbn [bind]. cbn [kept_points flat_map]. rewrite Hp.
    assert (Hidx : (Z.to_nat (loop_i s) < List.length (points (RScan s)))%nat)
      by lia.
    destruct (keep_point (maxElevationAngleRatioSquared s)
                         (maxAzimuthAngleRatio s) p) eqn:Hkeep.
    + match goal with
      | |- exists s', bind (Ok ?s1) _ = _ /\ _ =>
          destruct (IH fuel s1 rest) as (s' & Hloop & Hc' & Hf' & Hr' & Hrest')
      end.
      * lia.
      * exact Hnext.
      * exact Hin.
      * exact Hq.
      * cbn. lia.
      * cbn. lia.
      * cbn. rewrite store_point_length. lia.
      * exists s'. cbn [bind]. split; [exact Hloop |].
        split; [exact Hc' |].
        cbn in Hf', Hr', Hrest'.
        split.
        { rewrite Hf'. cbn [kept_points].
          replace (Z.to_nat (loop_i s + 1)) with (S (Z.to_nat (loop_i s)))
            by lia.
          rewrite store_point_at by exact Hidx.
          rewrite <- app_assoc. reflexivity. }
        split; [lia |]. exact Hrest'.
    + match goal with
      | |- exists s', bind (Ok ?s1) _ = _ /\ _ =>
          destruct (IH fuel s1 rest) as (s' & Hloop & Hc' & Hf' & Hr' & Hrest')
      end.
      * lia.
      * exact Hnext.
      * exact Hin.
      * exact Hq.
      * cbn. lia.
      * cbn. lia.
      * cbn. rewrite store_point_length. lia.
      * exists s'. cbn [bind]. split; [exact Hloop |].
        split; [exact Hc' |].
        cbn in Hf', Hr', Hrest'.
        split.
        { rewrite Hf'. cbn [kept_points].
          rewrite store_point_below. reflexivity. }
        split; [lia |]. exact Hrest'.
Qed.

(** READ_OBJ_STRUCT in front of a detected-objects payload of which at
    least one point is kept. *)
Lemma read_obj_struct_decodes (buf : list byte) (s : Sorter) (q : Z)
      (objs : list DetectedObj) (rest : list byte) :
  vsize buf < 2 ^ 32 ->
  cursor_at buf (currentDatap s) (objects_payload q objs ++ rest) ->
  0 <= q <= 30 ->
  Z.of_nat (List.length objs) < 65536 ->
  forallb obj_in_range objs = true ->
  kept_points cfg ten_log10 (elevation_ratio_squared cfg tan_deg)
              (azimuth_ratio cfg tan_deg) q objs <> [] ->
  exists s',
    read_obj_struct cfg tan_deg ten_log10 buf s
    = Ok (s', published_cloud
                (kept_points cfg ten_log10
                   (elevation_ratio_squared cfg tan_deg)
                   (azimuth_ratio cfg tan_deg) q objs))
    /\ cursor_at buf (currentDatap s') rest
    /\ sorterState s' = CHECK_TLV_TYPE
    /\ tlvCount s' = tlvCount s
    /\ header s' = header s.
Proof.
  intros Hsize Hcur Hq Hn Hin Hkept.
  unfold objects_payload in Hcur. rewrite <- !app_assoc in Hcur.
  unfold read_obj_struct. cbv zeta.
  read2 Hcur Hsize. read2 Hcur Hsize.
  rewrite (Z.mod_small q) by lia.
  rewrite (Z.mod_small (Z.of_nat (List.length objs))) by lia.
  rewrite Nat2Z.id.
  match goal with
  | |- exists s', bind (object_loop _ _ _ _ ?s1) _ = _ /\ _ =>
      destruct (object_loop_reads buf Hsize objs (List.length objs) s1 rest)
        as (s2 & Hloop & Hc2 & Hf2 & Hr2 & Hid & Hh & Hd & Ht & Hhd & Hst)
  end.
  - lia.
  - exact Hcur.
  - exact Hin.
  - cbn. lia.
  - cbn. lia.
  - cbn. lia.
  - cbn. rewrite resize_points_length. lia.
  - rewrite Hloop. cbn [bind]. cbn in Hf2, Hr2, Hid, Hh, Hd, Ht, Hhd, Hst.
    rewrite Hh, Hid, Hd, Z.mul_1_r.
    rewrite resize_points_shrink by lia. rewrite Hf2.
    assert (Hw : numObjOut s2
                 = Z.of_nat (List.length
                     (kept_points cfg ten_log10
                        (elevation_ratio_squared cfg tan_deg)
                        (azimuth_ratio cfg tan_deg) q objs))).
    { rewrite <- Hf2, length_firstn. lia. }
    rewrite Hw.
    destruct (kept_points cfg ten_log10 (elevation_ratio_squared cfg tan_deg)
                (azimuth_ratio cfg tan_deg) q objs) as [| p kept] eqn:Ek;
      [contradiction |].
    cbn [points].
    eexists. split; [reflexivity |]. split; [exact Hc2 |].
    split; [reflexivity |]. split; [exact Ht | exact Hhd].
Qed.

End DetectedObjects.

Lemma tlv_encode_length (t : Tlv) : 8 <= vsize (tlv_encode t).
Proof.
  destruct t; unfold tlv_encode, tlv_bytes, u32le;
    rewrite !vsize_app; unfold vsize at 1 2; rewrite !le_bytes_length;
    match goal with
    | |- context [vsize ?l] => pose proof (vsize_nonneg l)
    end; lia.
Qed.

Lemma tlvs_encode_length (tlvs : list Tlv) :
  8 * Z.of_nat (List.length tlvs) <= vsize (flat_map tlv_encode tlvs).
Proof.
  induction tlvs as [| t tlvs IH]; cbn [flat_map List.length].
  - cbn. lia.
  - rewrite vsize_app. pose proof (tlv_encode_length t). lia.
Qed.

Section ParsedFrames.

Variable cfg : RadarConfig.
Variable tan_deg : Z -> f32.
Variable ten_log10 : f32 -> f32.
Variable msg_max : Z.

Local Abbreviation run := (sortIncomingData cfg tan_deg ten_log10 msg_max).
Local Abbreviation step := (sortIncomingData_pass cfg tan_deg ten_log10 msg_max).
Local Abbreviation wf := (tlv_well_formed cfg tan_deg ten_log10).
Local Abbreviation clouds := (tlv_clouds cfg tan_deg ten_log10).

Lemma dispatch_tlv_skipped (ty : Z) (current : SorterState) :
  2 <= ty <= 6 ->
  In (dispatch_tlv msg_max ty current)
     [READ_LOG_MAG_RANGE; READ_NOISE; READ_AZIMUTH; READ_DOPPLER; READ_STATS].
Proof.
  intros H.
  assert (Hty : ty = 2 \/ ty = 3 \/ ty = 4 \/ ty = 5 \/ ty = 6) by lia.
  destruct Hty as [-> | [-> | [-> | [-> | ->]]]]; cbn; tauto.
Qed.

Lemma step_skip (buf : list byte) (s : Sorter) :
  In (sorterState s)
     [READ_LOG_MAG_RANGE; READ_NOISE; READ_AZIMUTH; READ_DOPPLER; READ_STATS] ->
  sorterState s <> SWAP_BUFFERS
  /\ step buf s = (s' <- skip_payload s ;; Ok (s', [])).
Proof.
  unfold sortIncomingData_pass. cbn [In].
  intros [E | [E | [E | [E | [E | []]]]]]; rewrite <- E;
    (split; [discriminate | reflexivity]).
Qed.

(** From CHECK_TLV_TYPE in front of well-formed TLVs, as many as the
    header still announces, to SWAP_BUFFERS. *)
Lemma tlvs_parsed (buf : list byte) (trailer : list byte) :
  vsize buf < 2 ^ 32 ->
  forall (tlvs : list Tlv) (passes : nat) (s : Sorter),
    sorterState s = CHECK_TLV_TYPE ->
    cursor_at buf (currentDatap s) (flat_map tlv_encode tlvs ++ trailer) ->
    0 <= tlvCount s ->
    numTLVs (header s) = tlvCount s + Z.of_nat (List.length tlvs) ->
    numTLVs (header s) < 2 ^ 31 - 1 ->
    forallb wf tlvs = true ->
    (2 * List.length tlvs + 1 <= passes)%nat ->
    exists s',
      run passes buf s = (flat_map clouds tlvs, AtSwap, s')
      /\ cursor_at buf (currentDatap s') trailer
      /\ header s' = header s.
Proof.
  intros Hsize tlvs.
  induction tlvs as [| t tlvs IH];
    intros passes s Hst Hcur Hc0 Hn Hmax Hwf Hpasses.
  - destruct passes as [| p]; [cbn in Hpasses; lia |].
    cbn [List.length] in Hn.
    assert (Hstep : step buf s
                    = Ok (set_state (set_tlvCount s (tlvCount s + 1))
                                    SWAP_BUFFERS, [])).
    { unfold sortIncomingData_pass. rewrite Hst.
      rewrite check_tlv_type_done by lia. reflexivity. }
    rewrite (sortIncomingData_next _ _ _ _ p buf s _ _
               ltac:(rewrite Hst; discriminate) Hstep).
    rewrite sortIncomingData_at_swap by reflexivity.
    eexists. split; [reflexivity |]. split; [exact Hcur | reflexivity].
  - destruct passes as [| [| p]]; cbn [List.length] in Hpasses, Hn; try lia.
    cbn [forallb] in Hwf. apply andb_prop in Hwf. destruct Hwf as [Ht Hwf].
    cbn [flat_map] in Hcur |- *. rewrite <- app_assoc in Hcur.
    destruct t as [ty payload | q objs]; cbn [tlv_encode tlv_bytes] in Hcur;
      unfold tlv_bytes in Hcur; rewrite <- !app_assoc in Hcur.
    + (* a payload that is skipped *)
      cbn [tlv_well_formed] in Ht.
      do 3 (apply andb_prop in Ht; destruct Ht as [Ht ?]).
      unfold MMWDEMO_OUTPUT_MSG_RANGE_PROFILE, MMWDEMO_OUTPUT_MSG_STATS in *.
      destruct (check_tlv_type_reads msg_max buf s _ _ _ Hsize Hcur)
        as (s1 & Hcheck & Hty & Hlen & Hc1 & Hcount1 & Hh1 & Hst1 & _);
        [lia | lia |].
      rewrite Z.mod_small in Hty, Hst1 by lia.
      rewrite Z.mod_small in Hlen by (pose proof (vsize_nonneg payload); lia).
      assert (Hstep : step buf s = Ok (s1, [])).
      { unfold sortIncomingData_pass. rewrite Hst, Hcheck. reflexivity. }
      rewrite (sortIncomingData_next _ _ _ _ (S p) buf s _ _
                 ltac:(rewrite Hst; discriminate) Hstep).
      destruct (step_skip buf s1) as [Hns Hskip].
      { rewrite Hst1. apply dispatch_tlv_skipped. lia. }
      destruct (skip_payload_steps_over buf s1 payload _ Hsize Hc1 Hlen)
        as (s2 & Hsk & Hc2 & Hst2 & Hcount2 & Hh2 & _); [lia |].
      rewrite Hsk in Hskip. cbn [bind] in Hskip.
      rewrite (sortIncomingData_next _ _ _ _ p buf s1 _ _ Hns Hskip).
      destruct (IH p s2) as (s' & Hrun & Hc' & Hh'); try assumption.
      * lia.
      * rewrite Hh2, Hh1, Hcount2, Hcount1, Hn. lia.
      * rewrite Hh2, Hh1. exact Hmax.
      * lia.
      * rewrite Hrun. exists s'. split; [reflexivity |].
        split; [exact Hc' |]. now rewrite Hh', Hh2, Hh1.
    + (* detected objects *)
      cbn [tlv_well_formed] in Ht.
      do 4 (apply andb_prop in Ht; destruct Ht as [Ht ?]).
      unfold MMWDEMO_OUTPUT_MSG_DETECTED_POINTS in *.
      destruct (check_tlv_type_reads msg_max buf s _ _ _ Hsize Hcur)
        as (s1 & Hcheck & Hty & Hlen & Hc1 & Hcount1 & Hh1 & Hst1 & _);
        [lia | lia |].
      change (dispatch_tlv msg_max (1 mod 2 ^ 32) (sorterState s))
        with READ_OBJ_STRUCT in Hst1.
      assert (Hstep : step buf s = Ok (s1, [])).
      { unfold sortIncomingData_pass. rewrite Hst, Hcheck. reflexivity. }
      rewrite (sortIncomingData_next _ _ _ _ (S p) buf s _ _
                 ltac:(rewrite Hst; discriminate) Hstep).
      destruct (read_obj_struct_decodes cfg tan_deg ten_log10 buf s1 q objs _
                  Hsize Hc1)
        as (s2 & Hobj & Hc2 & Hst2 & Hcount2 & Hh2).
      { lia. }
      { lia. }
      { assumption. }
      { fold (expected_points cfg tan_deg ten_log10 q objs).
        destruct (expected_points cfg tan_deg ten_log10 q objs);
          [discriminate | discriminate]. }
      assert (Hstep2 : step buf s1
                       = Ok (s2, [published_cloud
                                    (expected_points cfg tan_deg ten_log10
                                                     q objs)])).
      { unfold sortIncomingData_pass. rewrite Hst1, Hobj. reflexivity. }
      rewrite (sortIncomingData_next _ _ _ _ p buf s1 _ _
                 ltac:(rewrite Hst1; discriminate) Hstep2).
      destruct (IH p s2) as (s' & Hrun & Hc' & Hh'); try assumption.
      * lia.
      * rewrite Hh2, Hh1, Hcount2, Hcount1, Hn. lia.
      * rewrite Hh2, Hh1. exact Hmax.
      * lia.
      * rewrite Hrun. exists s'. split; [reflexivity |].
        split; [exact Hc' |]. now rewrite Hh', Hh2, Hh1.
Qed.

Lemma frame_parsed (h : FrameHeader) (tlvs : list Tlv) (trailer : list byte)
      (s : Sorter) (passes : nat) :
  frame_well_formed cfg tan_deg ten_log10 h tlvs trailer = true ->
  at_frame_start s ->
  (2 * List.length tlvs + 2 <= passes)%nat ->
  exists s',
    run passes (frame_of h tlvs trailer) s
    = (flat_map clouds tlvs, AtSwap, s')
    /\ header s' = decoded_header h (header s)
    /\ cursor_at (frame_of h tlvs trailer) (currentDatap s') trailer.
Proof.
  intros Hwf (Hst & Hc0 & Ht0) Hpasses.
  unfold frame_well_formed in Hwf.
  do 4 (apply andb_prop in Hwf; destruct Hwf as [Hwf ?]).
  rename Hwf into Hrange.
  match goal with H : (numTLVs h =? _) = true |- _ =>
    apply Z.eqb_eq in H; rename H into Hn end.
  match goal with H : (totalPacketLen h =? _) = true |- _ =>
    rename H into Hlen end.
  match goal with H : (_ <? _) = true |- _ =>
    apply Z.ltb_lt in H; rename H into Hsize end.
  destruct passes as [| p]; [lia |].
  destruct (read_header_decodes h (flat_map tlv_encode tlvs ++ trailer) s
              Hrange Hsize Hc0)
    as (s1 & Hread & Hh1 & _ & Hc1 & _ & Hst1 & Hcount1).
  fold (frame_of h tlvs trailer) in Hread, Hc1, Hst1.
  rewrite Hlen in Hst1.
  assert (Hstep : step (frame_of h tlvs trailer) s = Ok (s1, [])).
  { unfold sortIncomingData_pass. rewrite Hst, Hread. reflexivity. }
  rewrite (sortIncomingData_next _ _ _ _ p _ s _ _
             ltac:(rewrite Hst; discriminate) Hstep).
  assert (Hntlv : numTLVs (header s1) = Z.of_nat (List.length tlvs)).
  { rewrite Hh1. exact Hn. }
  destruct (tlvs_parsed (frame_of h tlvs trailer) trailer Hsize tlvs p s1)
    as (s' & Hrun & Hc' & Hh'); try assumption.
  - lia.
  - rewrite Hntlv, Hcount1, Ht0. lia.
  - rewrite Hntlv.
    pose proof (tlvs_encode_length tlvs) as Hl.
    unfold frame_of in Hsize. rewrite !vsize_app in Hsize.
    pose proof (vsize_nonneg (header_bytes h (has_subFrameNumber h))).
    pose proof (vsize_nonneg trailer). lia.
  - lia.
  - rewrite Hrun. exists s'. split; [reflexivity |].
    split; [now rewrite Hh', Hh1 | exact Hc'].
Qed.

(** The frames of a stream, one drain buffer each. *)
Lemma frames_parsed (passes : nat)
      (frames : list (FrameHeader * list Tlv * list byte)) :
  forall s,
    Forall (fun f =>
              frame_well_formed cfg tan_deg ten_log10
                                (fst (fst f)) (snd (fst f)) (snd f) = true
              /\ (2 * List.length (snd (fst f)) + 2 <= passes)%nat)
           frames ->
    at_frame_start s ->
    sort_frames cfg tan_deg ten_log10 msg_max passes
                (map (fun f => frame_of (fst (fst f)) (snd (fst f)) (snd f))
                     frames)
                s
    = (flat_map (fun f => flat_map clouds (snd (fst f))) frames, AtSwap).
Proof.
  induction frames as [| [[h tlvs] trailer] frames IH]; intros s Hall Hs.
  - reflexivity.
  - inversion Hall as [| f fs [Hwf Hp] Hrest]; subst. cbn [fst snd] in Hwf, Hp.
    cbn [map sort_frames fst snd flat_map].
    destruct (frame_parsed h tlvs trailer s passes Hwf Hs Hp)
      as (s' & Hrun & _ & _).
    rewrite Hrun.
    rewrite (IH (resume_after_swap s') Hrest); [reflexivity |].
    repeat split.
Qed.

End ParsedFrames.

(** A frame whose header tells the truth and whose TLVs are of the types
    the driver handles is parsed from its first byte to the last byte of
    its last TLV: READ_HEADER decodes the header, CHECK_TLV_TYPE and the
    skipping states step over the payloads that are not used,
    READ_OBJ_STRUCT publishes for each detected-objects TLV the cloud of
    the converted points that pass the filter, in the order of the
    records, and the Sorter ends at SWAP_BUFFERS with the cursor on the
    first byte behind the TLVs. *)
Theorem well_formed_frame_is_parsed
    (cfg : RadarConfig) (tan_deg : Z -> f32) (ten_log10 : f32 -> f32)
    (msg_max : Z) (h : FrameHeader) (tlvs : list Tlv) (trailer : list byte)
    (s : Sorter) (passes : nat) :
  frame_well_formed cfg tan_deg ten_log10 h tlvs trailer = true ->
  at_frame_start s ->
  (2 * List.length tlvs + 2 <= passes)%nat ->
  exists s',
    sortIncomingData cfg tan_deg ten_log10 msg_max passes
                     (frame_of h tlvs trailer) s
    = (flat_map (tlv_clouds cfg tan_deg ten_log10) tlvs, AtSwap, s')
    /\ header s' = decoded_header h (header s)
    /\ currentDatap s' + vsize trailer = vsize (frame_of h tlvs trailer).
Proof.
  intros Hwf Hs Hp.
  destruct (frame_parsed cfg tan_deg ten_log10 msg_max h tlvs trailer s passes
              Hwf Hs Hp) as (s' & Hrun & Hh & Hc).
  exists s'. split; [exact Hrun |]. split; [exact Hh |].
  exact (proj2 (cursor_at_bounds _ _ _ Hc)).
Qed.

(** A range profile that is skipped and two detected objects of which
    one is kept. *)
Lemma well_formed_frame_is_parsed_witness :
  exists s',
    sortIncomingData demo_cfg demo_tan demo_ten_log10 demo_msg_max 6
                     (frame_of mixed_header mixed_tlvs ti_magicWord)
                     initial_sorter
    = (flat_map (tlv_clouds demo_cfg demo_tan demo_ten_log10) mixed_tlvs,
       AtSwap, s')
    /\ header s' = decoded_header mixed_header (header initial_sorter)
    /\ currentDatap s' + vsize ti_magicWord
       = vsize (frame_of mixed_header mixed_tlvs ti_magicWord).
Proof.
  apply (well_formed_frame_is_parsed demo_cfg demo_tan demo_ten_log10
           demo_msg_max mixed_header mixed_tlvs ti_magicWord initial_sorter 6).
  - vm_compute. reflexivity.
  - repeat split.
  - simpl. lia.
Defined.

(** SWAP_BUFFERS resets the cursor and the TLV count (lines 758-761), so
    every frame is parsed on its own: for a stream of well-formed frames
    the Sorter publishes the clouds of the first frame, then those of the
    second, and so on, and asks for the next buffer after each. *)
Theorem well_formed_frames_are_parsed_in_turn
    (cfg : RadarConfig) (tan_deg : Z -> f32) (ten_log10 : f32 -> f32)
    (msg_max : Z) (passes : nat)
    (frames : list (FrameHeader * list Tlv * list byte)) (s : Sorter) :
  Forall (fun f =>
            frame_well_formed cfg tan_deg ten_log10
                              (fst (fst f)) (snd (fst f)) (snd f) = true
            /\ (2 * List.length (snd (fst f)) + 2 <= passes)%nat)
         frames ->
  at_frame_start s ->
  sort_frames cfg tan_deg ten_log10 msg_max passes
              (map (fun f => frame_of (fst (fst f)) (snd (fst f)) (snd f))
                   frames)
              s
  = (flat_map (fun f => flat_map (tlv_clouds cfg tan_deg ten_log10)
                                 (snd (fst f))) frames,
     AtSwap).
Proof.
  intros Hall Hs.
  exact (frames_parsed cfg tan_deg ten_log10 msg_max passes frames s Hall Hs).
Qed.

(** Two frames, one from an xWR1642 and one from an xWR1443. *)
Lemma well_formed_frames_are_parsed_in_turn_witness :
  sort_frames demo_cfg demo_tan demo_ten_log10 demo_msg_max 6
              (map (fun f => frame_of (fst (fst f)) (snd (fst f)) (snd f))
                   [(mixed_header, mixed_tlvs, ti_magicWord);
                    (stats_header, stats_tlvs, ti_magicWord)])
              initial_sorter
  = (flat_map (fun f => flat_map (tlv_clouds demo_cfg demo_tan demo_ten_log10)
                                 (snd (fst f)))
              [(mixed_header, mixed_tlvs, ti_magicWord);
               (stats_header, stats_tlvs, ti_magicWord)],
     AtSwap).
Proof.
  apply (well_formed_frames_are_parsed_in_turn demo_cfg demo_tan
           demo_ten_log10 demo_msg_max 6
           [(mixed_header, mixed_tlvs, ti_magicWord);
            (stats_header, stats_tlvs, ti_magicWord)]
           initial_sorter).
  - repeat constructor; vm_compute; reflexivity.
  - repeat split.
Defined.

(* ================================================================== *)
(** ** How long the Sorter stays on one buffer *)

Lemma memcpy_at_inside (n : nat) (buf : list byte) (pos v : Z) :
  memcpy_at n buf pos = Ok v -> pos + Z.of_nat n <= vsize buf.
Proof.
  unfold memcpy_at. intros H.
  destruct (pos <? vsize buf); [| discriminate].
  destruct (Z.leb_spec (pos + Z.of_nat n) (vsize buf)); [lia | discriminate].
Qed.

Lemma u32_add_inside (buf : list byte) (c n : Z) :
  vsize buf < 2 ^ 31 -> 0 <= c -> 0 <= n -> c + n <= vsize buf ->
  u32_add c n = c + n.
Proof. intros. unfold u32_add. apply Z.mod_small. lia. Qed.

(** A field that could be copied leaves the cursor inside the buffer. *)
Lemma memcpy_at_moves (n : nat) (buf : list byte) (c v : Z) :
  vsize buf < 2 ^ 31 -> 0 <= c ->
  memcpy_at n buf c = Ok v ->
  u32_add c (Z.of_nat n) = c + Z.of_nat n /\ c + Z.of_nat n <= vsize buf.
Proof.
  intros Hsize Hc H. apply memcpy_at_inside in H.
  split; [apply (u32_add_inside buf); lia | lia].
Qed.

Ltac moved4 H Hsize :=
  let Ha := fresh "Ha" in
  let Hb := fresh "Hb" in
  apply memcpy_at_moves in H; [| exact Hsize | lia];
  destruct H as [Ha Hb];
  change (Z.of_nat 4) with 4 in Ha, Hb; rewrite ?Ha in *.

Ltac moved2 H Hsize :=
  let Ha := fresh "Ha" in
  let Hb := fresh "Hb" in
  apply memcpy_at_moves in H; [| exact Hsize | lia];
  destruct H as [Ha Hb];
  change (Z.of_nat 2) with 2 in Ha, Hb; rewrite ?Ha in *.

Ltac bind_cases H :=
  match type of H with
  | context [bind (memcpy_at ?n ?buf ?c) _] =>
      let E := fresh "Ecopy" in
      destruct (memcpy_at n buf c) eqn:E; cbn [bind] in H; [| discriminate]
  end.

Lemma read_header_moves (buf : list byte) (s s' : Sorter) :
  vsize buf < 2 ^ 31 -> 0 <= currentDatap s ->
  read_header buf s = Ok s' ->
  (sorterState s' = CHECK_TLV_TYPE \/ sorterState s' = SWAP_BUFFERS)
  /\ (currentDatap s' = currentDatap s
      \/ currentDatap s <= currentDatap s' <= vsize buf).
Proof.
  intros Hsize Hc H. unfold read_header in H.
  destruct (vsize buf <? 12).
  { injection H as <-. cbn. auto. }
  cbv zeta in H.
  bind_cases H. moved4 Ecopy Hsize.
  bind_cases H. moved4 Ecopy Hsize.
  bind_cases H. moved4 Ecopy Hsize.
  destruct (vsize buf <? expected_headerSize a a1).
  { injection H as <-. cbn. split; [auto | right; lia]. }
  bind_cases H. moved4 Ecopy Hsize.
  bind_cases H. moved4 Ecopy Hsize.
  bind_cases H. moved4 Ecopy Hsize.
  bind_cases H. moved4 Ecopy Hsize.
  destruct (negb (platform_low16 a1 =? 5187)).
  - bind_cases H. moved4 Ecopy Hsize. cbn [bind fst snd] in H.
    destruct (a0 =? vsize buf - 4); injection H as <-; cbn;
      (split; [auto | right; lia]).
  - cbn [bind fst snd] in H.
    destruct (a0 =? vsize buf - 4); injection H as <-; cbn;
      (split; [auto | right; lia]).
Qed.

Lemma check_tlv_type_moves (msg_max : Z) (buf : list byte) (s s' : Sorter) :
  vsize buf < 2 ^ 31 -> 0 <= currentDatap s ->
  check_tlv_type msg_max buf s = Ok s' ->
  (sorterState s' = SWAP_BUFFERS /\ currentDatap s' = currentDatap s)
  \/ (currentDatap s' = currentDatap s + 8 /\ currentDatap s' <= vsize buf).
Proof.
  intros Hsize Hc H. unfold check_tlv_type in H.
  destruct (tlvCount s =? 2 ^ 31 - 1); [discriminate |].
  destruct (numTLVs (header s) <=? tlvCount s).
  { injection H as <-. left. split; reflexivity. }
  cbv zeta in H.
  bind_cases H. moved4 Ecopy Hsize.
  bind_cases H. moved4 Ecopy Hsize.
  injection H as <-. right. cbn. lia.
Qed.

Lemma skip_payload_moves (s s' : Sorter) :
  0 <= currentDatap s <= 2 ^ 31 ->
  skip_payload s = Ok s' ->
  sorterState s' = CHECK_TLV_TYPE /\ currentDatap s < currentDatap s'.
Proof.
  intros Hc H. unfold skip_payload in H.
  destruct (Z.leb_spec 1 (tlvLen s)); [| discriminate].
  destruct (Z.leb_spec (tlvLen s) (2 ^ 31 - 1)); [| discriminate].
  cbn [andb] in H. injection H as <-. cbn. split; [reflexivity |].
  unfold u32_add. rewrite Z.mod_small; lia.
Qed.

Section Passes.

Variable cfg : RadarConfig.
Variable tan_deg : Z -> f32.
Variable ten_log10 : f32 -> f32.
Variable msg_max : Z.

Lemma read_object_moves (buf : list byte) (c c' : Z) (o : DetectedObj) :
  vsize buf < 2 ^ 31 -> 0 <= c ->
  read_object buf c = Ok (o, c') -> c <= c' <= vsize buf.
Proof.
  intros Hsize Hc H. unfold read_object in H. cbv zeta in H.
  bind_cases H. moved2 Ecopy Hsize.
  bind_cases H. moved2 Ecopy Hsize.
  bind_cases H. moved2 Ecopy Hsize.
  bind_cases H. moved2 Ecopy Hsize.
  bind_cases H. moved2 Ecopy Hsize.
  bind_cases H. moved2 Ecopy Hsize.
  injection H as _ <-. lia.
Qed.

Lemma object_pass_moves (buf : list byte) (s s' : Sorter) :
  vsize buf < 2 ^ 31 -> 0 <= currentDatap s ->
  object_pass cfg ten_log10 buf s = Ok s' ->
  currentDatap s <= currentDatap s' <= vsize buf.
Proof.
  intros Hsize Hc H. unfold object_pass in H.
  destruct (read_object buf (currentDatap s)) as [[o c'] |] eqn:Er;
    cbn [bind fst snd] in H; [| discriminate].
  apply read_object_moves in Er; [| assumption | assumption].
  destruct (convert_object cfg ten_log10 (xyzQFormat s) o);
    cbn [bind] in H; [| discriminate].
  destruct (keep_point _ _ _); injection H as <-; cbn; lia.
Qed.

Lemma object_loop_moves (buf : list byte) (fuel : nat) :
  vsize buf < 2 ^ 31 ->
  forall s s',
    0 <= currentDatap s <= vsize buf ->
    object_loop cfg ten_log10 fuel buf s = Ok s' ->
    currentDatap s <= currentDatap s' <= vsize buf.
Proof.
  intros Hsize. induction fuel as [| fuel IH]; intros s s' Hc H;
    cbn [object_loop] in H.
  - injection H as <-. lia.
  - destruct (loop_i s <? numObjOut s).
    + destruct (object_pass cfg ten_log10 buf s) as [s1 |] eqn:Ep;
        cbn [bind] in H; [| discriminate].
      apply object_pass_moves in Ep; [| assumption | lia].
      apply IH in H; lia.
    + injection H as <-. lia.
Qed.

Lemma read_obj_struct_moves (buf : list byte) (s s' : Sorter) (c : PointCloud) :
  vsize buf < 2 ^ 31 -> 0 <= currentDatap s ->
  read_obj_struct cfg tan_deg ten_log10 buf s = Ok (s', c) ->
  sorterState s' = CHECK_TLV_TYPE
  /\ currentDatap s <= currentDatap s' <= vsize buf.
Proof.
  intros Hsize Hc H. unfold read_obj_struct in H. cbv zeta in H.
  bind_cases H. moved2 Ecopy Hsize.
  bind_cases H. moved2 Ecopy Hsize.
  match type of H with
  | context [bind (object_loop _ _ ?n _ ?s1) _] =>
      destruct (object_loop cfg ten_log10 n buf s1) as [s2 |] eqn:El;
      cbn [bind] in H; [| discriminate]
  end.
  apply object_loop_moves in El; [| assumption | cbn; lia].
  cbn in El.
  match type of H with
  | match ?pts with _ => _ end = _ => destruct pts; [discriminate |]
  end.
  injection H as <- _. cbn. split; [reflexivity | lia].
Qed.

Local Abbreviation run := (sortIncomingData cfg tan_deg ten_log10 msg_max).
Local Abbreviation step := (sortIncomingData_pass cfg tan_deg ten_log10 msg_max).

(** Every pass that does not end the run brings the Sorter closer to
    SWAP_BUFFERS. *)
Lemma sortIncomingData_pass_progress (buf : list byte) (s s' : Sorter)
      (out : list PointCloud) :
  vsize buf < 2 ^ 31 ->
  cursor_in_buffer buf s ->
  sorterState s <> SWAP_BUFFERS ->
  step buf s = Ok (s', out) ->
  cursor_in_buffer buf s' /\ (passes_left buf s' < passes_left buf s)%nat.
Proof.
  intros Hsize (Hc & Hin) Hns H.
  unfold sortIncomingData_pass in H.
  unfold cursor_in_buffer, passes_left.
  destruct (sorterState s) eqn:Est; try contradiction;
    try (destruct Hin as [Hin | [Hin | Hin]]; try discriminate;
         destruct (skip_payload s) as [s1 |] eqn:E; cbn [bind] in H;
         [| discriminate]; injection H as <- _;
         apply skip_payload_moves in E; [| lia];
         destruct E as [-> E]; split; [split; [lia | auto] | lia]).
  - destruct Hin as [Hin | [Hin | Hin]]; try discriminate.
    destruct (read_header buf s) as [s1 |] eqn:E; cbn [bind] in H;
      [| discriminate].
    injection H as <- _.
    apply read_header_moves in E; [| assumption | assumption].
    destruct E as [[-> | ->] E]; (split; [split; [lia | auto] | lia]).
  - destruct (check_tlv_type msg_max buf s) as [s1 |] eqn:E; cbn [bind] in H;
      [| discriminate].
    injection H as <- _.
    apply check_tlv_type_moves in E; [| assumption | assumption].
    destruct E as [[-> E] | [E1 E2]]; [split; [split; [lia | auto] | lia] |].
    split; [split; [lia | auto] |].
    destruct (sorterState s1); lia.
  - destruct Hin as [Hin | [Hin | Hin]]; try discriminate.
    destruct (read_obj_struct cfg tan_deg ten_log10 buf s) as [[s1 c] |] eqn:E;
      cbn [bind fst snd] in H; [| discriminate].
    injection H as <- _.
    apply read_obj_struct_moves in E; [| assumption | assumption].
    destruct E as [-> E]. split; [split; [lia | auto] | lia].
Qed.

Lemma sortIncomingData_ends (buf : list byte) :
  vsize buf < 2 ^ 31 ->
  forall (n : nat) (s : Sorter),
    cursor_in_buffer buf s ->
    (passes_left buf s < n)%nat \/ sorterState s = SWAP_BUFFERS ->
    snd (fst (run n buf s)) <> Unfinished
    /\ forall more, run (n + more) buf s = run n buf s.
Proof.
  intros Hsize n.
  induction n as [| n IH]; intros s Hin Hn.
  - destruct Hn as [Hn | Hn]; [lia |].
    split.
    + rewrite sortIncomingData_at_swap by exact Hn. discriminate.
    + intros more. now rewrite !sortIncomingData_at_swap by exact Hn.
  - destruct (SorterState_eq_dec (sorterState s) SWAP_BUFFERS) as [Hs | Hs].
    { split.
      + rewrite sortIncomingData_at_swap by exact Hs. discriminate.
      + intros more. now rewrite !sortIncomingData_at_swap by exact Hs. }
    destruct Hn as [Hn | Hn]; [| contradiction].
    destruct (step buf s) as [[s' out] | f] eqn:Estep.
    + destruct (sortIncomingData_pass_progress buf s s' out Hsize Hin Hs Estep)
        as [Hin' Hless].
      destruct (IH s' Hin' ltac:(left; lia)) as [Hend Hmore].
      split.
      * rewrite (sortIncomingData_next _ _ _ _ n buf s s' out Hs Estep).
        destruct (run n buf s') as [[rest st] s'']. exact Hend.
      * intros more. cbn [Nat.add].
        rewrite !(sortIncomingData_next _ _ _ _ _ buf s s' out Hs Estep).
        now rewrite Hmore.
    + split.
      * rewrite (sortIncomingData_fault _ _ _ _ n buf s f Hs Estep).
        discriminate.
      * intros more. cbn [Nat.add].
        now rewrite !(sortIncomingData_fault _ _ _ _ _ buf s f Hs Estep).
Qed.

End Passes.

(** On a drain buffer of fewer than 2^31 bytes the state machine of the
    Sorter cannot go on for ever, whatever the bytes are: with the cursor
    inside the buffer it is back at SWAP_BUFFERS, or has left defined
    behaviour or thrown, after at most twice as many passes as the buffer
    has bytes, and three; further passes change nothing. *)
Theorem sorter_passes_are_bounded
    (cfg : RadarConfig) (tan_deg : Z -> f32) (ten_log10 : f32 -> f32)
    (msg_max : Z) (buf : list byte) (s : Sorter) (passes : nat) :
  vsize buf < 2 ^ 31 ->
  0 <= currentDatap s <= vsize buf ->
  (2 * List.length buf + 3 <= passes)%nat ->
  snd (fst (sortIncomingData cfg tan_deg ten_log10 msg_max passes buf s))
  <> Unfinished
  /\ sortIncomingData cfg tan_deg ten_log10 msg_max passes buf s
     = sortIncomingData cfg tan_deg ten_log10 msg_max
                        (2 * List.length buf + 3) buf s.
Proof.
  intros Hsize Hc Hpasses.
  assert (Hin : cursor_in_buffer buf s).
  { unfold cursor_in_buffer. split; [lia |]. right. right. lia. }
  assert (Hleft : (passes_left buf s < 2 * List.length buf + 3)%nat).
  { unfold passes_left. unfold vsize in *.
    destruct (sorterState s); lia. }
  destruct (sortIncomingData_ends cfg tan_deg ten_log10 msg_max buf Hsize
              (2 * List.length buf + 3) s Hin (or_introl Hleft))
    as [Hend Hmore].
  replace passes
    with (2 * List.length buf + 3 + (passes - (2 * List.length buf + 3)))%nat
    by lia.
  rewrite Hmore. split; [exact Hend | reflexivity].
Qed.

(** A frame of 44 bytes whose only TLV is of a type the [switch] does not
    name: 91 passes are enough, and 100 give the same. *)
Lemma sorter_passes_are_bounded_witness :
  snd (fst (sortIncomingData demo_cfg demo_tan demo_ten_log10 demo_msg_max
              100 unknown_tlv_frame initial_sorter))
  <> Unfinished
  /\ sortIncomingData demo_cfg demo_tan demo_ten_log10 demo_msg_max
                      100 unknown_tlv_frame initial_sorter
     = sortIncomingData demo_cfg demo_tan demo_ten_log10 demo_msg_max
                        (2 * List.length unknown_tlv_frame + 3)
                        unknown_tlv_frame initial_sorter.
Proof.
  apply (sorter_passes_are_bounded demo_cfg demo_tan demo_ten_log10
           demo_msg_max unknown_tlv_frame initial_sorter 100).
  - vm_compute. reflexivity.
  - vm_compute. split; discriminate.
  - vm_compute. lia.
Defined.

(* ================================================================== *)
(** ** From the serial port to the clouds *)

Lemma window_of_last8 (a b : list byte) :
  (8 <= List.length b)%nat -> window_of (a ++ b) = window_of b.
Proof.
  intros Hb.
  pose proof (window_of_firstn (a ++ b) (List.length (a ++ b))) as H1.
  pose proof (window_of_firstn b (List.length b) ltac:(lia)) as H2.
  rewrite firstn_all in H1, H2. rewrite H2, H1 by (rewrite length_app; lia).
  rewrite length_app, skipn_app.
  rewrite skipn_all2 by lia. cbn [app].
  f_equal. f_equal. lia.
Qed.

Lemma magic_word_first_app (mw a b : list byte) :
  magic_word_first mw (a ++ b) = true -> magic_word_first mw b = true.
Proof.
  unfold magic_word_first. rewrite !forallb_forall. intros H k Hk.
  apply in_seq in Hk.
  specialize (H (List.length a + k)%nat).
  rewrite <- app_assoc in H.
  rewrite skipn_app in H.
  rewrite skipn_all2 in H by lia. cbn [app] in H.
  replace (List.length a + k - List.length a)%nat with k in H by lia.
  apply H. apply in_seq. rewrite length_app. lia.
Qed.

Section Framing.

Variable magicWord : list byte.
Hypothesis magicWord_length : List.length magicWord = 8%nat.
Hypothesis magicWord_head : nth 0 magicWord x00 <> x00.

(** As long as the window does not hold the magic word the main loop
    pushes byte after byte onto the fill buffer. *)
Lemma fill_loop_consumes (bytes : list byte) :
  forall (consumed buf : list byte) (first : Z) (rest : list (option byte)),
    (forall k, (0 < k <= List.length bytes)%nat ->
               isMagicWord magicWord (window_of (consumed ++ firstn k bytes))
               = 0) ->
    fill_loop magicWord (map Some bytes ++ rest)
              (mkReader (window_of consumed) buf first)
    = fill_loop magicWord rest
                (mkReader (window_of (consumed ++ bytes)) (buf ++ bytes) first).
Proof.
  induction bytes as [| b bytes IH]; intros consumed buf first rest Hno.
  - rewrite !app_nil_r. reflexivity.
  - pose proof (Hno 1%nat ltac:(simpl; lia)) as H1.
    cbn [firstn] in H1.
    cbn [map app fill_loop last8Bytes nextBuf firstPacketReady].
    change (nth 7 (advance (window_of consumed) (Some b)) x00) with b.
    rewrite window_of_snoc, H1. cbn [Z.eqb].
    rewrite (IH (consumed ++ [b]) (buf ++ [b]) first rest).
    + rewrite <- !app_assoc. reflexivity.
    + intros k Hk. rewrite <- app_assoc. apply (Hno (S k)). simpl. lia.
Qed.

Lemma isMagicWord_self : isMagicWord magicWord magicWord = 1.
Proof.
  rewrite (isMagicWord_full magicWord magicWord_length magicWord_head)
    by exact magicWord_length.
  replace (bytes_eqb magicWord magicWord) with true; [reflexivity |].
  symmetry. apply bytes_eqb_eq. reflexivity.
Qed.

(** One frame: the bytes up to and with the next magic word are handed
    over together. *)
Lemma fill_loop_frame (body : list byte) :
  forall (consumed buf : list byte) (first : Z) (rest : list (option byte)),
    (forall k, (0 < k < List.length (body ++ magicWord))%nat ->
               isMagicWord magicWord
                 (window_of (consumed ++ firstn k (body ++ magicWord))) = 0) ->
    fill_loop magicWord (map Some (body ++ magicWord) ++ rest)
              (mkReader (window_of consumed) buf first)
    = (mkReady (buf ++ body ++ magicWord) (if first =? 0 then 2 else 1)
       :: fst (fill_loop magicWord rest (mkReader zero_window [] 1)),
       snd (fill_loop magicWord rest (mkReader zero_window [] 1))).
Proof.
  intros consumed buf first rest Hno.
  assert (Hne : body ++ magicWord <> []).
  { destruct magicWord; [discriminate magicWord_length |].
    destruct body; discriminate. }
  destruct (exists_last Hne) as (init & b & Hsplit).
  rewrite Hsplit in Hno |- *.
  rewrite map_app, <- app_assoc.
  rewrite fill_loop_consumes.
  - cbn [map app fill_loop last8Bytes nextBuf firstPacketReady].
    change (nth 7 (advance (window_of (consumed ++ init)) (Some b)) x00)
      with b.
    rewrite window_of_snoc, <- app_assoc, <- Hsplit.
    rewrite app_assoc, window_of_whole by exact magicWord_length.
    rewrite isMagicWord_self. cbn [Z.eqb].
    destruct (fill_loop magicWord rest (mkReader zero_window [] 1))
      as [frames r'].
    cbn [fst snd]. rewrite <- !app_assoc, <- ?Hsplit. reflexivity.
  - intros k Hk.
    replace (firstn k init) with (firstn k (init ++ [b])).
    + apply Hno. rewrite length_app. cbn. lia.
    + rewrite firstn_app. replace (k - List.length init)%nat with 0%nat by lia.
      cbn. now rewrite app_nil_r.
Qed.

(** Behind the magic word of the search, and behind a hand-over. *)
Lemma no_magic_word_inside (body : list byte) (consumed : list byte) (k : nat) :
  magic_word_only_at_ends magicWord body = true ->
  consumed = magicWord \/ consumed = [] ->
  (0 < k < List.length (body ++ magicWord))%nat ->
  isMagicWord magicWord
    (window_of (consumed ++ firstn k (body ++ magicWord))) = 0.
Proof.
  unfold magic_word_only_at_ends. intros Hends [-> | ->] Hk.
  - destruct magicWord as [| m0 mw'] eqn:Emw; [discriminate magicWord_length |].
    cbn [tl] in Hends. cbn [app].
    change (m0 :: mw' ++ firstn k (body ++ m0 :: mw'))
      with ([m0] ++ (mw' ++ firstn k (body ++ m0 :: mw'))).
    cbn [List.length] in magicWord_length.
    rewrite window_of_last8
      by (rewrite length_app, length_firstn; lia).
    replace (mw' ++ firstn k (body ++ m0 :: mw'))
      with (firstn (List.length mw' + k) ((mw' ++ body) ++ m0 :: mw'))
      by (rewrite <- app_assoc; apply firstn_app_2).
    rewrite <- Emw in *.
    apply (no_magic_word_before_end magicWord); try assumption.
    + rewrite Emw. cbn [List.length]. lia.
    + rewrite !length_app in *. lia.
  - cbn [app].
    apply (no_magic_word_before_end magicWord); try assumption.
    + exact (magic_word_first_app _ _ _ Hends).
    + lia.
Qed.

Lemma fill_loop_frames (bodies : list (list byte)) :
  Forall (fun body => magic_word_only_at_ends magicWord body = true) bodies ->
  fill_loop magicWord
            (map Some (flat_map (fun body => body ++ magicWord) bodies))
            (mkReader zero_window [] 1)
  = (map (fun body => mkReady (body ++ magicWord) 1) bodies,
     mkReader zero_window [] 1).
Proof.
  induction bodies as [| body bodies IH]; intros Hall.
  - reflexivity.
  - inversion Hall as [| ? ? Hbody Hrest]; subst.
    cbn [flat_map map]. rewrite map_app.
    change zero_window with (window_of []) at 1.
    rewrite fill_loop_frame.
    + rewrite (IH Hrest). reflexivity.
    + intros k Hk. apply no_magic_word_inside; auto.
Qed.

Lemma readIncomingData_frames (garbage : list byte) (bodies : list (list byte)) :
  magic_word_first magicWord garbage = true ->
  Forall (fun body => magic_word_only_at_ends magicWord body = true) bodies ->
  map frame_bytes
      (fst (readIncomingData magicWord
              (map Some (stream_of magicWord garbage bodies))))
  = map (fun body => body ++ magicWord) bodies.
Proof.
  intros Hg Hall. unfold readIncomingData, stream_of.
  rewrite app_assoc, map_app.
  rewrite (resync_first_magic_word magicWord magicWord_length magicWord_head)
    by exact Hg.
  destruct bodies as [| body bodies].
  - reflexivity.
  - inversion Hall as [| ? ? Hbody Hrest]; subst.
    cbn [flat_map]. rewrite map_app.
    pose proof (fill_loop_frame body magicWord [] 0
                  (map Some (flat_map (fun b => b ++ magicWord) bodies))) as Hf.
    pose proof (window_of_whole [] magicWord magicWord_length) as Hw.
    cbn [app] in Hw. rewrite Hw in Hf at 1. clear Hw.
    rewrite Hf by (intros k Hk; apply no_magic_word_inside; auto).
    rewrite (fill_loop_frames bodies Hrest).
    cbn [fst snd map frame_bytes app Z.eqb].
    f_equal. rewrite map_map. reflexivity.
Qed.

(** With a stream in which the magic word stands only between the
    frames, the buffers the Reader hands over are the frames, one by one
    and in order, each with the magic word of the next at its end; the
    garbage and the first magic word are in none of them. *)
Theorem reader_hands_over_frame_by_frame
    (garbage : list byte) (bodies : list (list byte)) :
  magic_word_first magicWord garbage = true ->
  Forall (fun body => magic_word_only_at_ends magicWord body = true) bodies ->
  map frame_bytes
      (fst (readIncomingData magicWord
              (map Some (stream_of magicWord garbage bodies))))
  = map (fun body => body ++ magicWord) bodies.
Proof.
  intros Hg Hall. exact (readIncomingData_frames garbage bodies Hg Hall).
Qed.

(** From the bytes on the serial port to the clouds on the topic: when
    the stream is made of well-formed frames between magic words, the
    driver publishes, frame after frame and TLV after TLV, the cloud of
    the converted points of every detected-objects TLV that pass the
    filter, and nothing else. *)
Theorem stream_of_well_formed_frames_gives_their_clouds
    (cfg : RadarConfig) (tan_deg : Z -> f32) (ten_log10 : f32 -> f32)
    (msg_max : Z) (passes : nat) (garbage : list byte)
    (frames : list (FrameHeader * list Tlv * list byte)) :
  magic_word_first magicWord garbage = true ->
  Forall (fun f =>
            frame_well_formed cfg tan_deg ten_log10 (fst (fst f))
                              (snd (fst f)) (snd f ++ magicWord) = true
            /\ magic_word_only_at_ends
                 magicWord (frame_of (fst (fst f)) (snd (fst f)) (snd f))
               = true
            /\ (2 * List.length (snd (fst f)) + 2 <= passes)%nat)
         frames ->
  pipeline magicWord cfg tan_deg ten_log10 msg_max passes
           (map Some
              (stream_of magicWord garbage
                 (map (fun f => frame_of (fst (fst f)) (snd (fst f)) (snd f))
                      frames)))
  = (flat_map (fun f => flat_map (tlv_clouds cfg tan_deg ten_log10)
                                 (snd (fst f))) frames,
     AtSwap).
Proof.
  intros Hg Hall. unfold pipeline.
  rewrite readIncomingData_frames.
  - rewrite map_map.
    pose proof (frames_parsed cfg tan_deg ten_log10 msg_max passes
                  (map (fun f => (fst (fst f), snd (fst f), snd f ++ magicWord))
                       frames)
                  initial_sorter) as Hrun.
    rewrite map_map in Hrun. cbn [fst snd] in Hrun.
    replace (map (fun f => frame_of (fst (fst f)) (snd (fst f)) (snd f)
                           ++ magicWord) frames)
      with (map (fun f => frame_of (fst (fst f)) (snd (fst f))
                                   (snd f ++ magicWord)) frames)
      by (apply map_ext; intros f; unfold frame_of;
          now rewrite <- !app_assoc).
    rewrite Hrun.
    + f_equal. clear. induction frames as [| f fs IH]; [reflexivity |].
      cbn [map flat_map fst snd]. now rewrite IH.
    + apply Forall_map. eapply Forall_impl; [| exact Hall].
      cbn [fst snd]. intros f (Hwf & _ & Hp). auto.
    + repeat split.
  - exact Hg.
  - apply Forall_map. eapply Forall_impl; [| exact Hall].
    intros f (_ & Hends & _). exact Hends.
Qed.

End Framing.

(** Garbage, the magic word, and a frame of each platform. *)
Lemma reader_hands_over_frame_by_frame_witness :
  map frame_bytes
      (fst (readIncomingData ti_magicWord
              (map Some
                 (stream_of ti_magicWord [xff; x02; x01; x04]
                    [frame_of mixed_header mixed_tlvs [];
                     frame_of stats_header stats_tlvs []]))))
  = map (fun body => body ++ ti_magicWord)
        [frame_of mixed_header mixed_tlvs [];
         frame_of stats_header stats_tlvs []].
Proof.
  apply (reader_hands_over_frame_by_frame ti_magicWord).
  - reflexivity.
  - discriminate.
  - vm_compute. reflexivity.
  - repeat constructor; vm_compute; reflexivity.
Defined.

Lemma stream_of_well_formed_frames_gives_their_clouds_witness :
  pipeline ti_magicWord demo_cfg demo_tan demo_ten_log10 demo_msg_max 6
           (map Some
              (stream_of ti_magicWord [xff; x02; x01; x04]
                 (map (fun f => frame_of (fst (fst f)) (snd (fst f)) (snd f))
                      two_frames)))
  = (flat_map (fun f => flat_map (tlv_clouds demo_cfg demo_tan demo_ten_log10)
                                 (snd (fst f)))
              two_frames,
     AtSwap).
Proof.
  apply (stream_of_well_formed_frames_gives_their_clouds ti_magicWord).
  - reflexivity.
  - discriminate.
  - vm_compute. reflexivity.
  - repeat constructor; vm_compute; reflexivity.
Defined.

(* ================================================================== *)
(** ** Angle limits that are switched off *)

Lemma limit_off_spec (deg : Z) :
  limit_off deg = negb ((0 <=? deg) && (deg <? 90)).
Proof.
  unfold limit_off.
  destruct (Z.ltb_spec deg 0), (Z.leb_spec 90 deg), (Z.leb_spec 0 deg),
    (Z.ltb_spec deg 90); cbn; try reflexivity; lia.
Qed.

(** A limit outside [0, 90) - such as the 90 degrees the constructor sets
    (lines 65-66) - turns its test off, whatever [tan] is: with both limits
    off a point is kept exactly when its [x] is not zero. *)
Theorem angle_limits_off_keep_all_but_x_zero
    (cfg : RadarConfig) (tan_deg : Z -> f32) (p : RadarPoint) :
  limit_off (maxAllowedElevationAngleDeg cfg) = true ->
  limit_off (maxAllowedAzimuthAngleDeg cfg) = true ->
  keep_point (elevation_ratio_squared cfg tan_deg) (azimuth_ratio cfg tan_deg) p
  = f32_ne (pt_x p) (f32_of_Z 0).
Proof.
  rewrite !limit_off_spec. intros He Ha.
  apply negb_true_iff in He, Ha.
  unfold elevation_ratio_squared, azimuth_ratio, elevation_enabled,
    azimuth_enabled.
  rewrite He, Ha. unfold keep_point.
  change (f32_eq (f32_of_Z (-1)) (f32_of_Z (-1))) with true.
  reflexivity.
Qed.

(** The limits the constructor sets. *)
Lemma angle_limits_off_keep_all_but_x_zero_witness :
  keep_point (elevation_ratio_squared demo_cfg demo_tan)
             (azimuth_ratio demo_cfg demo_tan) zero_point
  = f32_ne (pt_x zero_point) (f32_of_Z 0).
Proof.
  apply (angle_limits_off_keep_all_but_x_zero demo_cfg demo_tan zero_point).
  - reflexivity.
  - reflexivity.
Defined.
